(** * reSIDfp numerical core: the 8580 integrator and the sinc resampler

    A shallow embedding of [Integrator8580.h] and [resample/SincResampler.cpp]
    and the properties proved about them.

    Conventions.
    - [int], [unsigned int] and [unsigned short] are integers in [Z] with
      their 32- and 16-bit wrap-around written out ([wrap_int], [wrap_uint],
      [wrap_ushort]).
    - [double] is Rocq's primitive [float] (IEEE 754 binary64, round to
      nearest even).  [float] (binary32) is a [spec_float] computed with the
      generic IEEE operations at precision 24.
    - A failed [assert] and behaviour the C++ standard leaves undefined are
      explicit outcomes of type [result]. *)

From Stdlib Require Import ZArith Floats Lia Bool.
From stdpp Require Import base option list gmap strings pretty.

Set Warnings "-inexact-float".
Local Open Scope Z_scope.

(** ** Outcomes *)

Inductive fault : Set :=
| Assert_subthreshold      (* assert(vx < nVgt)                     *)
| Assert_table_index       (* assert(tmp < (1 << 16))               *)
| Assert_setFc_range       (* assert(tmp > -0.5 && tmp < 65535.5)   *)
| Assert_setV_domain       (* assert(v > 1.0 && v < 2.0)            *)
| Assert_setV_range        (* assert(tmp > -0.5 && tmp < 65535.5)   *)
| Assert_ring_overflow     (* assert(firN < RINGSIZE)               *)
| Undefined_behaviour      (* read or write outside an array        *)
| Out_of_fuel.             (* a loop did not finish within the fuel *)

Inductive result (A : Type) : Type :=
| Ok (a : A)
| Fail (f : fault).
Arguments Ok {A} a.
Arguments Fail {A} f.

#[global] Instance result_ret : MRet result := @Ok.
#[global] Instance result_bind : MBind result := fun A B k r =>
  match r with
  | Ok a => k a
  | Fail f => Fail f
  end.

Definition is_Ok {A : Type} (r : result A) : Prop :=
  match r with Ok _ => True | Fail _ => False end.

(** ** Machine integers *)

Definition wrap_int (z : Z) : Z := (z + 2 ^ 31) mod 2 ^ 32 - 2 ^ 31.
Definition wrap_uint (z : Z) : Z := z mod 2 ^ 32.
Definition wrap_ushort (z : Z) : Z := z mod 2 ^ 16.

Definition in_int (z : Z) : Prop := - 2 ^ 31 <= z < 2 ^ 31.
Definition in_ushort (z : Z) : Prop := 0 <= z < 2 ^ 16.

(** [a[i]] for an array held as a list: nothing is there outside its bounds. *)
Definition lookupZ {A : Type} (l : list A) (i : Z) : option A :=
  if i <? 0 then None else l !! Z.to_nat i.

(** ** Doubles *)

(** The integer part of a double, rounded towards zero; [None] for an
    infinity or a NaN. *)
Definition trunc (d : float) : option Z :=
  match Prim2SF d with
  | S754_zero _ => Some 0
  | S754_finite s m e =>
      let a := Z.shiftl (Zpos m) e in
      Some (if s then - a else a)
  | _ => None
  end.

(** [static_cast<int>(d)].  Outside the range of [int] the conversion is
    undefined in C++; the model returns what the x86-64 conversion
    instruction returns there, the most negative [int]. *)
Definition to_int (d : float) : Z :=
  match trunc d with
  | Some z => if (- 2 ^ 31 <=? z) && (z <? 2 ^ 31) then z else - 2 ^ 31
  | None => - 2 ^ 31
  end.

(** [static_cast<unsigned short>(d)]: converted as an [int], then cut to 16
    bits. *)
Definition to_ushort (d : float) : Z := wrap_ushort (to_int d).

(** [static_cast<double>(z)] for an [int] [z] (exact: 32 bits fit in 53). *)
Definition of_int (z : Z) : float :=
  SF2Prim (binary_normalize prec emax z 0 false).

(** ** Integrator8580 *)

Record Integrator8580 : Type := {
  opamp_rev : list Z;          (* const unsigned short*: 65536 entries *)
  vx : Z;                      (* mutable int *)
  vc : Z;                      (* mutable int *)
  nVgt : Z;                    (* unsigned short *)
  n_dac : Z;                   (* unsigned short *)
  voice_DC_voltage : float;
  Vth : float;
  nKp : float;
  vmin : float;
  N16 : float
}.

Definition with_n_dac (s : Integrator8580) (v : Z) : Integrator8580 :=
  {| opamp_rev := opamp_rev s; vx := vx s; vc := vc s; nVgt := nVgt s;
     n_dac := v; voice_DC_voltage := voice_DC_voltage s; Vth := Vth s;
     nKp := nKp s; vmin := vmin s; N16 := N16 s |}.

Definition with_nVgt (s : Integrator8580) (v : Z) : Integrator8580 :=
  {| opamp_rev := opamp_rev s; vx := vx s; vc := vc s; nVgt := v;
     n_dac := n_dac s; voice_DC_voltage := voice_DC_voltage s; Vth := Vth s;
     nKp := nKp s; vmin := vmin s; N16 := N16 s |}.

Definition with_state (s : Integrator8580) (x c : Z) : Integrator8580 :=
  {| opamp_rev := opamp_rev s; vx := x; vc := c; nVgt := nVgt s;
     n_dac := n_dac s; voice_DC_voltage := voice_DC_voltage s; Vth := Vth s;
     nKp := nKp s; vmin := vmin s; N16 := N16 s |}.

(** [tmp > -0.5 && tmp < 65535.5], the check both setters make. *)
Definition fits_ushort (tmp : float) : bool :=
  ((-0.5) <? tmp)%float && (tmp <? 65535.5)%float.

(** The value [setFc] checks and rounds: [(1 << 13) * nKp * wl]. *)
Definition setFc_tmp (s : Integrator8580) (wl : float) : float :=
  (of_int (Z.shiftl 1 13) * nKp s * wl)%float.

Definition setFc (s : Integrator8580) (wl : float) : result Integrator8580 :=
  let tmp := setFc_tmp s wl in
  if fits_ushort tmp then Ok (with_n_dac s (to_ushort (tmp + 0.5)%float))
  else Fail Assert_setFc_range.

(** The value [setV] checks and rounds: [N16 * (Vgt - vmin)]. *)
Definition setV_tmp (s : Integrator8580) (v : float) : float :=
  let Vg := (voice_DC_voltage s * v)%float in
  let Vgt := (Vg - Vth s)%float in
  (N16 s * (Vgt - vmin s))%float.

Definition setV (s : Integrator8580) (v : float) : result Integrator8580 :=
  if negb ((1.0 <? v)%float && (v <? 2.0)%float) then Fail Assert_setV_domain
  else
    let tmp := setV_tmp s v in
    if fits_ushort tmp then Ok (with_nVgt s (to_ushort (tmp + 0.5)%float))
    else Fail Assert_setV_range.

(** The constructor.  It gives [n_dac] no value: [n_dac0] is whatever the
    storage holds until [setFc] is called.  [nVgt] is assigned by the call
    [setV(1.5)] in the body. *)
Definition Integrator8580_new (n_dac0 nVgt0 : Z) (rev : list Z)
    (vdv vth nkp vmn n16 : float) : result Integrator8580 :=
  setV {| opamp_rev := rev; vx := 0; vc := 0; nVgt := nVgt0; n_dac := n_dac0;
          voice_DC_voltage := vdv; Vth := vth; nKp := nkp; vmin := vmn;
          N16 := n16 |} 1.5%float.

Definition solve (s : Integrator8580) (vi : Z) : result (Z * Integrator8580) :=
  if negb (vx s <? nVgt s) then Fail Assert_subthreshold
  else
    let Vgst := wrap_uint (wrap_int (nVgt s - vx s)) in
    let Vgdt :=
      if vi <? nVgt s then wrap_uint (wrap_int (nVgt s - vi)) else 0 in
    let Vgst_2 := wrap_uint (Vgst * Vgst) in
    let Vgdt_2 := wrap_uint (Vgdt * Vgdt) in
    let n_I_dac :=
      wrap_int (n_dac s * Z.shiftr (wrap_int (wrap_uint (Vgst_2 - Vgdt_2))) 15) in
    let vc' := wrap_int (vc s + n_I_dac) in
    let tmp := wrap_int (Z.shiftr vc' 15 + Z.shiftl 1 15) in
    if negb (tmp <? Z.shiftl 1 16) then Fail Assert_table_index
    else
      match lookupZ (opamp_rev s) tmp with
      | None => Fail Undefined_behaviour
      | Some vx' => Ok (wrap_int (vx' - Z.shiftr vc' 14), with_state s vx' vc')
      end.

(** [solve] called once per input value, stopping at the first failure. *)
Fixpoint solve_all (s : Integrator8580) (vis : list Z)
    : result (list Z * Integrator8580) :=
  match vis with
  | [] => Ok ([], s)
  | vi :: rest =>
      r ← solve s vi;
      r' ← solve_all (snd r) rest;
      Ok (fst r :: fst r', snd r')
  end.

(** The step as the specification words it, over unbounded integers:
    [Vgst = nVgt - vx], [Vgdt = max(0, nVgt - vi)],
    [vc += n_dac * ((Vgst*Vgst - Vgdt*Vgdt) >> 15)],
    [vx = opamp_rev[(vc >> 15) + 2^15]], result [vx - (vc >> 14)]. *)
Definition solve_spec (s : Integrator8580) (vi : Z)
    : option (Z * Integrator8580) :=
  let Vgst := nVgt s - vx s in
  let Vgdt := Z.max 0 (nVgt s - vi) in
  let vc' := vc s + n_dac s * Z.shiftr (Vgst * Vgst - Vgdt * Vgdt) 15 in
  match lookupZ (opamp_rev s) (Z.shiftr vc' 15 + 2 ^ 15) with
  | Some vx' => Some (vx' - Z.shiftr vc' 14, with_state s vx' vc')
  | None => None
  end.

(** Every entry of the reverse table lies strictly below [nVgt]. *)
Definition table_below (s : Integrator8580) : bool :=
  forallb (fun v => v <? nVgt s) (opamp_rev s).

(** ** Single-precision floats

    [float] is IEEE 754 binary32: the generic operations of [SpecFloat] at
    precision 24 and maximal exponent 128, rounding to nearest even. *)

Abbreviation f32 := spec_float.

Definition f32_add : f32 -> f32 -> f32 := SFadd 24 128.
Definition f32_sub : f32 -> f32 -> f32 := SFsub 24 128.
Definition f32_mul : f32 -> f32 -> f32 := SFmul 24 128.
Definition f32_div : f32 -> f32 -> f32 := SFdiv 24 128.
Definition f32_zero : f32 := S754_zero false.

(** [static_cast<float>(z)] for an [int] [z]. *)
Definition f32_of_int (z : Z) : f32 := binary_normalize 24 128 z 0 false.

(** [static_cast<float>(d)] for a [double] [d]. *)
Definition f32_of_double (d : float) : f32 :=
  match Prim2SF d with
  | S754_finite s m e => binary_round 24 128 s m e
  | x => x
  end.

(** ** SincResampler: the Bessel function and the convolution *)

(** Maximum error acceptable in I0 is 1e-6, or ~96 dB. *)
Definition I0E : float := 1e-6.
Definition BITS : Z := 16.

(** The [do ... while (u >= I0E * sum)] loop of [I0], run for at most
    [fuel] iterations. *)
Fixpoint I0_loop (fuel : nat) (halfx sum u n : float) : result float :=
  match fuel with
  | O => Fail Out_of_fuel
  | S fuel' =>
      let temp := (halfx / n)%float in
      let u := (u * (temp * temp))%float in
      let sum := (sum + u)%float in
      let n := (n + 1)%float in
      if (I0E * sum <=? u)%float then I0_loop fuel' halfx sum u n
      else Ok sum
  end.

Definition I0 (fuel : nat) (x : float) : result float :=
  I0_loop fuel (x / 2)%float 1%float 1%float 1%float.

(** [convolve(a, b, bLength)]: both pointers advance over their arrays;
    reading past the end of either is undefined. *)
Fixpoint convolve_loop (a b : list f32) (n : nat) (out : f32) {struct n}
    : result f32 :=
  match n with
  | O => Ok out
  | S n' =>
      match a, b with
      | x :: a', y :: b' => convolve_loop a' b' n' (f32_add out (f32_mul x y))
      | _, _ => Fail Undefined_behaviour
      end
  end.

Definition convolve (a b : list f32) (bLength : Z) : result f32 :=
  convolve_loop a b (Z.to_nat bLength) f32_zero.

(** [p + k] for a pointer [p] to the first element of an array. *)
Definition offset {A : Type} (l : list A) (k : Z) : result (list A) :=
  if (0 <=? k) && (k <=? Z.of_nat (length l)) then Ok (drop (Z.to_nat k) l)
  else Fail Undefined_behaviour.

Definition at_index {A : Type} (l : list A) (i : Z) : result A :=
  match lookupZ l i with
  | Some a => Ok a
  | None => Fail Undefined_behaviour
  end.

(** ** SincResampler: the object *)

(** [matrixf_t]: the rows of the coefficient matrix. *)
Abbreviation matrixf_t := (list (list spec_float)).

(** [FIR_CACHE], a [std::map<std::string, matrixf_t>]. *)
Abbreviation fir_cache_t := (gmap string (list (list spec_float))).

Record SincResampler : Type := {
  firTable : string;        (* matrixf_t*: the cache entry pointed to, by key *)
  sampleIndex : Z;
  firRES : Z;
  firN : Z;
  cyclesPerSample : Z;      (* const int *)
  sampleOffset : Z;
  outputValue : f32;
  sample : list f32         (* float sample[RINGSIZE * 2] *)
}.

Definition with_sample (r : SincResampler) (l : list f32) (i : Z) :=
  {| firTable := firTable r; sampleIndex := i; firRES := firRES r;
     firN := firN r; cyclesPerSample := cyclesPerSample r;
     sampleOffset := sampleOffset r; outputValue := outputValue r;
     sample := l |}.

Definition with_offset (r : SincResampler) (o : Z) :=
  {| firTable := firTable r; sampleIndex := sampleIndex r; firRES := firRES r;
     firN := firN r; cyclesPerSample := cyclesPerSample r;
     sampleOffset := o; outputValue := outputValue r; sample := sample r |}.

Definition with_output (r : SincResampler) (v : f32) :=
  {| firTable := firTable r; sampleIndex := sampleIndex r; firRES := firRES r;
     firN := firN r; cyclesPerSample := cyclesPerSample r;
     sampleOffset := sampleOffset r; outputValue := v; sample := sample r |}.

Section Resampler.

(** The size of the ring buffer, a constant of [SincResampler.h]. *)
Variable RINGSIZE : Z.

Definition fir (cache : fir_cache_t) (r : SincResampler) (subcycle : Z)
    : result f32 :=
  let firTableFirst := Z.shiftr (wrap_int (subcycle * firRES r)) 10 in
  let firTableOffset := Z.land (wrap_int (subcycle * firRES r)) 1023 in
  let sampleStart := wrap_int (sampleIndex r - firN r + RINGSIZE - 1) in
  match cache !! firTable r with
  | None => Fail Undefined_behaviour
  | Some table =>
      a1 ← offset (sample r) sampleStart;
      b1 ← at_index table firTableFirst;
      v1 ← convolve a1 b1 (firN r);
      let firTableFirst := wrap_int (firTableFirst + 1) in
      let wraps := firTableFirst =? firRES r in
      let firTableFirst := if wraps then 0 else firTableFirst in
      let sampleStart := if wraps then wrap_int (sampleStart + 1) else sampleStart in
      a2 ← offset (sample r) sampleStart;
      b2 ← at_index table firTableFirst;
      v2 ← convolve a2 b2 (firN r);
      Ok (f32_add v1
            (f32_div (f32_mul (f32_of_int firTableOffset) (f32_sub v2 v1))
                     (f32_of_int 1024)))
  end.

Definition input (cache : fir_cache_t) (r : SincResampler) (x : f32)
    : result (bool * SincResampler) :=
  let i := sampleIndex r in
  if negb ((0 <=? i) && (i + RINGSIZE <? Z.of_nat (length (sample r))))
  then Fail Undefined_behaviour
  else
    let buf := <[Z.to_nat i := x]> (<[Z.to_nat (i + RINGSIZE) := x]> (sample r)) in
    let r := with_sample r buf (Z.land (wrap_int (i + 1)) (RINGSIZE - 1)) in
    if sampleOffset r <? 1024 then
      v ← fir cache r (sampleOffset r);
      Ok (true,
          with_offset (with_output r v)
            (wrap_int (sampleOffset r + cyclesPerSample r - 1024)))
    else
      Ok (false, with_offset r (wrap_int (sampleOffset r - 1024))).

Definition reset (r : SincResampler) : SincResampler :=
  with_offset
    (with_sample r (replicate (length (sample r)) f32_zero) (sampleIndex r)) 0.

(** [input] called once per sample; the results [(ready, outputValue)] in
    order, stopping at the first failure. *)
Fixpoint input_all (cache : fir_cache_t) (r : SincResampler) (xs : list f32)
    : result (list (bool * f32) * SincResampler) :=
  match xs with
  | [] => Ok ([], r)
  | x :: rest =>
      o ← input cache r x;
      o' ← input_all cache (snd o) rest;
      Ok ((fst o, outputValue (snd o)) :: fst o', snd o')
  end.

(** ** SincResampler: the constructor *)

(** The C library functions the constructor calls and the formatting of a
    [double] by [operator<<]; [fuel] bounds every run of the loop of [I0]. *)
Variable log10 : float -> float.
Variable sin : float -> float.
Variable show_double : float -> string.
Variable fuel : nat.

Definition M_PI : float := 0x1.921fb54442d18p+1%float.

(** [ceil]: the least integer not below [d], as a double. *)
Definition ceil (d : float) : float :=
  match Prim2SF d with
  | S754_finite s m e =>
      if 0 <=? e then d
      else
        let c := - ((- (if s then Zneg m else Zpos m)) / 2 ^ (- e)) in
        if c =? 0 then (if s then neg_zero else zero) else of_int c
  | _ => d
  end.

(** 16 bits -> -96dB stopband attenuation. *)
Definition A : float := (-20 * log10 (1.0 / of_int (Z.shiftl 1 BITS)))%float.

Definition beta : float := (0.1102 * (A - 8.7))%float.

Definition transition_width (samplingFrequency highestAccurateFrequency : float)
    : float :=
  ((1 - 2 * highestAccurateFrequency / samplingFrequency) * M_PI * 2)%float.

(** The filter order [N], made even. *)
Definition filter_order (dw : float) : Z :=
  let N := to_int ((A - 7.95) / (2.285 * dw) + 0.5)%float in
  wrap_int (N + Z.land N 1).

(** The filter length [firN], made odd. *)
Definition filter_length (N : Z) (cyclesPerSampleD : float) : Z :=
  let firN := wrap_int (to_int (of_int N * cyclesPerSampleD)%float + 1) in
  Z.lor firN 1.

Definition filter_resolution (cyclesPerSampleD : float) : Z :=
  to_int (ceil (PrimFloat.sqrt (1.234 * of_int (Z.shiftl 1 BITS))
                 / cyclesPerSampleD)%float).

Definition fir_key (firN firRES : Z) (cyclesPerSampleD : float) : string :=
  pretty firN +:+ "," +:+ pretty firRES +:+ "," +:+ show_double cyclesPerSampleD.

(** One coefficient of the table, the entry in row [i] and column [j]. *)
Definition fir_coefficient (firN firRES : Z) (cyclesPerSampleD I0beta : float)
    (i j : Z) : result f32 :=
  let wc := M_PI in
  let scale := (wc / cyclesPerSampleD / M_PI)%float in
  let jPhase := (of_int i / of_int firRES + of_int (Z.quot firN 2))%float in
  let x := (of_int j - jPhase)%float in
  let xt := (x / of_int (Z.quot firN 2))%float in
  kaiserXt ←
    (if (PrimFloat.abs xt <? 1)%float
     then v ← I0 fuel (beta * PrimFloat.sqrt (1 - xt * xt))%float; Ok (v / I0beta)%float
     else Ok 0%float);
  let wt := (wc * x / cyclesPerSampleD)%float in
  let sincWt := if (1e-8 <=? PrimFloat.abs wt)%float then (sin wt / wt)%float else 1%float in
  Ok (f32_of_double (scale * sincWt * kaiserXt)%float).

(** The sinc tables: [firRES] rows of [firN] coefficients. *)
Definition fir_table (firN firRES : Z) (cyclesPerSampleD I0beta : float)
    : result matrixf_t :=
  mapM (fun i =>
          mapM (fir_coefficient firN firRES cyclesPerSampleD I0beta i)
               (seqZ 0 firN))
       (seqZ 0 firRES).

(** The constructor.  Its member initialisers set [sampleIndex],
    [cyclesPerSample], [sampleOffset] and [outputValue]; the array [sample]
    is given no value, so the new object holds in it whatever its storage
    held, [sample0].  The cache is threaded through: the result carries the
    cache after the call. *)
Definition SincResampler_new (sample0 : list f32) (cache : fir_cache_t)
    (clockFrequency samplingFrequency highestAccurateFrequency : float)
    : result (SincResampler * fir_cache_t) :=
  let cps := to_int (clockFrequency / samplingFrequency * 1024)%float in
  let dw := transition_width samplingFrequency highestAccurateFrequency in
  I0beta ← I0 fuel beta;
  let cyclesPerSampleD := (clockFrequency / samplingFrequency)%float in
  let N := filter_order dw in
  let firN := filter_length N cyclesPerSampleD in
  if negb (firN <? RINGSIZE) then Fail Assert_ring_overflow
  else
    let firRES := filter_resolution cyclesPerSampleD in
    let firKey := fir_key firN firRES cyclesPerSampleD in
    let new := {| firTable := firKey; sampleIndex := 0; firRES := firRES;
                  firN := firN; cyclesPerSample := cps; sampleOffset := 0;
                  outputValue := f32_zero; sample := sample0 |} in
    match cache !! firKey with
    | Some _ => Ok (new, cache)
    | None =>
        table ← fir_table firN firRES cyclesPerSampleD I0beta;
        Ok (new, <[firKey := table]> cache)
    end.

End Resampler.

(** * Properties *)

(** ** Machine integers: when wrap-around does nothing *)

Lemma wrap_int_id z : in_int z -> wrap_int z = z.
Proof.
  unfold in_int, wrap_int. intros H.
  rewrite Z.mod_small; lia.
Qed.

Lemma wrap_uint_id z : 0 <= z < 2 ^ 32 -> wrap_uint z = z.
Proof. unfold wrap_uint. intros H. apply Z.mod_small; lia. Qed.

Lemma wrap_int_uint z : wrap_int (wrap_uint z) = wrap_int z.
Proof.
  unfold wrap_int, wrap_uint.
  rewrite Zplus_mod_idemp_l. reflexivity.
Qed.

Lemma wrap_int_range z : in_int (wrap_int z).
Proof.
  unfold in_int, wrap_int.
  pose proof (Z.mod_pos_bound (z + 2 ^ 31) (2 ^ 32) ltac:(lia)). lia.
Qed.

Lemma lookupZ_Some {A} (l : list A) i :
  0 <= i < Z.of_nat (length l) -> exists a, lookupZ l i = Some a.
Proof.
  intros [H0 H1]. unfold lookupZ.
  destruct (Z.ltb_spec i 0); [lia|].
  destruct (lookup_lt_is_Some_2 l (Z.to_nat i)) as [a Ha]; [lia|].
  exists a. exact Ha.
Qed.

Lemma lookupZ_elem {A} (l : list A) i a : lookupZ l i = Some a -> a ∈ l.
Proof.
  unfold lookupZ. destruct (i <? 0); [discriminate|].
  apply list_elem_of_lookup_2.
Qed.

(** ** Integrator8580.solve *)

(** The fields hold values of their C++ types. *)
Definition well_typed (s : Integrator8580) : Prop :=
  in_int (vx s) /\ in_int (vc s) /\ in_ushort (nVgt s) /\ in_ushort (n_dac s) /\
  Forall in_ushort (opamp_rev s) /\ Z.of_nat (length (opamp_rev s)) = 65536.

(** No 32-bit operation of [solve] wraps around, and the index read from
    the table lies inside it. *)
Definition solve_no_wrap (s : Integrator8580) (vi : Z) : Prop :=
  let Vgst := nVgt s - vx s in
  let Vgdt := Z.max 0 (nVgt s - vi) in
  let d := Vgst * Vgst - Vgdt * Vgdt in
  let vc' := vc s + n_dac s * Z.shiftr d 15 in
  0 <= vx s /\ Vgdt < 2 ^ 16 /\ in_int d /\
  in_int (n_dac s * Z.shiftr d 15) /\ in_int vc' /\
  0 <= Z.shiftr vc' 15 + 2 ^ 15 < 2 ^ 16.

(** Example states: a table of 65536 equal entries, [vx = vc = 0]. *)
Definition flat_table : list Z := replicate (Z.to_nat 65536) 30000.
Definition flat_example (nVgt0 n_dac0 : Z) : Integrator8580 :=
  {| opamp_rev := flat_table; vx := 0; vc := 0; nVgt := nVgt0; n_dac := n_dac0;
     voice_DC_voltage := 4.76; Vth := 0.8; nKp := 1; vmin := 1; N16 := 1 |}.

Lemma shiftr_bounds z lo hi n :
  0 <= n -> lo * 2 ^ n <= z < hi * 2 ^ n -> lo <= Z.shiftr z n < hi.
Proof.
  intros Hn [H1 H2]. rewrite Z.shiftr_div_pow2 by lia.
  assert (0 < 2 ^ n) by (apply Z.pow_pos_nonneg; lia).
  split.
  - apply Z.div_le_lower_bound; lia.
  - apply Z.div_lt_upper_bound; lia.
Qed.

(** C1 (amended): with [vx < nVgt] at entry, values of the fields within
    their C++ types and no 32-bit wrap-around, [solve] computes exactly the
    step the specification describes: [Vgst = nVgt - vx],
    [Vgdt = max(0, nVgt - vi)], [vc += n_dac * ((Vgst^2 - Vgdt^2) >> 15)],
    [vx = opamp_rev[(vc >> 15) + 2^15]], and returns [vx - (vc >> 14)]. *)
Theorem solve_exact (s : Integrator8580) (vi : Z) :
  vx s < nVgt s -> well_typed s -> solve_no_wrap s vi ->
  exists r, solve_spec s vi = Some r /\ solve s vi = Ok r.
Proof.
  intros Hpre (Hvx & Hvc & HnV & Hnd & Htab0 & Hlen0) (H0 & Hgd & Hd & Hp & Hc & Hi).
  pose proof Htab0 as Htab. pose proof Hlen0 as Hlen.
  unfold solve_spec, solve.
  unfold in_ushort, in_int in *. clear Htab Hlen.
  rewrite (proj2 (Z.ltb_lt _ _) Hpre). cbn [negb].
  assert (EVgst : wrap_uint (wrap_int (nVgt s - vx s)) = nVgt s - vx s).
  { rewrite wrap_int_id by (unfold in_int; lia).
    apply wrap_uint_id. lia. }
  assert (EVgdt : (if vi <? nVgt s then wrap_uint (wrap_int (nVgt s - vi)) else 0)
                  = Z.max 0 (nVgt s - vi)).
  { destruct (Z.ltb_spec vi (nVgt s)).
    - rewrite Z.max_r in * by lia.
      rewrite wrap_int_id by (unfold in_int; lia).
      apply wrap_uint_id. lia.
    - rewrite Z.max_l by lia. reflexivity. }
  set (Vgst := nVgt s - vx s) in *.
  set (Vgdt := Z.max 0 (nVgt s - vi)) in *.
  set (d := Vgst * Vgst - Vgdt * Vgdt) in *.
  set (vc' := vc s + n_dac s * Z.shiftr d 15) in *.
  rewrite EVgst, EVgdt.
  assert (HVgst : 0 < Vgst < 2 ^ 16) by (subst Vgst; lia).
  assert (HVgdt : 0 <= Vgdt < 2 ^ 16) by (subst Vgdt; lia).
  rewrite (wrap_uint_id (Vgst * Vgst)) by nia.
  rewrite (wrap_uint_id (Vgdt * Vgdt)) by nia.
  rewrite wrap_int_uint.
  fold d. rewrite (wrap_int_id d) by (unfold in_int; lia).
  rewrite (wrap_int_id (n_dac s * Z.shiftr d 15)) by (unfold in_int; lia).
  fold vc'. rewrite (wrap_int_id vc') by (unfold in_int; lia).
  change (Z.shiftl 1 15) with (2 ^ 15). change (Z.shiftl 1 16) with (2 ^ 16).
  rewrite (wrap_int_id (Z.shiftr vc' 15 + 2 ^ 15)) by (unfold in_int; lia).
  rewrite (proj2 (Z.ltb_lt _ _) (proj2 Hi)). cbn [negb].
  destruct (lookupZ_Some (opamp_rev s) (Z.shiftr vc' 15 + 2 ^ 15)) as [x Hx].
  { rewrite Hlen0. lia. }
  rewrite Hx.
  assert (Hxr : in_ushort x).
  { apply lookupZ_elem in Hx. rewrite Forall_forall in Htab0. apply Htab0, Hx. }
  unfold in_ushort in Hxr.
  assert (Hs14 : - 2 ^ 17 <= Z.shiftr vc' 14 < 2 ^ 17).
  { apply shiftr_bounds; lia. }
  rewrite wrap_int_id by (unfold in_int; lia).
  eexists. split; reflexivity.
Qed.

Lemma lookupZ_flat i : 0 <= i < 65536 -> lookupZ flat_table i = Some 30000.
Proof.
  intros H. unfold lookupZ, flat_table.
  destruct (Z.ltb_spec i 0); [lia|].
  apply lookup_replicate_2. lia.
Qed.

(** Evaluates [solve] or [solve_spec] at a closed state over [flat_table]
    without unfolding the table: the index first, then the rest. *)
Ltac eval_on_flat_table :=
  cbn [flat_example with_state vx vc nVgt n_dac opamp_rev];
  match goal with
  | |- context [lookupZ flat_table ?i] =>
      rewrite (lookupZ_flat i)
        by (split; vm_compute; first [reflexivity | discriminate])
  end;
  cbv - [flat_table]; reflexivity.

Lemma flat_table_typed : Forall in_ushort flat_table.
Proof.
  unfold flat_table. apply Forall_replicate. unfold in_ushort. lia.
Qed.

Lemma flat_table_length : Z.of_nat (length flat_table) = 65536.
Proof. unfold flat_table. rewrite length_replicate. lia. Qed.

Lemma solve_exact_witness :
  exists r, solve_spec (flat_example 40000 3) 30000 = Some r /\
            solve (flat_example 40000 3) 30000 = Ok r.
Proof.
  apply solve_exact.
  - cbn [flat_example vx nVgt]. lia.
  - unfold well_typed; cbn [flat_example vx vc nVgt n_dac opamp_rev].
    unfold in_int, in_ushort.
    split; [lia|]. split; [lia|]. split; [lia|]. split; [lia|].
    split; [apply flat_table_typed|apply flat_table_length].
  - unfold solve_no_wrap, in_int; cbn [flat_example vx vc nVgt n_dac].
    repeat split; vm_compute; first [reflexivity | discriminate].
Defined.

(** C1 (as stated, refuted): at [nVgt = 50000], [vx = 0], [vi = 50000]
    the square of [Vgst] exceeds [2^31]; reinterpreted as an [int] the
    difference is negative, and [solve] subtracts 54779 from [vc] where the
    stated formula adds 76293. *)
Lemma solve_wraps_at_50000 :
  vx (flat_example 50000 1) < nVgt (flat_example 50000 1) /\
  solve (flat_example 50000 1) 50000
    = Ok (30004, with_state (flat_example 50000 1) 30000 (-54779)) /\
  solve_spec (flat_example 50000 1) 50000
    = Some (29996, with_state (flat_example 50000 1) 30000 76293).
Proof.
  split; [cbn [flat_example vx nVgt]; lia|]. split.
  - unfold solve. eval_on_flat_table.
  - unfold solve_spec. eval_on_flat_table.
Qed.

(** ** Integrator8580.solve: the sub-threshold assertion *)

Lemma solve_Ok_inv s vi vo s' :
  solve s vi = Ok (vo, s') ->
  vx s < nVgt s /\ vx s' ∈ opamp_rev s /\
  nVgt s' = nVgt s /\ opamp_rev s' = opamp_rev s /\ n_dac s' = n_dac s.
Proof.
  unfold solve.
  destruct (Z.ltb_spec (vx s) (nVgt s)); [|discriminate].
  cbn [negb]. cbv zeta.
  destruct (negb _); [discriminate|].
  destruct (lookupZ _ _) as [x|] eqn:Hx; [|discriminate].
  intros [= <- <-]. cbn. apply lookupZ_elem in Hx. auto.
Qed.

Lemma table_below_elem s x : table_below s = true -> x ∈ opamp_rev s -> x < nVgt s.
Proof.
  unfold table_below. rewrite forallb_forall. intros H Hx.
  apply list_elem_of_In in Hx. apply H in Hx. lia.
Qed.

Lemma solve_keeps_above s vi vo s' :
  table_below s = true -> solve s vi = Ok (vo, s') ->
  vx s' < nVgt s' /\ table_below s' = true.
Proof.
  intros Ht Hs. apply solve_Ok_inv in Hs as (_ & Hx & HV & HT & _).
  split.
  - rewrite HV. apply table_below_elem; assumption.
  - unfold table_below in *. rewrite HV, HT. exact Ht.
Qed.

Lemma solve_all_above s vis :
  table_below s = true -> vx s < nVgt s ->
  solve_all s vis <> Fail Assert_subthreshold.
Proof.
  revert s. induction vis as [|vi rest IH]; intros s Ht Hx; [discriminate|].
  cbn [solve_all].
  destruct (solve s vi) as [[vo s']|f] eqn:Hs; cbn.
  - destruct (solve_keeps_above _ _ _ _ Ht Hs) as [Hx' Ht'].
    specialize (IH s' Ht' Hx').
    destruct (solve_all s' rest) as [r'|f']; cbn; congruence.
  - unfold solve in Hs.
    destruct (Z.ltb_spec (vx s) (nVgt s)); [|lia].
    cbn [negb] in Hs. cbv zeta in Hs.
    destruct (negb _); [congruence|].
    destruct (lookupZ _ _); congruence.
Qed.

(** C9: when every entry of the reverse table lies strictly below [nVgt],
    a call of [solve] that returns leaves [vx < nVgt], so in any further
    sequence of calls the assertion at the entry of [solve] never fails. *)
Theorem solve_never_subthreshold (s : Integrator8580) (vi vo : Z)
    (s' : Integrator8580) (vis : list Z) :
  table_below s = true ->
  solve s vi = Ok (vo, s') ->
  vx s' < nVgt s' /\ solve_all s' vis <> Fail Assert_subthreshold.
Proof.
  intros Ht Hs.
  destruct (solve_keeps_above _ _ _ _ Ht Hs) as [Hx' Ht'].
  split; [exact Hx'|]. apply solve_all_above; assumption.
Qed.

Lemma table_below_flat n d : 30000 < n -> table_below (flat_example n d) = true.
Proof.
  intros H. unfold table_below. apply forallb_forall. intros x Hx.
  cbn [flat_example opamp_rev nVgt] in *. unfold flat_table in Hx.
  apply list_elem_of_In, elem_of_replicate in Hx as [-> _]. lia.
Qed.

Lemma solve_flat_example :
  solve (flat_example 40000 3) 50000
  = Ok (29992, with_state (flat_example 40000 3) 30000 146484).
Proof.
  unfold solve. eval_on_flat_table.
Qed.

Lemma solve_never_subthreshold_witness :
  vx (with_state (flat_example 40000 3) 30000 146484)
    < nVgt (with_state (flat_example 40000 3) 30000 146484) /\
  solve_all (with_state (flat_example 40000 3) 30000 146484) [0; 70000; 12345]
    <> Fail Assert_subthreshold.
Proof.
  exact (solve_never_subthreshold (flat_example 40000 3) 50000 29992
           (with_state (flat_example 40000 3) 30000 146484) [0; 70000; 12345]
           (table_below_flat 40000 3 ltac:(lia))
           solve_flat_example).
Defined.

(** ** Integrator8580.setFc and setV *)

(** The accepted range as the specification writes it, [[-0.5, 65535.5)]. *)
Definition in_stated_range (tmp : float) : bool :=
  ((-0.5) <=? tmp)%float && (tmp <? 65535.5)%float.

(** C5 (amended): [setFc] succeeds exactly when its computed value lies in
    the open interval (-0.5, 65535.5); [setV] succeeds exactly when moreover
    [1 < v < 2] holds.  A computed value equal to -0.5 is rejected. *)
Theorem setters_succeed_iff (s : Integrator8580) (x : float) :
  (is_Ok (setFc s x) <-> fits_ushort (setFc_tmp s x) = true) /\
  (is_Ok (setV s x) <->
     ((1.0 <? x)%float && (x <? 2.0)%float = true /\
      fits_ushort (setV_tmp s x) = true)) /\
  fits_ushort (-0.5)%float = false.
Proof.
  split; [|split].
  - unfold setFc. destruct (fits_ushort _); cbn; intuition discriminate.
  - unfold setV. destruct ((1.0 <? x)%float && (x <? 2.0)%float); cbn.
    + destruct (fits_ushort _); cbn; intuition discriminate.
    + intuition discriminate.
  - reflexivity.
Qed.

(** C5 (as stated, refuted): with [nKp = 1] and [wl = -2^-14] the value
    computed by [setFc] is exactly -0.5, inside the stated range
    [[-0.5, 65535.5)], and the assertion fails. *)
Lemma setFc_rejects_minus_half :
  setFc_tmp (flat_example 40000 3) (-0x1p-14)%float = (-0.5)%float /\
  in_stated_range (setFc_tmp (flat_example 40000 3) (-0x1p-14)%float) = true /\
  setFc (flat_example 40000 3) (-0x1p-14)%float = Fail Assert_setFc_range.
Proof.
  assert (E : setFc_tmp (flat_example 40000 3) (-0x1p-14)%float = (-0.5)%float)
    by (unfold setFc_tmp; cbn [flat_example nKp]; vm_compute; reflexivity).
  split; [exact E|]. split.
  - rewrite E. reflexivity.
  - unfold setFc. rewrite E. reflexivity.
Qed.

(** C10: a successful [setFc] changes the field [n_dac] and nothing else;
    a successful [setV] changes the field [nVgt] and nothing else. *)
Theorem setters_frame (s : Integrator8580) :
  (forall wl s', setFc s wl = Ok s' -> s' = with_n_dac s (n_dac s')) /\
  (forall v s', setV s v = Ok s' -> s' = with_nVgt s (nVgt s')).
Proof.
  split.
  - intros wl s'. unfold setFc.
    destruct (fits_ushort _); [|discriminate].
    intros [= <-]. reflexivity.
  - intros v s'. unfold setV.
    destruct (negb _); [discriminate|]. cbv zeta.
    destruct (fits_ushort _); [|discriminate].
    intros [= <-]. reflexivity.
Qed.

Lemma setFc_flat_example :
  setFc (flat_example 40000 3) 0.01%float = Ok (with_n_dac (flat_example 40000 3) 82).
Proof.
  unfold setFc, setFc_tmp. cbn [flat_example nKp].
  vm_compute (of_int _ * _ * _)%float.
  vm_compute (fits_ushort _). cbv iota.
  vm_compute (to_ushort _). reflexivity.
Qed.

Lemma setV_flat_example :
  setV (flat_example 40000 3) 1.5%float = Ok (with_nVgt (flat_example 40000 3) 5).
Proof.
  unfold setV, setV_tmp. cbn [flat_example voice_DC_voltage Vth vmin N16].
  vm_compute (negb _). cbv iota zeta.
  vm_compute (1 * _)%float.
  vm_compute (fits_ushort _). cbv iota.
  vm_compute (to_ushort _). reflexivity.
Qed.

Lemma setters_frame_witness :
  with_n_dac (flat_example 40000 3) 82
    = with_n_dac (flat_example 40000 3) (n_dac (with_n_dac (flat_example 40000 3) 82)) /\
  with_nVgt (flat_example 40000 3) 5
    = with_nVgt (flat_example 40000 3) (nVgt (with_nVgt (flat_example 40000 3) 5)).
Proof.
  split.
  - exact (proj1 (setters_frame (flat_example 40000 3)) _ _ setFc_flat_example).
  - exact (proj2 (setters_frame (flat_example 40000 3)) _ _ setV_flat_example).
Defined.

(** ** Rounding in binary64: what [binary_round_aux] returns *)

Lemma digits2_pos_bounds (p : positive) :
  2 ^ (Zpos (digits2_pos p) - 1) <= Zpos p < 2 ^ Zpos (digits2_pos p).
Proof.
  induction p as [p IH|p IH|]; cbn [digits2_pos].
  - rewrite Pos2Z.inj_succ.
    replace (Z.succ (Zpos (digits2_pos p)) - 1)
      with (Z.succ (Zpos (digits2_pos p) - 1)) by lia.
    rewrite !Z.pow_succ_r by lia. lia.
  - rewrite Pos2Z.inj_succ.
    replace (Z.succ (Zpos (digits2_pos p)) - 1)
      with (Z.succ (Zpos (digits2_pos p) - 1)) by lia.
    rewrite !Z.pow_succ_r by lia. lia.
  - cbn. lia.
Qed.

Lemma digits2_pos_le (p : positive) (k : Z) :
  Zpos p < 2 ^ k -> Zpos (digits2_pos p) <= k.
Proof.
  intros H. destruct (digits2_pos_bounds p) as [Hlo _].
  destruct (Z.le_gt_cases (Zpos (digits2_pos p)) k) as [|Hgt]; [assumption|].
  assert (0 <= k).
  { destruct (Z.le_gt_cases 0 k); [assumption|].
    rewrite Z.pow_neg_r in H by lia. lia. }
  assert (2 ^ k <= 2 ^ (Zpos (digits2_pos p) - 1))
    by (apply Z.pow_le_mono_r; lia).
  lia.
Qed.

Lemma digits2_pos_ge (p : positive) (k : Z) :
  2 ^ k <= Zpos p -> k < Zpos (digits2_pos p).
Proof.
  intros H. destruct (digits2_pos_bounds p) as [_ Hhi].
  destruct (Z.lt_ge_cases k (Zpos (digits2_pos p))) as [|Hge]; [assumption|].
  assert (2 ^ Zpos (digits2_pos p) <= 2 ^ k)
    by (apply Z.pow_le_mono_r; lia).
  lia.
Qed.

Lemma shr_1_m (r : shr_record) :
  0 <= shr_m r -> shr_m (shr_1 r) = shr_m r / 2.
Proof.
  destruct r as [m b s]. cbn [shr_m]. intros H.
  destruct m as [|p|p]; [reflexivity| |lia].
  destruct p as [p|p|]; cbn [shr_1 shr_m].
  - apply Z.div_unique with (r := 1); lia.
  - apply Z.div_unique with (r := 0); lia.
  - reflexivity.
Qed.

Lemma iter_shr_1_m (p : positive) (r : shr_record) :
  0 <= shr_m r -> shr_m (SpecFloat.iter_pos shr_1 p r) = shr_m r / 2 ^ Zpos p.
Proof.
  revert r. induction p as [p IH|p IH|]; intros r Hr; cbn [SpecFloat.iter_pos].
  - assert (H1 : 0 <= shr_m (shr_1 r)).
    { rewrite shr_1_m by assumption. apply Z.div_pos; lia. }
    assert (H2 : 0 <= shr_m (SpecFloat.iter_pos shr_1 p (shr_1 r))).
    { rewrite IH by assumption. apply Z.div_pos; [assumption|].
      apply Z.pow_pos_nonneg; lia. }
    rewrite IH, IH, shr_1_m by assumption.
    rewrite !Z.div_div by (try apply Z.pow_pos_nonneg; lia).
    f_equal. change (Zpos p~1) with (2 * Zpos p + 1).
    replace (2 * Zpos p + 1) with (1 + Zpos p + Zpos p) by lia.
    rewrite !Z.pow_add_r by lia. lia.
  - assert (H2 : 0 <= shr_m (SpecFloat.iter_pos shr_1 p r)).
    { rewrite IH by assumption. apply Z.div_pos; [assumption|].
      apply Z.pow_pos_nonneg; lia. }
    rewrite IH, IH by assumption.
    rewrite !Z.div_div by (try apply Z.pow_pos_nonneg; lia).
    f_equal. change (Zpos p~0) with (2 * Zpos p).
    replace (2 * Zpos p) with (Zpos p + Zpos p) by lia.
    rewrite !Z.pow_add_r by lia. lia.
  - rewrite shr_1_m by assumption. reflexivity.
Qed.



Lemma round_nearest_even_cases (m : Z) (l : location) :
  round_nearest_even m l = m \/ round_nearest_even m l = m + 1.
Proof.
  destruct l as [|[]]; cbn; auto. destruct (Z.even m); auto.
Qed.


Lemma iter_xO_value (m d : positive) :
  Zpos (Pos.iter xO m d) = Zpos m * 2 ^ Zpos d.
Proof.
  induction d as [|d IH] using Pos.peano_ind.
  - cbn. lia.
  - rewrite Pos.iter_succ, Pos2Z.inj_succ, Z.pow_succ_r by lia.
    change (Zpos (Pos.iter xO m d)~0) with (2 * Zpos (Pos.iter xO m d)).
    rewrite IH. lia.
Qed.

Lemma shl_align_value (m : positive) (e e' : Z) :
  e' <= e -> Zpos (fst (shl_align m e e')) = Zpos m * 2 ^ (e - e').
Proof.
  intros H. unfold shl_align.
  destruct (e' - e) as [|d|d] eqn:E; cbn [fst].
  - replace (e - e') with 0 by lia. lia.
  - lia.
  - rewrite iter_xO_value. f_equal. f_equal. lia.
Qed.

Lemma shl_align_id (m : positive) (e e' : Z) :
  e <= e' -> shl_align m e e' = (m, e).
Proof.
  intros H. unfold shl_align.
  destruct (e' - e) as [|d|d] eqn:E; [reflexivity|reflexivity|lia].
Qed.

(** ** The loop counter of [I0]

    The counter [n] starts at 1 and is incremented by 1.0 in every
    iteration: it runs through the integers up to [2^53], where it stays
    ([2^53 + 1] rounds back to [2^53]). *)


Lemma finite_valid (x : float) (s : bool) (m : positive) (e : Z) :
  Prim2SF x = S754_finite s m e ->
  Z.max (Zpos (digits2_pos m) + e - 53) (-1074) = e /\ e <= 971.
Proof.
  intros E. pose proof (Prim2SF_valid x) as V. rewrite E in V.
  unfold valid_binary, bounded, canonical_mantissa in V.
  apply andb_true_iff in V as [V1 V2].
  apply Z.eqb_eq in V1. apply Z.leb_le in V2.
  change (SpecFloat.fexp prec emax (Zpos (digits2_pos m) + e))
    with (Z.max (Zpos (digits2_pos m) + e - 53) (-1074)) in V1.
  change (emax - prec) with 971 in V2. auto.
Qed.


(** ** A term that has overflowed stays infinite *)






(** ** I0: termination *)







(** ** SincResampler: convolution *)

Lemma convolve_loop_Ok (a b : list f32) (n : nat) (out : f32) :
  (n <= length a)%nat -> (n <= length b)%nat ->
  exists v, convolve_loop a b n out = Ok v.
Proof.
  revert a b out. induction n as [|n IH]; intros a b out Ha Hb; cbn.
  - eexists; reflexivity.
  - destruct a as [|x a]; [cbn in Ha; lia|].
    destruct b as [|y b]; [cbn in Hb; lia|].
    apply IH; cbn in *; lia.
Qed.

(** Only the first [n] elements of the window are read. *)
Lemma convolve_loop_take (a a' b : list f32) (n : nat) (out : f32) :
  take n a = take n a' ->
  convolve_loop a b n out = convolve_loop a' b n out.
Proof.
  revert a a' b out. induction n as [|n IH]; intros a a' b out H; cbn.
  - reflexivity.
  - destruct a as [|x a], a' as [|x' a']; cbn in H; try discriminate.
    + reflexivity.
    + injection H as -> H. destruct b as [|y b]; [reflexivity|].
      apply IH, H.
Qed.

Lemma convolve_Ok (a b : list f32) (n : Z) :
  n <= Z.of_nat (length a) -> n <= Z.of_nat (length b) ->
  exists v, convolve a b n = Ok v.
Proof.
  intros Ha Hb. unfold convolve. apply convolve_loop_Ok; lia.
Qed.

Section ResamplerFacts.

Variable RINGSIZE : Z.

(** The object is in a state the constructor and [input] can have left it
    in: the cached table has [firRES] rows of [firN] coefficients, the
    filter fits the ring buffer, the array has [2 * RINGSIZE] elements and
    the write cursor lies inside the first half. *)
Definition resampler_wf (cache : fir_cache_t) (r : SincResampler) : Prop :=
  exists table : matrixf_t,
    cache !! firTable r = Some table /\
    Z.of_nat (length table) = firRES r /\
    Forall (fun row : list f32 => Z.of_nat (length row) = firN r) table /\
    0 < firRES r < 2 ^ 20 /\
    0 < firN r < RINGSIZE /\
    (exists k, 0 <= k <= 29 /\ RINGSIZE = 2 ^ k) /\
    Z.of_nat (length (sample r)) = 2 * RINGSIZE /\
    0 <= sampleIndex r < RINGSIZE.

(** The phase accumulator is not negative and adding [cyclesPerSample] to
    it does not leave the range of [int]. *)
Definition phase_in_range (r : SincResampler) : Prop :=
  0 <= sampleOffset r /\ 0 <= cyclesPerSample r /\
  sampleOffset r + cyclesPerSample r < 2 ^ 31.

(** [fir] with the machine arithmetic resolved: the two rows, the two
    windows and the interpolation weight. *)
Definition fir_rows (table : matrixf_t) (buf : list f32)
    (start firN firRES subcycle : Z) : result f32 :=
  let row := subcycle * firRES / 1024 in
  let wraps := row + 1 =? firRES in
  b1 ← at_index table row;
  v1 ← convolve (drop (Z.to_nat start) buf) b1 firN;
  b2 ← at_index table (if wraps then 0 else row + 1);
  v2 ← convolve (drop (Z.to_nat (if wraps then start + 1 else start)) buf) b2 firN;
  Ok (f32_add v1
        (f32_div (f32_mul (f32_of_int ((subcycle * firRES) mod 1024))
                          (f32_sub v2 v1))
                 (f32_of_int 1024))).

Lemma land_1023 (z : Z) : Z.land z 1023 = z mod 1024.
Proof. change 1023 with (Z.ones 10). rewrite Z.land_ones by lia. reflexivity. Qed.

Lemma offset_Ok {A} (l : list A) (k : Z) :
  0 <= k <= Z.of_nat (length l) -> offset l k = Ok (drop (Z.to_nat k) l).
Proof.
  intros H. unfold offset.
  destruct (Z.leb_spec 0 k); [|lia].
  destruct (Z.leb_spec k (Z.of_nat (length l))); [|lia]. reflexivity.
Qed.

Lemma fir_resolved (cache : fir_cache_t) (r : SincResampler) (table : matrixf_t)
    (subcycle : Z) :
  cache !! firTable r = Some table ->
  0 < firRES r < 2 ^ 20 -> 0 < firN r < RINGSIZE -> RINGSIZE <= 2 ^ 29 ->
  Z.of_nat (length (sample r)) = 2 * RINGSIZE ->
  0 <= sampleIndex r < RINGSIZE ->
  0 <= subcycle < 1024 ->
  fir RINGSIZE cache r subcycle
  = fir_rows table (sample r) (sampleIndex r - firN r + RINGSIZE - 1)
      (firN r) (firRES r) subcycle.
Proof.
  intros Ht Hres HN HR Hlen Hi Hs. unfold fir, fir_rows. rewrite Ht.
  set (start := sampleIndex r - firN r + RINGSIZE - 1).
  assert (Hstart : 0 <= start /\ start + 1 <= 2 * RINGSIZE) by (subst start; lia).
  clearbody start.
  rewrite (wrap_int_id start) by (unfold in_int; lia).
  rewrite (wrap_int_id (start + 1)) by (unfold in_int; lia).
  assert (Hp : 0 <= subcycle * firRES r < 2 ^ 30) by nia.
  rewrite (wrap_int_id (subcycle * firRES r)) by (unfold in_int; lia).
  rewrite land_1023, Z.shiftr_div_pow2 by lia. change (2 ^ 10) with 1024.
  assert (Hrow : 0 <= subcycle * firRES r / 1024 < firRES r).
  { split; [apply Z.div_pos; lia|].
    apply Z.div_lt_upper_bound; nia. }
  set (row := subcycle * firRES r / 1024) in *. clearbody row. clear Hp.
  rewrite (wrap_int_id (row + 1)) by (unfold in_int; lia).
  rewrite (offset_Ok _ start) by lia. cbn [mbind result_bind].
  destruct (at_index table row) as [b1|]; cbn [mbind result_bind];
    [|reflexivity].
  destruct (convolve (drop (Z.to_nat start) (sample r)) b1 (firN r)) as [v1|];
    cbn [mbind result_bind]; [|reflexivity].
  destruct (row + 1 =? firRES r); rewrite offset_Ok by lia; reflexivity.
Qed.

Lemma at_index_Ok {A} (l : list A) (i : Z) :
  0 <= i < Z.of_nat (length l) -> exists a, at_index l i = Ok a /\ a ∈ l.
Proof.
  intros H. unfold at_index.
  destruct (lookupZ_Some l i H) as [a Ha]. rewrite Ha.
  exists a. split; [reflexivity|]. eapply lookupZ_elem, Ha.
Qed.

Lemma fir_rows_Ok (table : matrixf_t) (buf : list f32)
    (start firN firRES subcycle : Z) :
  Z.of_nat (length table) = firRES ->
  Forall (fun row : list f32 => Z.of_nat (length row) = firN) table ->
  0 < firRES -> 0 <= start -> start + 1 + firN <= Z.of_nat (length buf) ->
  0 <= subcycle < 1024 ->
  exists v, fir_rows table buf start firN firRES subcycle = Ok v.
Proof.
  intros Hrows Hcols Hres Hstart Hend Hs. unfold fir_rows.
  assert (Hrow : 0 <= subcycle * firRES / 1024 < firRES).
  { split; [apply Z.div_pos; nia|].
    apply Z.div_lt_upper_bound; nia. }
  set (row := subcycle * firRES / 1024) in *. clearbody row.
  rewrite Forall_forall in Hcols.
  destruct (at_index_Ok table row ltac:(lia)) as (b1 & -> & Hb1).
  cbn [mbind result_bind].
  destruct (convolve_Ok (drop (Z.to_nat start) buf) b1 firN) as [v1 ->].
  { rewrite length_drop. lia. }
  { specialize (Hcols _ Hb1). lia. }
  cbn [mbind result_bind].
  destruct (at_index_Ok table (if row + 1 =? firRES then 0 else row + 1))
    as (b2 & -> & Hb2).
  { destruct (Z.eqb_spec (row + 1) firRES); lia. }
  cbn [mbind result_bind].
  destruct (convolve_Ok
              (drop (Z.to_nat (if row + 1 =? firRES then start + 1 else start)) buf)
              b2 firN) as [v2 ->].
  { rewrite length_drop. destruct (row + 1 =? firRES); lia. }
  { specialize (Hcols _ Hb2). lia. }
  cbn [mbind result_bind]. eexists; reflexivity.
Qed.

Lemma pow2_le_29 (k : Z) : 0 <= k <= 29 -> 0 < 2 ^ k <= 2 ^ 29.
Proof.
  intros H. split; [apply Z.pow_pos_nonneg; lia|].
  apply Z.pow_le_mono_r; lia.
Qed.

Lemma land_ring (z k : Z) : 0 <= k -> Z.land z (2 ^ k - 1) = z mod 2 ^ k.
Proof.
  intros H. rewrite <- Z.land_ones by assumption.
  rewrite Z.ones_equiv. reflexivity.
Qed.

(** The state after the two writes and the advance of the cursor. *)
Definition written (r : SincResampler) (x : f32) : SincResampler :=
  with_sample r
    (<[Z.to_nat (sampleIndex r) := x]>
       (<[Z.to_nat (sampleIndex r + RINGSIZE) := x]> (sample r)))
    ((sampleIndex r + 1) mod RINGSIZE).

Lemma written_wf (cache : fir_cache_t) (r : SincResampler) (x : f32) :
  resampler_wf cache r -> resampler_wf cache (written r x).
Proof.
  intros (table & Ht & Hrows & Hcols & Hres & HN & (k & Hk & HR) & Hlen & Hi).
  exists table. cbn [written with_sample firTable firRES firN sample sampleIndex].
  rewrite !length_insert.
  repeat split; try assumption; try lia.
  - exists k. auto.
  - apply Z.mod_pos_bound. lia.
  - apply Z.mod_pos_bound. lia.
Qed.

(** [input] with the machine arithmetic resolved. *)
Lemma input_resolved (cache : fir_cache_t) (r : SincResampler) (x : f32)
    (table : matrixf_t) :
  resampler_wf cache r -> phase_in_range r ->
  cache !! firTable r = Some table ->
  input RINGSIZE cache r x
  = if sampleOffset r <? 1024 then
      v ← fir_rows table (sample (written r x))
             (sampleIndex (written r x) - firN r + RINGSIZE - 1)
             (firN r) (firRES r) (sampleOffset r);
      Ok (true, with_offset (with_output (written r x) v)
                  (sampleOffset r + cyclesPerSample r - 1024))
    else Ok (false, with_offset (written r x) (sampleOffset r - 1024)).
Proof.
  intros Hwf (Ho & Hc & Hoc) Ht.
  pose proof (written_wf cache r x Hwf) as Hwf'.
  destruct Hwf as (table0 & Ht0 & Hrows & Hcols & Hres & HN & (k & Hk & HR) & Hlen & Hi).
  pose proof (pow2_le_29 k Hk) as HR29. rewrite <- HR in HR29.
  unfold input.
  destruct (Z.leb_spec 0 (sampleIndex r)); [|lia].
  destruct (Z.ltb_spec (sampleIndex r + RINGSIZE) (Z.of_nat (length (sample r))));
    [|lia].
  cbn [andb negb]. cbv zeta.
  rewrite (wrap_int_id (sampleIndex r + 1)) by (unfold in_int; lia).
  assert (Eland : Z.land (sampleIndex r + 1) (RINGSIZE - 1)
                  = (sampleIndex r + 1) mod RINGSIZE)
    by (rewrite HR; apply land_ring; lia).
  rewrite Eland.
  fold (written r x).
  cbn [sampleOffset with_sample cyclesPerSample].
  change (sampleOffset (written r x)) with (sampleOffset r).
  change (cyclesPerSample (written r x)) with (cyclesPerSample r).
  destruct (Z.ltb_spec (sampleOffset r) 1024).
  - rewrite (fir_resolved cache (written r x) table).
    + rewrite wrap_int_id by (unfold in_int; lia). reflexivity.
    + exact Ht.
    + exact Hres.
    + exact HN.
    + lia.
    + destruct Hwf' as (_ & _ & _ & _ & _ & _ & _ & H' & _). exact H'.
    + destruct Hwf' as (_ & _ & _ & _ & _ & _ & _ & _ & H'). exact H'.
    + change (sampleOffset (written r x)) with (sampleOffset r). lia.
  - rewrite wrap_int_id by (unfold in_int; lia). reflexivity.
Qed.


End ResamplerFacts.

(** ** SincResampler: what [fir] reads from the ring buffer *)

Section RingBuffer.

Variable RINGSIZE : Z.

(** [buf[p]] *)
Definition rd (buf : list f32) (p : Z) : option f32 := buf !! Z.to_nat p.

(** Both halves of the array hold the same samples. *)
Definition mirrored (buf : list f32) : Prop :=
  forall i, 0 <= i < RINGSIZE -> rd buf i = rd buf (i + RINGSIZE).

(** The sample written [d] calls ago, for [d] up to the size of the ring,
    is the same in both objects. *)
Definition same_history (r1 r2 : SincResampler) : Prop :=
  forall d, 1 <= d <= RINGSIZE ->
    rd (sample r1) ((sampleIndex r1 - d) mod RINGSIZE)
    = rd (sample r2) ((sampleIndex r2 - d) mod RINGSIZE).

Definition same_config (r1 r2 : SincResampler) : Prop :=
  firTable r1 = firTable r2 /\ firRES r1 = firRES r2 /\ firN r1 = firN r2 /\
  cyclesPerSample r1 = cyclesPerSample r2.

(** Two objects that no sequence of calls of [input] tells apart. *)
Definition alike (r1 r2 : SincResampler) : Prop :=
  same_config r1 r2 /\ sampleOffset r1 = sampleOffset r2 /\
  (sampleOffset r1 < 1024 \/ outputValue r1 = outputValue r2) /\
  mirrored (sample r1) /\ mirrored (sample r2) /\ same_history r1 r2.

Lemma mirrored_mod (buf : list f32) (p : Z) :
  0 < RINGSIZE -> mirrored buf -> 0 <= p < 2 * RINGSIZE ->
  rd buf p = rd buf (p mod RINGSIZE).
Proof.
  intros HR Hm Hp. destruct (Z.lt_ge_cases p RINGSIZE).
  - rewrite Z.mod_small by lia. reflexivity.
  - replace (p mod RINGSIZE) with (p - RINGSIZE).
    + rewrite (Hm (p - RINGSIZE)) by lia. f_equal. lia.
    + apply Z.mod_unique with (q := 1); lia.
Qed.

Lemma window_alike (r1 r2 : SincResampler) (delta : Z) :
  0 < firN r1 < RINGSIZE -> firN r1 = firN r2 ->
  0 <= sampleIndex r1 < RINGSIZE -> 0 <= sampleIndex r2 < RINGSIZE ->
  mirrored (sample r1) -> mirrored (sample r2) -> same_history r1 r2 ->
  0 <= delta <= 1 ->
  take (Z.to_nat (firN r1))
    (drop (Z.to_nat (sampleIndex r1 - firN r1 + RINGSIZE - 1 + delta)) (sample r1))
  = take (Z.to_nat (firN r2))
      (drop (Z.to_nat (sampleIndex r2 - firN r2 + RINGSIZE - 1 + delta)) (sample r2)).
Proof.
  intros HN EN H1 H2 Hm1 Hm2 Hh Hd. rewrite <- EN.
  apply list_eq. intros j.
  destruct (Nat.lt_ge_cases j (Z.to_nat (firN r1))) as [Hj|Hj].
  2:{ rewrite !lookup_take_ge by lia. reflexivity. }
  rewrite !lookup_take_lt, !lookup_drop by lia.
  set (d := firN r1 + 1 - delta - Z.of_nat j).
  assert (Hdr : 1 <= d <= RINGSIZE) by (subst d; lia).
  specialize (Hh d Hdr).
  assert (E : forall s, 0 <= s < RINGSIZE ->
            (Z.to_nat (s - firN r1 + RINGSIZE - 1 + delta) + j)%nat
            = Z.to_nat (s - d + RINGSIZE)) by (intros; subst d; lia).
  rewrite (E _ H1), (E _ H2).
  change (rd (sample r1) (sampleIndex r1 - d + RINGSIZE)
          = rd (sample r2) (sampleIndex r2 - d + RINGSIZE)).
  rewrite (mirrored_mod (sample r1)), (mirrored_mod (sample r2))
    by (assumption || lia).
  replace ((sampleIndex r1 - d + RINGSIZE) mod RINGSIZE)
    with ((sampleIndex r1 - d) mod RINGSIZE)
    by (rewrite <- (Z_mod_plus_full (sampleIndex r1 - d) 1 RINGSIZE); f_equal; lia).
  replace ((sampleIndex r2 - d + RINGSIZE) mod RINGSIZE)
    with ((sampleIndex r2 - d) mod RINGSIZE)
    by (rewrite <- (Z_mod_plus_full (sampleIndex r2 - d) 1 RINGSIZE); f_equal; lia).
  exact Hh.
Qed.

Lemma convolve_window (a a' b : list f32) (n : Z) :
  take (Z.to_nat n) a = take (Z.to_nat n) a' -> convolve a b n = convolve a' b n.
Proof. unfold convolve. apply convolve_loop_take. Qed.

(** [fir] returns the same value in two objects that are alike, whatever
    their write cursors are. *)
Lemma fir_alike (cache : fir_cache_t) (r1 r2 : SincResampler) (subcycle : Z) :
  resampler_wf RINGSIZE cache r1 -> resampler_wf RINGSIZE cache r2 ->
  same_config r1 r2 ->
  mirrored (sample r1) -> mirrored (sample r2) -> same_history r1 r2 ->
  fir RINGSIZE cache r1 subcycle = fir RINGSIZE cache r2 subcycle.
Proof.
  intros (t1 & Ht1 & _ & _ & _ & HN1 & (k & Hk & HR) & Hlen1 & Hi1)
         (t2 & Ht2 & _ & _ & _ & HN2 & _ & Hlen2 & Hi2)
         (ET & ER & EN & EC) Hm1 Hm2 Hh.
  pose proof (pow2_le_29 k Hk) as HR29. rewrite <- HR in HR29.
  pose proof (window_alike r1 r2 0 HN1 EN Hi1 Hi2 Hm1 Hm2 Hh ltac:(lia)) as W0.
  pose proof (window_alike r1 r2 1 HN1 EN Hi1 Hi2 Hm1 Hm2 Hh ltac:(lia)) as W1.
  rewrite !Z.add_0_r in W0.
  unfold fir. rewrite <- ET, Ht1, <- ER.
  set (s1 := sampleIndex r1 - firN r1 + RINGSIZE - 1) in *.
  set (s2 := sampleIndex r2 - firN r2 + RINGSIZE - 1) in *.
  assert (Hs1 : 0 <= s1 /\ s1 + 1 <= 2 * RINGSIZE) by (subst s1; lia).
  assert (Hs2 : 0 <= s2 /\ s2 + 1 <= 2 * RINGSIZE) by (subst s2; lia).
  clearbody s1 s2.
  rewrite (wrap_int_id s1), (wrap_int_id s2) by (unfold in_int; lia).
  rewrite (wrap_int_id (s1 + 1)), (wrap_int_id (s2 + 1)) by (unfold in_int; lia).
  set (row := Z.shiftr (wrap_int (subcycle * firRES r1)) 10).
  set (row' := wrap_int (row + 1)).
  rewrite (offset_Ok _ s1), (offset_Ok _ s2) by lia.
  cbn [mbind result_bind].
  destruct (at_index t1 row) as [b1|]; cbn [mbind result_bind]; [|reflexivity].
  rewrite <- EN in W0, W1 |- *.
  rewrite (convolve_window _ _ b1 _ W0).
  destruct (convolve (drop (Z.to_nat s2) (sample r2)) b1 (firN r1)) as [v1|];
    cbn [mbind result_bind]; [|reflexivity].
  destruct (row' =? firRES r1).
  - rewrite (offset_Ok _ (s1 + 1)), (offset_Ok _ (s2 + 1)) by lia.
    cbn [mbind result_bind].
    destruct (at_index t1 0) as [b2|]; cbn [mbind result_bind]; [|reflexivity].
    rewrite (convolve_window _ _ b2 _ W1). reflexivity.
  - rewrite (offset_Ok _ s1), (offset_Ok _ s2) by lia.
    cbn [mbind result_bind].
    destruct (at_index t1 row') as [b2|]; cbn [mbind result_bind]; [|reflexivity].
    rewrite (convolve_window _ _ b2 _ W0). reflexivity.
Qed.

(** What the array holds after the two writes of [input]. *)
Lemma rd_written (r : SincResampler) (x : f32) (p : Z) :
  0 <= sampleIndex r < RINGSIZE ->
  Z.of_nat (length (sample r)) = 2 * RINGSIZE -> 0 <= p ->
  rd (sample (written RINGSIZE r x)) p
  = if decide (p = sampleIndex r \/ p = sampleIndex r + RINGSIZE)
    then Some x else rd (sample r) p.
Proof.
  intros Hi Hlen Hp. unfold rd, written. cbn [sample with_sample].
  rewrite !list_lookup_insert, !length_insert.
  repeat case_decide; try reflexivity; exfalso; lia.
Qed.

Lemma written_mirrored (r : SincResampler) (x : f32) :
  0 <= sampleIndex r < RINGSIZE ->
  Z.of_nat (length (sample r)) = 2 * RINGSIZE ->
  mirrored (sample r) -> mirrored (sample (written RINGSIZE r x)).
Proof.
  intros Hi Hlen Hm i Hir.
  rewrite !rd_written by lia.
  repeat case_decide; try reflexivity; try (exfalso; lia).
  apply Hm, Hir.
Qed.

Lemma mod_pred_cases (s d : Z) :
  0 <= s < RINGSIZE -> 0 <= d <= RINGSIZE ->
  (s - d) mod RINGSIZE = if decide (d <= s) then s - d
                         else if decide (d = RINGSIZE) then s
                         else s - d + RINGSIZE.
Proof.
  intros Hs Hd. repeat case_decide.
  - apply Z.mod_small. lia.
  - subst d. symmetry. apply Z.mod_unique with (q := -1); lia.
  - symmetry. apply Z.mod_unique with (q := -1); lia.
Qed.

Lemma written_history (r1 r2 : SincResampler) (x : f32) :
  0 <= sampleIndex r1 < RINGSIZE -> 0 <= sampleIndex r2 < RINGSIZE ->
  Z.of_nat (length (sample r1)) = 2 * RINGSIZE ->
  Z.of_nat (length (sample r2)) = 2 * RINGSIZE ->
  same_history r1 r2 ->
  same_history (written RINGSIZE r1 x) (written RINGSIZE r2 x).
Proof.
  intros H1 H2 Hl1 Hl2 Hh d Hd.
  assert (HR : 0 < RINGSIZE) by lia.
  assert (E : forall r, 0 <= sampleIndex r < RINGSIZE ->
            (sampleIndex (written RINGSIZE r x) - d) mod RINGSIZE
            = (sampleIndex r - (d - 1)) mod RINGSIZE).
  { intros r Hr. cbn [written with_sample sampleIndex].
    rewrite Zminus_mod_idemp_l. f_equal. lia. }
  rewrite (E r1 H1), (E r2 H2).
  pose proof (Z.mod_pos_bound (sampleIndex r1 - (d - 1)) RINGSIZE HR).
  pose proof (Z.mod_pos_bound (sampleIndex r2 - (d - 1)) RINGSIZE HR).
  rewrite !rd_written by lia.
  pose proof (mod_pred_cases (sampleIndex r1) (d - 1) H1 ltac:(lia)) as M1.
  pose proof (mod_pred_cases (sampleIndex r2) (d - 1) H2 ltac:(lia)) as M2.
  destruct (Z.eq_dec d 1) as [->|Hd1].
  - change (1 - 1) with 0 in *. rewrite !Z.sub_0_r in *.
    rewrite !Z.mod_small by lia.
    rewrite !decide_True by (left; reflexivity). reflexivity.
  - rewrite !decide_False.
    + apply Hh. lia.
    + intros [Q|Q]; rewrite M2 in Q; repeat case_decide; lia.
    + intros [Q|Q]; rewrite M1 in Q; repeat case_decide; lia.
Qed.

(** Two objects that are alike stay alike over a call of [input] and the
    call returns the same (ready, output) in both. *)
Lemma input_alike (cache : fir_cache_t) (r1 r2 : SincResampler) (x : f32) :
  resampler_wf RINGSIZE cache r1 -> resampler_wf RINGSIZE cache r2 ->
  alike r1 r2 ->
  match input RINGSIZE cache r1 x, input RINGSIZE cache r2 x with
  | Ok (b1, r1'), Ok (b2, r2') =>
      b1 = b2 /\ outputValue r1' = outputValue r2' /\
      resampler_wf RINGSIZE cache r1' /\ resampler_wf RINGSIZE cache r2' /\
      alike r1' r2'
  | Fail f1, Fail f2 => f1 = f2
  | _, _ => False
  end.
Proof.
  intros Hwf1 Hwf2 (Hcfg & Ho & Hout & Hm1 & Hm2 & Hh).
  pose proof (written_wf RINGSIZE cache r1 x Hwf1) as Hw1.
  pose proof (written_wf RINGSIZE cache r2 x Hwf2) as Hw2.
  destruct Hwf1 as (t1 & Ht1 & _ & _ & _ & HN1 & (k & Hk & HR) & Hlen1 & Hi1).
  destruct Hwf2 as (t2 & Ht2 & _ & _ & _ & HN2 & _ & Hlen2 & Hi2).
  pose proof (pow2_le_29 k Hk) as HR29. rewrite <- HR in HR29.
  assert (Eland : forall i, Z.land i (RINGSIZE - 1) = i mod RINGSIZE)
    by (intros i; rewrite HR; apply land_ring; lia).
  pose proof (written_mirrored r1 x Hi1 Hlen1 Hm1) as Hm1'.
  pose proof (written_mirrored r2 x Hi2 Hlen2 Hm2) as Hm2'.
  pose proof (written_history r1 r2 x Hi1 Hi2 Hlen1 Hlen2 Hh) as Hh'.
  assert (Hcfg' : same_config (written RINGSIZE r1 x) (written RINGSIZE r2 x))
    by exact Hcfg.
  pose proof (fir_alike cache _ _ (sampleOffset r1) Hw1 Hw2 Hcfg' Hm1' Hm2' Hh')
    as Hfir.
  destruct Hcfg as (ET & ER & EN & EC).
  unfold input.
  destruct (Z.leb_spec 0 (sampleIndex r1)); [|lia].
  destruct (Z.leb_spec 0 (sampleIndex r2)); [|lia].
  destruct (Z.ltb_spec (sampleIndex r1 + RINGSIZE) (Z.of_nat (length (sample r1))));
    [|lia].
  destruct (Z.ltb_spec (sampleIndex r2 + RINGSIZE) (Z.of_nat (length (sample r2))));
    [|lia].
  cbn [andb negb]. cbv zeta.
  rewrite !(wrap_int_id (_ + 1)) by (unfold in_int; lia).
  rewrite !Eland.
  fold (written RINGSIZE r1 x). fold (written RINGSIZE r2 x).
  change (sampleOffset (written RINGSIZE r1 x)) with (sampleOffset r1).
  change (sampleOffset (written RINGSIZE r2 x)) with (sampleOffset r2).
  change (cyclesPerSample (written RINGSIZE r1 x)) with (cyclesPerSample r1).
  change (cyclesPerSample (written RINGSIZE r2 x)) with (cyclesPerSample r2).
  rewrite <- Ho, <- EC.
  destruct (Z.ltb_spec (sampleOffset r1) 1024) as [Hlt|Hge].
  - rewrite Hfir.
    destruct (fir RINGSIZE cache (written RINGSIZE r2 x) (sampleOffset r1))
      as [v|f]; cbn [mbind result_bind]; [|reflexivity].
    split; [reflexivity|]. split; [reflexivity|].
    split; [exact Hw1|]. split; [exact Hw2|].
    split; [exact Hcfg'|]. split; [reflexivity|].
    split; [right; reflexivity|]. auto.
  - split; [reflexivity|].
    assert (Eo : outputValue r1 = outputValue r2) by (destruct Hout; [lia|assumption]).
    split; [exact Eo|].
    split; [exact Hw1|]. split; [exact Hw2|].
    split; [exact Hcfg'|]. split; [reflexivity|].
    split; [right; exact Eo|]. auto.
Qed.

(** The sequence of results of [input_all], without the final state. *)
Definition outputs (o : result (list (bool * f32) * SincResampler))
    : result (list (bool * f32)) :=
  match o with
  | Ok (l, _) => Ok l
  | Fail f => Fail f
  end.

Lemma input_all_alike (cache : fir_cache_t) (xs : list f32)
    (r1 r2 : SincResampler) :
  resampler_wf RINGSIZE cache r1 -> resampler_wf RINGSIZE cache r2 ->
  alike r1 r2 ->
  outputs (input_all RINGSIZE cache r1 xs)
  = outputs (input_all RINGSIZE cache r2 xs).
Proof.
  revert r1 r2. induction xs as [|x xs IH]; intros r1 r2 Hwf1 Hwf2 Ha.
  - reflexivity.
  - cbn [input_all].
    pose proof (input_alike cache r1 r2 x Hwf1 Hwf2 Ha) as Hstep.
    destruct (input RINGSIZE cache r1 x) as [[b1 r1']|f1],
             (input RINGSIZE cache r2 x) as [[b2 r2']|f2];
      cbn [mbind result_bind fst snd]; try contradiction.
    + destruct Hstep as (-> & Eo & Hw1 & Hw2 & Ha').
      specialize (IH r1' r2' Hw1 Hw2 Ha'). rewrite Eo.
      destruct (input_all RINGSIZE cache r1' xs) as [[l1 ?]|g1],
               (input_all RINGSIZE cache r2' xs) as [[l2 ?]|g2];
        cbn in IH |- *; congruence.
    + cbn. congruence.
Qed.

Lemma rd_replicate (n : nat) (p : Z) :
  0 <= p < Z.of_nat n -> rd (replicate n f32_zero) p = Some f32_zero.
Proof. intros H. unfold rd. apply lookup_replicate_2. lia. Qed.

Lemma reset_wf (cache : fir_cache_t) (r : SincResampler) :
  resampler_wf RINGSIZE cache r -> resampler_wf RINGSIZE cache (reset r).
Proof.
  intros (t & Ht & Hrows & Hcols & Hres & HN & HR & Hlen & Hi).
  exists t. cbn [reset with_offset with_sample firTable firRES firN sample sampleIndex].
  rewrite length_replicate. tauto.
Qed.

(** After [reset], what [input] returns does not depend on the object that
    was reset: neither on its write cursor nor on anything it was fed. *)
Theorem reset_forgets (cache : fir_cache_t) (r1 r2 : SincResampler)
    (xs : list f32) :
  resampler_wf RINGSIZE cache r1 -> resampler_wf RINGSIZE cache r2 ->
  same_config r1 r2 ->
  outputs (input_all RINGSIZE cache (reset r1) xs)
  = outputs (input_all RINGSIZE cache (reset r2) xs).
Proof.
  intros Hwf1 Hwf2 Hcfg.
  apply input_all_alike; try apply reset_wf; try assumption.
  destruct Hwf1 as (_ & _ & _ & _ & _ & _ & (k & Hk & HR) & Hlen1 & Hi1).
  destruct Hwf2 as (_ & _ & _ & _ & _ & _ & _ & Hlen2 & Hi2).
  pose proof (pow2_le_29 k Hk) as HR29. rewrite <- HR in HR29.
  split; [exact Hcfg|]. split; [reflexivity|].
  split; [left; cbn; lia|].
  unfold mirrored, same_history.
  cbn [reset with_offset with_sample sample sampleIndex].
  split; [|split].
  - intros i Hir. rewrite !rd_replicate by lia. reflexivity.
  - intros i Hir. rewrite !rd_replicate by lia. reflexivity.
  - intros d Hd.
    pose proof (Z.mod_pos_bound (sampleIndex r1 - d) RINGSIZE ltac:(lia)).
    pose proof (Z.mod_pos_bound (sampleIndex r2 - d) RINGSIZE ltac:(lia)).
    rewrite !rd_replicate by lia. reflexivity.
Qed.

End RingBuffer.

(** ** SincResampler: the constructor *)

Lemma mapM_Ok_length {A B} (f : A -> result B) (l : list A) (k : list B) :
  mapM f l = Ok k -> length k = length l.
Proof.
  revert k. induction l as [|x l IH]; intros k; cbn.
  - intros [= <-]. reflexivity.
  - destruct (f x) as [y|]; cbn; [|discriminate].
    destruct (mapM f l) as [k'|]; cbn; [|discriminate].
    intros [= <-]. cbn. f_equal. apply IH. reflexivity.
Qed.

Lemma mapM_Ok_Forall {A B} (f : A -> result B) (P : B -> Prop) (l : list A)
    (k : list B) :
  (forall x y, f x = Ok y -> P y) -> mapM f l = Ok k -> Forall P k.
Proof.
  intros Hf. revert k. induction l as [|x l IH]; intros k; cbn.
  - intros [= <-]. constructor.
  - destruct (f x) as [y|] eqn:Ey; cbn; [|discriminate].
    destruct (mapM f l) as [k'|]; cbn; [|discriminate].
    intros [= <-]. constructor; [eapply Hf, Ey|]. apply IH. reflexivity.
Qed.






(** A NaN in the first element of the window makes the convolution NaN. *)
Lemma convolve_loop_nan (a b : list f32) (n : nat) :
  (n <= length a)%nat -> (n <= length b)%nat ->
  convolve_loop a b n S754_nan = Ok S754_nan.
Proof.
  revert a b. induction n as [|n IH]; intros a b Ha Hb; cbn; [reflexivity|].
  destruct a as [|x a]; [cbn in Ha; lia|].
  destruct b as [|y b]; [cbn in Hb; lia|].
  apply IH; cbn in *; lia.
Qed.

Lemma convolve_nan_head (a b : list f32) (n : Z) :
  0 < n -> n <= Z.of_nat (length a) -> n <= Z.of_nat (length b) ->
  a !! 0%nat = Some S754_nan -> convolve a b n = Ok S754_nan.
Proof.
  intros Hn Ha Hb H0. unfold convolve.
  destruct (Z.to_nat n) as [|m] eqn:En; [lia|].
  destruct a as [|x a]; [discriminate|]. injection H0 as ->.
  destruct b as [|y b]; [cbn in Hb; lia|].
  cbn [convolve_loop].
  replace (f32_add f32_zero (f32_mul S754_nan y)) with S754_nan
    by (destruct y; reflexivity).
  apply convolve_loop_nan; cbn in *; lia.
Qed.

Section Construction.

Variable RINGSIZE : Z.
Variable log10 : float -> float.
Variable sin : float -> float.
Variable show_double : float -> string.
Variable fuel : nat.

Local Abbreviation new := (SincResampler_new RINGSIZE log10 sin show_double fuel).
Local Abbreviation table_of := (fir_table log10 sin fuel).

(** The values the constructor derives from its arguments. *)
Definition design_N (samplingFrequency highestAccurateFrequency : float) : Z :=
  filter_order log10 (transition_width samplingFrequency highestAccurateFrequency).

Definition design_firN (clockFrequency samplingFrequency
    highestAccurateFrequency : float) : Z :=
  filter_length (design_N samplingFrequency highestAccurateFrequency)
    (clockFrequency / samplingFrequency)%float.

Definition design_firRES (clockFrequency samplingFrequency : float) : Z :=
  filter_resolution (clockFrequency / samplingFrequency)%float.

Definition design_key (clockFrequency samplingFrequency
    highestAccurateFrequency : float) : string :=
  fir_key show_double
    (design_firN clockFrequency samplingFrequency highestAccurateFrequency)
    (design_firRES clockFrequency samplingFrequency)
    (clockFrequency / samplingFrequency)%float.

(** The object the member initialisers and the design give. *)
Definition designed (sample0 : list f32) (a b c : float) : SincResampler :=
  {| firTable := design_key a b c; sampleIndex := 0;
     firRES := design_firRES a b; firN := design_firN a b c;
     cyclesPerSample := to_int (a / b * 1024)%float; sampleOffset := 0;
     outputValue := f32_zero; sample := sample0 |}.

(** The constructor in terms of the designed values. *)
Lemma new_unfold (sample0 : list f32) (cache : fir_cache_t) (a b c : float) :
  new sample0 cache a b c
  = (I0beta ← I0 fuel (beta log10);
     if negb (design_firN a b c <? RINGSIZE) then Fail Assert_ring_overflow
     else
       match cache !! design_key a b c with
       | Some _ => Ok (designed sample0 a b c, cache)
       | None =>
           table ← table_of (design_firN a b c) (design_firRES a b)
                     (a / b)%float I0beta;
           Ok (designed sample0 a b c, <[design_key a b c := table]> cache)
       end).
Proof.
  unfold SincResampler_new, designed, design_key, design_firN, design_firRES,
    design_N.
  cbv zeta. reflexivity.
Qed.

Lemma new_Ok_inv (sample0 : list f32) (cache : fir_cache_t) (a b c : float)
    (r : SincResampler) (cache' : fir_cache_t) :
  new sample0 cache a b c = Ok (r, cache') ->
  r = designed sample0 a b c /\
  design_firN a b c < RINGSIZE /\
  exists I0beta, I0 fuel (beta log10) = Ok I0beta /\
    ((exists T, cache !! design_key a b c = Some T /\ cache' = cache) \/
     (exists T, cache !! design_key a b c = None /\
        table_of (design_firN a b c) (design_firRES a b) (a / b)%float I0beta
          = Ok T /\
        cache' = <[design_key a b c := T]> cache)).
Proof.
  rewrite new_unfold.
  destruct (I0 fuel (beta log10)) as [I0beta|]; cbn [mbind result_bind];
    [|discriminate].
  destruct (Z.ltb_spec (design_firN a b c) RINGSIZE) as [Hlt|]; cbn [negb];
    [|discriminate].
  destruct (cache !! design_key a b c) as [T|] eqn:Ec.
  - intros [= <- <-]. split; [reflexivity|]. split; [exact Hlt|].
    exists I0beta. split; [reflexivity|]. left. exists T. auto.
  - destruct (table_of _ _ _ _) as [T|] eqn:ET; cbn [mbind result_bind];
      [|discriminate].
    intros [= <- <-]. split; [reflexivity|]. split; [exact Hlt|].
    exists I0beta. split; [reflexivity|]. right. exists T. auto.
Qed.


Lemma table_of_shape (firN firRES : Z) (cpsD I0beta : float) (T : matrixf_t) :
  table_of firN firRES cpsD I0beta = Ok T ->
  length T = Z.to_nat firRES /\
  Forall (fun row : list f32 => length row = Z.to_nat firN) T.
Proof.
  intros H. split.
  - apply mapM_Ok_length in H. rewrite H, length_seqZ. reflexivity.
  - revert H. unfold fir_table.
    apply (mapM_Ok_Forall _ (fun row : list f32 => length row = Z.to_nat firN)).
    intros i row Hrow. apply mapM_Ok_length in Hrow.
    rewrite Hrow, length_seqZ. reflexivity.
Qed.

(** C4: the coefficient matrix is a function of [firN], [firRES] and
    [cyclesPerSampleD] alone; a second construction with the same three
    frequencies finds the entry the first one left in the cache, refers to
    the same entry, and leaves the cache as it was. *)
Theorem construction_shares_table (sample0 sample0' : list f32)
    (cache : fir_cache_t) (a b c : float) (r1 : SincResampler)
    (cache1 : fir_cache_t) :
  new sample0 cache a b c = Ok (r1, cache1) ->
  exists (T : matrixf_t) (r2 : SincResampler),
    cache1 !! firTable r1 = Some T /\
    new sample0' cache1 a b c = Ok (r2, cache1) /\
    firTable r2 = firTable r1 /\
    (cache !! firTable r1 = None ->
     exists I0beta, I0 fuel (beta log10) = Ok I0beta /\
       table_of (firN r1) (firRES r1) (a / b)%float I0beta = Ok T).
Proof.
  intros H. destruct (new_Ok_inv _ _ _ _ _ _ _ H) as (-> & Hlt & I0beta & HI & Hc).
  cbn [designed firTable firN firRES].
  assert (Hhit : forall T, cache1 !! design_key a b c = Some T ->
            new sample0' cache1 a b c = Ok (designed sample0' a b c, cache1)).
  { intros T HT. rewrite new_unfold, HI. cbn [mbind result_bind].
    rewrite (proj2 (Z.ltb_lt _ _) Hlt). cbn [negb]. rewrite HT. reflexivity. }
  destruct Hc as [(T & HT & ->)|(T & HT & Htab & ->)].
  - exists T, (designed sample0' a b c).
    split; [exact HT|]. split; [apply (Hhit T HT)|]. split; [reflexivity|].
    intros Hn. congruence.
  - exists T, (designed sample0' a b c).
    assert (HT' : <[design_key a b c := T]> cache !! design_key a b c = Some T)
      by apply lookup_insert_eq.
    split; [exact HT'|]. split; [apply (Hhit T HT')|]. split; [reflexivity|].
    intros _. exists I0beta. auto.
Qed.


Lemma new_wf (k : Z) (sample0 : list f32) (a b c : float) (r : SincResampler)
    (cache' : fir_cache_t) :
  0 <= k <= 29 -> RINGSIZE = 2 ^ k ->
  new sample0 ∅ a b c = Ok (r, cache') ->
  Z.of_nat (length sample0) = 2 * RINGSIZE ->
  0 < firN r -> 0 < firRES r < 2 ^ 20 ->
  resampler_wf RINGSIZE cache' r.
Proof.
  intros Hk HR H Hlen HN Hres.
  destruct (new_Ok_inv _ _ _ _ _ _ _ H) as (-> & Hlt & I0beta & HI & Hc).
  cbn [designed firN firRES] in HN, Hres.
  destruct Hc as [(T & HT & _)|(T & _ & Htab & ->)].
  { rewrite lookup_empty in HT. discriminate. }
  destruct (table_of_shape _ _ _ _ _ Htab) as [Hrows Hcols].
  exists T. cbn [designed firTable firRES firN sample sampleIndex].
  split; [apply lookup_insert_eq|].
  split; [lia|].
  split; [eapply Forall_impl; [exact Hcols|]; cbn; intros; lia|].
  split; [exact Hres|]. split; [lia|].
  split; [exists k; auto|]. split; [exact Hlen|].
  pose proof (pow2_le_29 k Hk). lia.
Qed.

(** C7 (the code at the failing input): the first call of [input] on a new
    object whose array holds NaN bit patterns.  The window of [fir] lies
    wholly in elements that were never written, and the output is a NaN
    whatever the input, a zero included. *)
Theorem fresh_object_reads_storage (k : Z) (a b c : float) (r : SincResampler)
    (cache' : fir_cache_t) (x : f32) :
  0 <= k <= 29 -> RINGSIZE = 2 ^ k ->
  new (replicate (Z.to_nat (2 * RINGSIZE)) S754_nan) ∅ a b c = Ok (r, cache') ->
  0 < firN r -> 0 < firRES r < 2 ^ 20 ->
  exists r', input RINGSIZE cache' r x = Ok (true, r') /\
             outputValue r' = S754_nan.
Proof.
  intros Hk HR H HN Hres.
  pose proof (pow2_le_29 k Hk) as HR29. rewrite <- HR in HR29.
  assert (Hwf : resampler_wf RINGSIZE cache' r).
  { eapply new_wf; try eassumption. rewrite length_replicate. lia. }
  pose proof (written_wf RINGSIZE cache' r x Hwf) as Hw.
  destruct (new_Ok_inv _ _ _ _ _ _ _ H) as (Er & Hlt & _).
  assert (Hi : sampleIndex r = 0) by (rewrite Er; reflexivity).
  assert (Ho : sampleOffset r = 0) by (rewrite Er; reflexivity).
  assert (Hs : sample r = replicate (Z.to_nat (2 * RINGSIZE)) S754_nan)
    by (rewrite Er; reflexivity).
  assert (HNR : firN r < RINGSIZE) by (rewrite Er; exact Hlt).
  assert (Hlen : Z.of_nat (length (sample r)) = 2 * RINGSIZE)
    by (rewrite Hs, length_replicate; lia).
  destruct Hw as (T & HT & Hrows & Hcols & _ & _ & _ & Hlen' & Hi').
  change (firTable (written RINGSIZE r x)) with (firTable r) in HT.
  change (firRES (written RINGSIZE r x)) with (firRES r) in Hrows.
  change (firN (written RINGSIZE r x)) with (firN r) in Hcols.
  assert (Hfir : fir RINGSIZE cache' (written RINGSIZE r x) 0 = Ok S754_nan).
  { assert (HNw : 0 < firN r < RINGSIZE) by lia.
    rewrite (fir_resolved RINGSIZE cache' (written RINGSIZE r x) T 0 HT Hres HNw
               (proj2 HR29) Hlen' Hi' ltac:(lia)).
    unfold fir_rows.
    change (firN (written RINGSIZE r x)) with (firN r).
    change (firRES (written RINGSIZE r x)) with (firRES r).
    change (0 * firRES r / 1024) with 0. cbv zeta.
    assert (Ei : sampleIndex (written RINGSIZE r x) = 1).
    { cbn [written with_sample sampleIndex]. rewrite Hi.
      apply Z.mod_small. lia. }
    rewrite Ei.
    destruct (at_index_Ok T 0 ltac:(lia)) as (b1 & -> & Hb1).
    cbn [mbind result_bind].
    rewrite Forall_forall in Hcols.
    rewrite (convolve_nan_head _ b1 (firN r)).
    2: lia.
    2:{ rewrite length_drop. lia. }
    2:{ rewrite (Hcols _ Hb1). lia. }
    2:{ rewrite lookup_drop, Nat.add_0_r.
        change (rd (sample (written RINGSIZE r x)) (1 - firN r + RINGSIZE - 1)
                = Some S754_nan).
        rewrite rd_written by lia. rewrite Hi.
        rewrite decide_False by lia.
        unfold rd. rewrite Hs. apply lookup_replicate_2. lia. }
    cbn [mbind result_bind].
    destruct (at_index_Ok T (if 0 + 1 =? firRES r then 0 else 0 + 1))
      as (b2 & -> & Hb2).
    { destruct (Z.eqb_spec (0 + 1) (firRES r)); lia. }
    cbn [mbind result_bind].
    destruct (convolve_Ok
                (drop (Z.to_nat (if 0 + 1 =? firRES r
                                 then 1 - firN r + RINGSIZE - 1 + 1
                                 else 1 - firN r + RINGSIZE - 1))
                      (sample (written RINGSIZE r x)))
                b2 (firN r)) as [v2 ->].
    { rewrite length_drop. destruct (0 + 1 =? firRES r); lia. }
    { rewrite (Hcols _ Hb2). lia. }
    reflexivity. }
  unfold input. rewrite Hi.
  destruct (Z.ltb_spec (0 + RINGSIZE) (Z.of_nat (length (sample r)))); [|lia].
  cbn [Z.leb Z.compare andb negb]. cbv zeta.
  rewrite (wrap_int_id (0 + 1)) by (unfold in_int; lia).
  assert (Eland : Z.land (0 + 1) (RINGSIZE - 1) = (0 + 1) mod RINGSIZE)
    by (rewrite HR; apply land_ring; lia).
  rewrite Eland, <- Hi. fold (written RINGSIZE r x).
  change (sampleOffset (written RINGSIZE r x)) with (sampleOffset r).
  rewrite Ho. cbn [Z.ltb Z.compare]. rewrite Hfir. cbn [mbind result_bind].
  eexists. split; reflexivity.
Qed.

End Construction.

(** ** SincResampler: a zero stream into a zeroed ring buffer *)

(** A coefficient that is a number: neither an infinity nor a NaN. *)
Definition is_number (c : f32) : Prop :=
  match c with
  | S754_zero _ | S754_finite _ _ _ => True
  | _ => False
  end.

Lemma convolve_loop_zero (a b : list f32) (n : nat) :
  (n <= length b)%nat -> Forall is_number b ->
  (forall j, (j < n)%nat -> a !! j = Some f32_zero) ->
  convolve_loop a b n f32_zero = Ok f32_zero.
Proof.
  revert a b. induction n as [|n IH]; intros a b Hb Hnum Ha;
    cbn [convolve_loop]; [reflexivity|].
  destruct a as [|x a]; [specialize (Ha 0%nat ltac:(lia)); discriminate|].
  destruct b as [|y b]; [cbn in Hb; lia|].
  pose proof (Ha 0%nat ltac:(lia)) as H0. injection H0 as ->.
  apply Forall_cons in Hnum as [Hy Hnum].
  replace (f32_add f32_zero (f32_mul f32_zero y)) with f32_zero
    by (destruct y as [[|]|[|]| |[|] m e]; try contradiction; reflexivity).
  apply IH; [cbn in Hb; lia|exact Hnum|].
  intros j Hj. apply (Ha (S j)). lia.
Qed.

(** The interpolation of two zero sums is zero for every weight. *)
Definition interpolation_is_zero (off : Z) : bool :=
  match f32_add f32_zero
          (f32_div (f32_mul (f32_of_int off) (f32_sub f32_zero f32_zero))
                   (f32_of_int 1024)) with
  | S754_zero false => true
  | _ => false
  end.

Lemma interpolation_zero (off : Z) :
  0 <= off < 1024 ->
  f32_add f32_zero
    (f32_div (f32_mul (f32_of_int off) (f32_sub f32_zero f32_zero))
             (f32_of_int 1024)) = f32_zero.
Proof.
  intros H.
  assert (A : forallb interpolation_is_zero (seqZ 0 1024) = true)
    by (vm_compute; reflexivity).
  rewrite forallb_forall in A.
  specialize (A off). unfold interpolation_is_zero in A.
  destruct (f32_add _ _) as [[|]| | |]; try reflexivity;
    (discriminate A; apply list_elem_of_In, elem_of_seqZ; lia).
Qed.

Section ZeroStream.

Variable RINGSIZE : Z.

(** The number of calls that returned [ready]. *)
Fixpoint readies (outs : list (bool * f32)) : Z :=
  match outs with
  | [] => 0
  | (true, _) :: rest => 1 + readies rest
  | (false, _) :: rest => readies rest
  end.

Definition zeroed (r : SincResampler) : Prop :=
  sample r = replicate (Z.to_nat (2 * RINGSIZE)) f32_zero.

Definition numbers (cache : fir_cache_t) (r : SincResampler) : Prop :=
  forall T, cache !! firTable r = Some T -> Forall (Forall is_number) T.

Lemma fir_zeroed (cache : fir_cache_t) (r : SincResampler) (subcycle : Z) :
  resampler_wf RINGSIZE cache r -> zeroed r -> numbers cache r ->
  0 <= subcycle < 1024 ->
  fir RINGSIZE cache r subcycle = Ok f32_zero.
Proof.
  intros (T & HT & Hrows & Hcols & Hres & HN & (k & Hk & HR) & Hlen & Hi) Hz Hnum Hs.
  pose proof (pow2_le_29 k Hk) as HR29. rewrite <- HR in HR29.
  specialize (Hnum T HT).
  rewrite (fir_resolved RINGSIZE cache r T subcycle) by (assumption || lia).
  unfold fir_rows.
  assert (Hrow : 0 <= subcycle * firRES r / 1024 < firRES r).
  { split; [apply Z.div_pos; nia|]. apply Z.div_lt_upper_bound; nia. }
  set (row := subcycle * firRES r / 1024) in *. clearbody row.
  rewrite Forall_forall in Hcols, Hnum.
  assert (Hconv : forall start b, 0 <= start -> start + firN r <= 2 * RINGSIZE ->
            b ∈ T ->
            convolve (drop (Z.to_nat start) (sample r)) b (firN r) = Ok f32_zero).
  { intros start b H0 H1 Hb. unfold convolve.
    apply convolve_loop_zero.
    - rewrite <- (Hcols b Hb). lia.
    - apply Hnum, Hb.
    - intros j Hj. rewrite lookup_drop, Hz. apply lookup_replicate_2. lia. }
  destruct (at_index_Ok T row ltac:(lia)) as (b1 & -> & Hb1).
  cbn [mbind result_bind].
  rewrite (Hconv _ b1) by (assumption || lia). cbn [mbind result_bind].
  destruct (at_index_Ok T (if row + 1 =? firRES r then 0 else row + 1))
    as (b2 & -> & Hb2).
  { destruct (Z.eqb_spec (row + 1) (firRES r)); lia. }
  cbn [mbind result_bind].
  rewrite (Hconv _ b2) by (try assumption; destruct (row + 1 =? firRES r); lia).
  cbn [mbind result_bind].
  rewrite interpolation_zero; [reflexivity|].
  apply Z.mod_pos_bound. lia.
Qed.

Lemma written_zeroed (r : SincResampler) :
  0 <= sampleIndex r < RINGSIZE -> zeroed r ->
  zeroed (written RINGSIZE r f32_zero).
Proof.
  intros Hi Hz. unfold zeroed, written in *. cbn [sample with_sample].
  rewrite Hz.
  rewrite (list_insert_id _ (Z.to_nat (sampleIndex r + RINGSIZE)))
    by (apply lookup_replicate_2; lia).
  apply list_insert_id, lookup_replicate_2. lia.
Qed.

(** A zero stream fed to an object whose ring buffer holds zeros and whose
    coefficients are numbers: every output is exactly +0.0, and after [n]
    calls the number [k] of outputs satisfies
    [1024 * n <= k * cyclesPerSample < 1024 * n + cyclesPerSample]. *)
Lemma zero_stream_from (cache : fir_cache_t) (n : nat) (r : SincResampler) :
  resampler_wf RINGSIZE cache r -> zeroed r -> numbers cache r ->
  1024 <= cyclesPerSample r < 2 ^ 30 ->
  0 <= sampleOffset r < cyclesPerSample r ->
  exists outs r',
    input_all RINGSIZE cache r (replicate n f32_zero) = Ok (outs, r') /\
    Forall (fun o : bool * f32 => fst o = true -> snd o = f32_zero) outs /\
    sampleOffset r'
      = sampleOffset r + readies outs * cyclesPerSample r - 1024 * Z.of_nat n /\
    0 <= sampleOffset r' < cyclesPerSample r.
Proof.
  revert r. induction n as [|n IH]; intros r Hwf Hz Hnum Hc Ho.
  - exists [], r. cbn. split; [reflexivity|]. split; [constructor|]. lia.
  - cbn [replicate input_all].
    assert (Hph : phase_in_range r) by (unfold phase_in_range; lia).
    pose proof (written_wf RINGSIZE cache r f32_zero Hwf) as Hww.
    assert (Hi : 0 <= sampleIndex r < RINGSIZE)
      by (destruct Hwf as (? & ? & ? & ? & ? & ? & ? & ? & ?); assumption).
    pose proof (written_zeroed r Hi Hz) as Hwz.
    set (w := written RINGSIZE r f32_zero) in *.
    assert (Hstep : exists (b : bool) (v : f32),
              input RINGSIZE cache r f32_zero
              = Ok (b, with_offset (with_output w v)
                         (sampleOffset r
                          + (if b then cyclesPerSample r else 0) - 1024)) /\
              b = (sampleOffset r <? 1024) /\ (b = true -> v = f32_zero)).
    { destruct Hwf as (T & HT & Hwf').
      rewrite (input_resolved RINGSIZE cache r f32_zero T)
        by (try exists T; tauto).
      fold w.
      destruct (Z.ltb_spec (sampleOffset r) 1024) as [Hlt|Hge].
      - destruct Hww as (T' & HT' & Hrows & Hcols & Hres & HN & (k & Hk & HR) & Hlen & Hi').
        assert (T' = T) as -> by (change (firTable w) with (firTable r) in HT'; congruence).
        pose proof (pow2_le_29 k Hk) as HR29. rewrite <- HR in HR29.
        pose proof (fir_resolved RINGSIZE cache w T (sampleOffset r) HT' Hres HN
                      (proj2 HR29) Hlen Hi' ltac:(lia)) as Ef.
        change (firN w) with (firN r) in Ef. change (firRES w) with (firRES r) in Ef.
        rewrite <- Ef.
        rewrite (fir_zeroed cache w (sampleOffset r)).
        + cbn [mbind result_bind]. exists true, f32_zero. auto.
        + exists T. repeat split; try assumption; try lia. exists k; auto.
        + exact Hwz.
        + exact Hnum.
        + lia.
      - exists false, (outputValue r). split; [|split; [reflexivity|discriminate]].
        f_equal. f_equal. rewrite Z.add_0_r. reflexivity. }
    destruct Hstep as (b & v & -> & Eb & Hv).
    cbn [mbind result_bind fst snd].
    set (r1 := with_offset (with_output w v) _).
    assert (Ho1 : 0 <= sampleOffset r1 < cyclesPerSample r).
    { subst r1. cbn [sampleOffset with_offset]. subst b.
      destruct (Z.ltb_spec (sampleOffset r) 1024); lia. }
    destruct (IH r1) as (outs & r' & -> & Houts & Hoff & Hrange).
    + exact Hww.
    + exact Hwz.
    + exact Hnum.
    + exact Hc.
    + exact Ho1.
    + cbn [mbind result_bind fst snd].
      exists ((b, outputValue r1) :: outs), r'.
      split; [reflexivity|]. split.
      * constructor; [|exact Houts]. cbn [fst snd]. exact Hv.
      * split; [|exact Hrange].
        rewrite Hoff. subst r1.
        change (cyclesPerSample (with_offset (with_output w v) _))
          with (cyclesPerSample r).
        cbn [sampleOffset with_offset readies].
        destruct b; lia.
Qed.

End ZeroStream.

(** ** A small resampler: ring of 4, one row of three coefficients *)

Definition small_table : matrixf_t :=
  [[f32_of_int 1; f32_of_int 2; f32_of_int 1]].
Definition small_cache : fir_cache_t := {[ "3,1,2" := small_table ]}.
Definition small_state : SincResampler :=
  {| firTable := "3,1,2"; sampleIndex := 3; firRES := 1; firN := 3;
     cyclesPerSample := 2048; sampleOffset := 0; outputValue := f32_zero;
     sample := replicate 8 (f32_of_int 5) |}.

Lemma small_state_wf : resampler_wf 4 small_cache small_state.
Proof.
  exists small_table.
  cbn [small_state firTable firRES firN sample sampleIndex].
  split; [apply lookup_singleton_eq|].
  split; [reflexivity|].
  split; [repeat constructor|].
  split; [lia|]. split; [lia|].
  split; [exists 2; split; [lia|reflexivity]|].
  split; [reflexivity|lia].
Qed.



(** The small resampler run: the window wraps around the ring; outputs
    come with every second call ([cyclesPerSample] is 2048). *)
Lemma small_state_run :
  outputs (input_all 4 small_cache small_state
             [f32_of_int 1; f32_of_int 2; f32_of_int 3; f32_of_int 4])
  = Ok [(true, f32_of_int 20); (false, f32_of_int 20);
        (true, f32_of_int 9); (false, f32_of_int 9)].
Proof. vm_compute. reflexivity. Qed.

Section Corollaries.

Variable RINGSIZE : Z.

Lemma reset_zeroed_id (r : SincResampler) :
  zeroed RINGSIZE r -> sampleOffset r = 0 -> reset r = r.
Proof.
  unfold zeroed, reset. destruct r as [t i res n c o v s]. cbn.
  intros -> ->. unfold with_offset, with_sample. cbn.
  rewrite length_replicate. reflexivity.
Qed.

(** X22: after [reset], an object that was fed anything returns what a new
    object returns whose array holds zeros. *)
Corollary reset_matches_zeroed_new (cache : fir_cache_t)
    (r r0 : SincResampler) (xs : list f32) :
  resampler_wf RINGSIZE cache r -> resampler_wf RINGSIZE cache r0 ->
  same_config r r0 -> zeroed RINGSIZE r0 -> sampleOffset r0 = 0 ->
  outputs (input_all RINGSIZE cache (reset r) xs)
  = outputs (input_all RINGSIZE cache r0 xs).
Proof.
  intros Hwf Hwf0 Hcfg Hz Ho.
  pose proof (reset_forgets RINGSIZE cache r r0 xs Hwf Hwf0 Hcfg) as H.
  rewrite (reset_zeroed_id r0 Hz Ho) in H. exact H.
Qed.

(** X23: after [reset], a zero stream gives zero outputs, one for every
    [cyclesPerSample / 1024] calls. *)
Corollary reset_zero_stream (cache : fir_cache_t) (r : SincResampler) (n : nat) :
  resampler_wf RINGSIZE cache r -> numbers cache r ->
  1024 <= cyclesPerSample r < 2 ^ 30 ->
  exists outs r',
    input_all RINGSIZE cache (reset r) (replicate n f32_zero) = Ok (outs, r') /\
    Forall (fun o : bool * f32 => fst o = true -> snd o = f32_zero) outs /\
    1024 * Z.of_nat n <= readies outs * cyclesPerSample r
      < 1024 * Z.of_nat n + cyclesPerSample r.
Proof.
  intros Hwf Hnum Hc.
  destruct (zero_stream_from RINGSIZE cache n (reset r)) as (outs & r' & E & Hz & Ho & Hr).
  - apply reset_wf, Hwf.
  - unfold zeroed, reset. cbn [sample with_offset with_sample].
    destruct Hwf as (_ & _ & _ & _ & _ & _ & _ & Hlen & _).
    f_equal. lia.
  - exact Hnum.
  - exact Hc.
  - cbn. lia.
  - exists outs, r'. split; [exact E|]. split; [exact Hz|].
    change (cyclesPerSample (reset r)) with (cyclesPerSample r) in *.
    change (sampleOffset (reset r)) with 0 in Ho. lia.
Qed.

End Corollaries.

(** ** The scenario of the specification: 1 MHz to 44.1 kHz

    The theorems above hold for every C library.  To run the constructor,
    the examples below use stand-ins: a [log10] that is right at [2^-16],
    the one argument the constructor passes, the first terms of the sine
    series, and a fixed key text. *)

Definition demo_log10 (x : float) : float := (-0x1.34413509f79ffp+2)%float.
Definition demo_sin (x : float) : float :=
  (x - x * x * x / 6 + x * x * x * x * x / 120)%float.
Definition demo_show (x : float) : string := "22.6757".

Abbreviation demo_new sample0 cache :=
  (SincResampler_new 2048 demo_log10 demo_sin demo_show 100 sample0 cache
     1000000 44100 20000).

Definition nan_storage : list f32 := replicate (Z.to_nat (2 * 2048)) S754_nan.

(** The new object and the cache the constructor leaves, starting from an
    empty cache and storage that holds NaN bit patterns. *)
Definition demo_pair : SincResampler * fir_cache_t :=
  match demo_new nan_storage ∅ with
  | Ok p => p
  | Fail _ => (designed demo_log10 demo_show [] 0 0 0, ∅)
  end.
Definition demo_fresh : SincResampler := fst demo_pair.
Definition demo_cache : fir_cache_t := snd demo_pair.

Lemma demo_new_eq : demo_new nan_storage ∅ = Ok (demo_fresh, demo_cache).
Proof. vm_cast_no_check (eq_refl (Ok (demo_fresh, demo_cache))). Qed.

(** The design of the scenario: [cyclesPerSample = 23219], [firN = 1497],
    [firRES = 13]. *)
Lemma demo_design :
  cyclesPerSample demo_fresh = 23219 /\ firN demo_fresh = 1497 /\
  firRES demo_fresh = 13.
Proof.
  split; [|split].
  - vm_cast_no_check (eq_refl 23219).
  - vm_cast_no_check (eq_refl 1497).
  - vm_cast_no_check (eq_refl 13).
Qed.

Lemma construction_shares_table_witness :
  exists (T : matrixf_t) (r2 : SincResampler),
    demo_cache !! firTable demo_fresh = Some T /\
    demo_new [] demo_cache = Ok (r2, demo_cache) /\
    firTable r2 = firTable demo_fresh /\
    ((∅ : fir_cache_t) !! firTable demo_fresh = None ->
     exists I0beta, I0 100 (beta demo_log10) = Ok I0beta /\
       fir_table demo_log10 demo_sin 100 (firN demo_fresh) (firRES demo_fresh)
         (1000000 / 44100)%float I0beta = Ok T).
Proof.
  exact (construction_shares_table 2048 demo_log10 demo_sin demo_show 100
           nan_storage [] ∅ 1000000 44100 20000 demo_fresh demo_cache
           demo_new_eq).
Defined.

Lemma fresh_object_reads_storage_witness :
  exists r', input 2048 demo_cache demo_fresh f32_zero = Ok (true, r') /\
             outputValue r' = S754_nan.
Proof.
  destruct demo_design as (_ & HN & HR).
  apply (fresh_object_reads_storage 2048 demo_log10 demo_sin demo_show 100
           11 1000000 44100 20000 demo_fresh demo_cache f32_zero).
  - lia.
  - reflexivity.
  - exact demo_new_eq.
  - rewrite HN. lia.
  - rewrite HR. lia.
Defined.

(** C3 (the code at the failing input): a new object and a reset one tell
    each other apart at the first call.  Fed one zero, the reset object
    returns 0.0 and the new object, whose array was never written, returns
    a NaN. *)
Lemma fresh_differs_from_reset :
  outputs (input_all 2048 demo_cache (reset demo_fresh) [f32_zero])
    = Ok [(true, S754_zero false)] /\
  outputs (input_all 2048 demo_cache demo_fresh [f32_zero])
    = Ok [(true, S754_nan)].
Proof.
  split.
  - vm_cast_no_check (eq_refl (Ok [(true, S754_zero false)])).
  - vm_cast_no_check (eq_refl (Ok [(true, S754_nan)])).
Qed.

(** * Further properties of the integrator *)

(** ** Integrator8580.solve: the charge and the three ways a call ends *)

(** The charge [vc] after the statement [vc += n_I_dac] of [solve]. *)
Definition solve_charge (s : Integrator8580) (vi : Z) : Z :=
  let Vgst := wrap_uint (wrap_int (nVgt s - vx s)) in
  let Vgdt :=
    if vi <? nVgt s then wrap_uint (wrap_int (nVgt s - vi)) else 0 in
  let Vgst_2 := wrap_uint (Vgst * Vgst) in
  let Vgdt_2 := wrap_uint (Vgdt * Vgdt) in
  let n_I_dac :=
    wrap_int (n_dac s * Z.shiftr (wrap_int (wrap_uint (Vgst_2 - Vgdt_2))) 15) in
  wrap_int (vc s + n_I_dac).

(** [solve] from the new charge on: the index, its check and the read. *)
Lemma solve_staged (s : Integrator8580) (vi : Z) :
  solve s vi
  = if negb (vx s <? nVgt s) then Fail Assert_subthreshold
    else
      let c := solve_charge s vi in
      let tmp := wrap_int (Z.shiftr c 15 + Z.shiftl 1 15) in
      if negb (tmp <? Z.shiftl 1 16) then Fail Assert_table_index
      else
        match lookupZ (opamp_rev s) tmp with
        | None => Fail Undefined_behaviour
        | Some vx' => Ok (wrap_int (vx' - Z.shiftr c 14), with_state s vx' c)
        end.
Proof. reflexivity. Qed.

Lemma solve_charge_range (s : Integrator8580) (vi : Z) :
  in_int (solve_charge s vi).
Proof. unfold solve_charge. cbv zeta. apply wrap_int_range. Qed.

(** The index computed from a charge never wraps around. *)
Lemma solve_index (c : Z) :
  in_int c ->
  wrap_int (Z.shiftr c 15 + Z.shiftl 1 15) = Z.shiftr c 15 + 2 ^ 15 /\
  - 2 ^ 16 <= Z.shiftr c 15 < 2 ^ 16 /\
  - 2 ^ 17 <= Z.shiftr c 14 < 2 ^ 17.
Proof.
  unfold in_int. intros Hc.
  assert (H15 : - 2 ^ 16 <= Z.shiftr c 15 < 2 ^ 16) by (apply shiftr_bounds; lia).
  assert (H14 : - 2 ^ 17 <= Z.shiftr c 14 < 2 ^ 17) by (apply shiftr_bounds; lia).
  change (Z.shiftl 1 15) with (2 ^ 15).
  rewrite wrap_int_id by (unfold in_int; lia). auto.
Qed.

Lemma shiftr_15_cases (c : Z) :
  (Z.shiftr c 15 + 2 ^ 15 < 0 <-> c < - 2 ^ 30) /\
  (2 ^ 16 <= Z.shiftr c 15 + 2 ^ 15 <-> 2 ^ 30 <= c).
Proof.
  rewrite Z.shiftr_div_pow2 by lia.
  pose proof (Z.div_mod c (2 ^ 15) ltac:(lia)).
  pose proof (Z.mod_pos_bound c (2 ^ 15) ltac:(lia)).
  lia.
Qed.

(** With the new charge in [[-2^30, 2^30)] the call returns. *)
Lemma solve_returns (s : Integrator8580) (vi : Z) :
  Z.of_nat (length (opamp_rev s)) = 65536 ->
  Forall in_ushort (opamp_rev s) ->
  vx s < nVgt s ->
  - 2 ^ 30 <= solve_charge s vi < 2 ^ 30 ->
  exists x,
    lookupZ (opamp_rev s) (Z.shiftr (solve_charge s vi) 15 + 2 ^ 15) = Some x /\
    solve s vi
    = Ok (x - Z.shiftr (solve_charge s vi) 14, with_state s x (solve_charge s vi)).
Proof.
  intros Hlen Htab Hpre Hmid.
  pose proof (solve_charge_range s vi) as Hc.
  set (c := solve_charge s vi) in *.
  destruct (solve_index c Hc) as (Ei & H15 & H14).
  destruct (shiftr_15_cases c) as [Hneg Hbig].
  rewrite solve_staged. rewrite (proj2 (Z.ltb_lt _ _) Hpre). cbn [negb].
  cbv zeta. fold c. rewrite Ei. change (Z.shiftl 1 16) with (2 ^ 16).
  destruct (Z.ltb_spec (Z.shiftr c 15 + 2 ^ 15) (2 ^ 16)); [|lia].
  cbn [negb].
  destruct (lookupZ_Some (opamp_rev s) (Z.shiftr c 15 + 2 ^ 15)) as [x Hx];
    [lia|].
  exists x. split; [exact Hx|]. rewrite Hx.
  assert (Hxr : in_ushort x).
  { apply lookupZ_elem in Hx. rewrite Forall_forall in Htab. apply Htab, Hx. }
  unfold in_ushort in Hxr.
  rewrite wrap_int_id by (unfold in_int; lia). reflexivity.
Qed.

(** X1: a call of [solve] on a table of 65536 entries, made with
    [vx < nVgt], ends in one of three ways, decided by the new charge [c]:
    below [-2^30] the index is negative, which the assertion
    [tmp < (1 << 16)] does not catch, and the read is outside the table;
    from [2^30] on the assertion fails; in between the call returns
    [opamp_rev[(c >> 15) + 2^15] - (c >> 14)] and stores the charge. *)
Theorem solve_outcome (s : Integrator8580) (vi : Z) :
  Z.of_nat (length (opamp_rev s)) = 65536 ->
  Forall in_ushort (opamp_rev s) ->
  vx s < nVgt s ->
  let c := solve_charge s vi in
  (c < - 2 ^ 30 -> solve s vi = Fail Undefined_behaviour) /\
  (2 ^ 30 <= c -> solve s vi = Fail Assert_table_index) /\
  (- 2 ^ 30 <= c < 2 ^ 30 ->
   exists x, lookupZ (opamp_rev s) (Z.shiftr c 15 + 2 ^ 15) = Some x /\
             solve s vi = Ok (x - Z.shiftr c 14, with_state s x c)).
Proof.
  intros Hlen Htab Hpre c.
  assert (Hfail : c < - 2 ^ 30 \/ 2 ^ 30 <= c ->
            solve s vi = if c <? 0 then Fail Undefined_behaviour
                         else Fail Assert_table_index).
  { intros Hout.
    pose proof (solve_charge_range s vi) as Hc. fold c in Hc.
    destruct (solve_index c Hc) as (Ei & H15 & H14).
    destruct (shiftr_15_cases c) as [Hneg Hbig].
    rewrite solve_staged. rewrite (proj2 (Z.ltb_lt _ _) Hpre). cbn [negb].
    cbv zeta. fold c. rewrite Ei. change (Z.shiftl 1 16) with (2 ^ 16).
    destruct (Z.ltb_spec c 0).
    - destruct (Z.ltb_spec (Z.shiftr c 15 + 2 ^ 15) (2 ^ 16)); [|lia].
      cbn [negb]. unfold lookupZ.
      destruct (Z.ltb_spec (Z.shiftr c 15 + 2 ^ 15) 0); [reflexivity|lia].
    - destruct (Z.ltb_spec (Z.shiftr c 15 + 2 ^ 15) (2 ^ 16)); [lia|].
      reflexivity. }
  split; [|split].
  - intros Hlo. rewrite Hfail by lia.
    destruct (Z.ltb_spec c 0); [reflexivity|lia].
  - intros Hhi. rewrite Hfail by lia.
    destruct (Z.ltb_spec c 0); [lia|reflexivity].
  - intros Hmid. exact (solve_returns s vi Hlen Htab Hpre Hmid).
Qed.

Lemma solve_outcome_witness :
  let c := solve_charge (flat_example 40000 3) 50000 in
  (c < - 2 ^ 30 -> solve (flat_example 40000 3) 50000 = Fail Undefined_behaviour) /\
  (2 ^ 30 <= c -> solve (flat_example 40000 3) 50000 = Fail Assert_table_index) /\
  (- 2 ^ 30 <= c < 2 ^ 30 ->
   exists x, lookupZ (opamp_rev (flat_example 40000 3)) (Z.shiftr c 15 + 2 ^ 15)
             = Some x /\
             solve (flat_example 40000 3) 50000
             = Ok (x - Z.shiftr c 14, with_state (flat_example 40000 3) x c)).
Proof.
  apply (solve_outcome (flat_example 40000 3) 50000).
  - exact flat_table_length.
  - exact flat_table_typed.
  - cbn [flat_example vx nVgt]. lia.
Defined.

(** ** Integrator8580.solve: what every returning call leaves behind *)

Lemma solve_Ok_charge (s : Integrator8580) (vi vo : Z) (s' : Integrator8580) :
  solve s vi = Ok (vo, s') ->
  vc s' = solve_charge s vi /\ - 2 ^ 30 <= vc s' < 2 ^ 30 /\
  vo = wrap_int (vx s' - Z.shiftr (vc s') 14) /\
  lookupZ (opamp_rev s) (Z.shiftr (vc s') 15 + 2 ^ 15) = Some (vx s') /\
  s' = with_state s (vx s') (vc s').
Proof.
  rewrite solve_staged.
  destruct (negb (vx s <? nVgt s)); [discriminate|]. cbv zeta.
  pose proof (solve_charge_range s vi) as Hc.
  set (c := solve_charge s vi) in *.
  destruct (solve_index c Hc) as (Ei & H15 & H14).
  destruct (shiftr_15_cases c) as [Hneg Hbig].
  rewrite Ei. change (Z.shiftl 1 16) with (2 ^ 16).
  destruct (Z.ltb_spec (Z.shiftr c 15 + 2 ^ 15) (2 ^ 16)) as [Hlt|]; [|discriminate].
  cbn [negb].
  destruct (lookupZ (opamp_rev s) _) as [x|] eqn:Hx; [|discriminate].
  intros [= <- <-]. cbn [vc vx with_state].
  split; [reflexivity|].
  assert (0 <= Z.shiftr c 15 + 2 ^ 15).
  { unfold lookupZ in Hx.
    destruct (Z.ltb_spec (Z.shiftr c 15 + 2 ^ 15) 0); [discriminate|assumption]. }
  split; [lia|]. split; [reflexivity|]. split; [exact Hx|reflexivity].
Qed.

(** X2: the types are kept and the results are bounded.  After a call of
    [solve] that returns, on a table of [unsigned short] entries, every
    field again holds a value of its C++ type, the charge lies in
    [[-2^30, 2^30)], and the value returned is [vx - (vc >> 14)] without
    wrap-around, strictly between [-2^16] and [2^17]; the same holds
    along any sequence of calls. *)
Theorem solve_keeps_types (s : Integrator8580) (vis : list Z) (outs : list Z)
    (s' : Integrator8580) :
  well_typed s ->
  solve_all s vis = Ok (outs, s') ->
  well_typed s' /\
  Forall (fun vo => - 2 ^ 16 < vo < 2 ^ 17) outs /\
  (vis <> [] ->
   - 2 ^ 30 <= vc s' < 2 ^ 30 /\ in_ushort (vx s') /\
   last outs = Some (vx s' - Z.shiftr (vc s') 14)).
Proof.
  revert s outs s'. induction vis as [|vi rest IH]; intros s outs s' Hwt.
  - cbn [solve_all]. intros [= <- <-].
    split; [exact Hwt|]. split; [constructor|]. congruence.
  - cbn [solve_all].
    destruct (solve s vi) as [[vo s1]|f] eqn:Hs; cbn [mbind result_bind];
      [|discriminate].
    cbn [fst snd].
    destruct (solve_all s1 rest) as [[outs1 s2]|f] eqn:Hrest;
      cbn [mbind result_bind]; [|discriminate].
    cbn [fst snd]. intros [= <- <-].
    destruct (solve_Ok_charge _ _ _ _ Hs) as (_ & Hc & Hvo & Hx & Es1).
    destruct Hwt as (Hvx & Hvc & HnV & Hnd & Htab & Hlen).
    assert (Hxr : in_ushort (vx s1)).
    { apply lookupZ_elem in Hx. rewrite Forall_forall in Htab. apply Htab, Hx. }
    assert (H14 : - 2 ^ 16 <= Z.shiftr (vc s1) 14 < 2 ^ 16)
      by (apply shiftr_bounds; lia).
    assert (Evo : vo = vx s1 - Z.shiftr (vc s1) 14).
    { rewrite Hvo. unfold in_ushort in Hxr.
      apply wrap_int_id. unfold in_int. lia. }
    assert (Hwt1 : well_typed s1).
    { rewrite Es1. unfold well_typed, in_int, in_ushort in *.
      cbn [with_state vx vc nVgt n_dac opamp_rev]. repeat split; try tauto; lia. }
    destruct (IH s1 outs1 s2 Hwt1 Hrest) as (Hwt2 & Houts & Hlast).
    split; [exact Hwt2|]. split.
    + constructor; [|exact Houts]. unfold in_ushort in Hxr. lia.
    + intros _. destruct rest as [|vi' rest'].
      * cbn [solve_all] in Hrest. injection Hrest as <- <-.
        split; [exact Hc|]. split; [exact Hxr|]. cbn [last]. congruence.
      * destruct (Hlast ltac:(discriminate)) as (Hc2 & Hx2 & Hl).
        split; [exact Hc2|]. split; [exact Hx2|].
        destruct outs1 as [|o outs1']; [discriminate|].
        exact Hl.
Qed.

Lemma flat_example_typed (n d : Z) :
  in_ushort n -> in_ushort d -> well_typed (flat_example n d).
Proof.
  intros Hn Hd. unfold well_typed. cbn [flat_example vx vc nVgt n_dac opamp_rev].
  unfold in_int.
  split; [lia|]. split; [lia|]. split; [exact Hn|]. split; [exact Hd|].
  split; [apply flat_table_typed|apply flat_table_length].
Qed.

Lemma solve_all_flat_example :
  solve_all (flat_example 40000 3) [50000]
  = Ok ([29992], with_state (flat_example 40000 3) 30000 146484).
Proof.
  cbn [solve_all]. rewrite solve_flat_example. reflexivity.
Qed.

Lemma solve_keeps_types_witness :
  well_typed (with_state (flat_example 40000 3) 30000 146484) /\
  Forall (fun vo => - 2 ^ 16 < vo < 2 ^ 17) [29992] /\
  ([50000] <> [] ->
   - 2 ^ 30 <= vc (with_state (flat_example 40000 3) 30000 146484) < 2 ^ 30 /\
   in_ushort (vx (with_state (flat_example 40000 3) 30000 146484)) /\
   last [29992]
   = Some (vx (with_state (flat_example 40000 3) 30000 146484)
           - Z.shiftr (vc (with_state (flat_example 40000 3) 30000 146484)) 14)).
Proof.
  apply (solve_keeps_types (flat_example 40000 3) [50000]).
  - apply flat_example_typed; unfold in_ushort; lia.
  - exact solve_all_flat_example.
Defined.

(** ** Integrator8580.solve: the direction of the charge *)

(** Without wrap-around the new charge is the one of the formula. *)
Lemma solve_charge_no_wrap (s : Integrator8580) (vi : Z) :
  vx s < nVgt s -> well_typed s -> solve_no_wrap s vi ->
  solve_charge s vi
  = vc s + n_dac s
           * Z.shiftr ((nVgt s - vx s) * (nVgt s - vx s)
                       - Z.max 0 (nVgt s - vi) * Z.max 0 (nVgt s - vi)) 15.
Proof.
  intros Hpre (Hvx & Hvc & HnV & Hnd & _ & _) (H0 & Hgd & Hd & Hp & Hc & Hi).
  unfold solve_charge. cbv zeta.
  unfold in_ushort, in_int in *.
  assert (EVgst : wrap_uint (wrap_int (nVgt s - vx s)) = nVgt s - vx s).
  { rewrite wrap_int_id by (unfold in_int; lia).
    apply wrap_uint_id. lia. }
  assert (EVgdt : (if vi <? nVgt s then wrap_uint (wrap_int (nVgt s - vi)) else 0)
                  = Z.max 0 (nVgt s - vi)).
  { destruct (Z.ltb_spec vi (nVgt s)).
    - rewrite Z.max_r in * by lia.
      rewrite wrap_int_id by (unfold in_int; lia).
      apply wrap_uint_id. lia.
    - rewrite Z.max_l by lia. reflexivity. }
  rewrite EVgst, EVgdt.
  set (Vgst := nVgt s - vx s) in *.
  set (Vgdt := Z.max 0 (nVgt s - vi)) in *.
  assert (HVgst : 0 < Vgst < 2 ^ 16) by (subst Vgst; lia).
  assert (HVgdt : 0 <= Vgdt < 2 ^ 16) by (subst Vgdt; lia).
  rewrite (wrap_uint_id (Vgst * Vgst)) by nia.
  rewrite (wrap_uint_id (Vgdt * Vgdt)) by nia.
  rewrite wrap_int_uint.
  rewrite (wrap_int_id (Vgst * Vgst - Vgdt * Vgdt)) by (unfold in_int; lia).
  rewrite (wrap_int_id (n_dac s * _)) by (unfold in_int; lia).
  apply wrap_int_id. unfold in_int. lia.
Qed.

(** X3: the capacitor charges when the input lies above [vx] and
    discharges when it lies below.  When no 32-bit operation wraps around,
    [solve] returns, and the stored charge [vc] has not decreased if
    [vx <= vi], has not increased if [vi <= vx], and is unchanged if
    [vi = vx]. *)
Theorem solve_charge_direction (s : Integrator8580) (vi : Z) :
  vx s < nVgt s -> well_typed s -> solve_no_wrap s vi ->
  exists vo s',
    solve s vi = Ok (vo, s') /\
    (vx s <= vi -> vc s <= vc s') /\
    (vi <= vx s -> vc s' <= vc s) /\
    (vi = vx s -> vc s' = vc s).
Proof.
  intros Hpre Hwt Hnw.
  pose proof (solve_charge_no_wrap s vi Hpre Hwt Hnw) as Ec.
  destruct Hwt as (Hvx & Hvc & HnV & Hnd & Htab & Hlen).
  pose proof (solve_returns s vi Hlen Htab Hpre) as Hok.
  destruct Hnw as (H0 & Hgd & Hd & Hp & Hc & Hi).
  cbv zeta in Hd, Hp, Hc, Hi.
  set (Vgst := nVgt s - vx s) in *.
  set (Vgdt := Z.max 0 (nVgt s - vi)) in *.
  set (d := Vgst * Vgst - Vgdt * Vgdt) in *.
  destruct (shiftr_15_cases (solve_charge s vi)) as [Hneg Hbig].
  destruct Hok as (x & Hx & Hs).
  { rewrite Ec in *. lia. }
  exists (x - Z.shiftr (solve_charge s vi) 14), (with_state s x (solve_charge s vi)).
  split; [exact Hs|]. cbn [vc with_state]. rewrite Ec.
  unfold in_ushort in Hnd.
  assert (HVgst : 0 < Vgst) by (subst Vgst; lia).
  split; [|split].
  - intros Hle.
    assert (0 <= Vgdt <= Vgst) by (subst Vgdt Vgst; lia).
    assert (0 <= d) by (subst d; nia).
    assert (0 <= Z.shiftr d 15) by (apply Z.shiftr_nonneg; assumption).
    nia.
  - intros Hle.
    assert (Vgst <= Vgdt) by (subst Vgdt Vgst; lia).
    assert (d <= 0) by (subst d; nia).
    assert (Z.shiftr d 15 <= 0).
    { rewrite Z.shiftr_div_pow2 by lia.
      pose proof (Z.div_le_upper_bound d (2 ^ 15) 0 ltac:(lia) ltac:(lia)). lia. }
    nia.
  - intros ->.
    assert (Vgdt = Vgst) by (subst Vgdt Vgst; lia).
    assert (Ed : d = 0) by (subst d; nia).
    rewrite Ed. change (Z.shiftr 0 15) with 0. lia.
Qed.

Lemma solve_charge_direction_witness :
  exists vo s',
    solve (flat_example 40000 3) 30000 = Ok (vo, s') /\
    (vx (flat_example 40000 3) <= 30000 -> vc (flat_example 40000 3) <= vc s') /\
    (30000 <= vx (flat_example 40000 3) -> vc s' <= vc (flat_example 40000 3)) /\
    (30000 = vx (flat_example 40000 3) -> vc s' = vc (flat_example 40000 3)).
Proof.
  apply (solve_charge_direction (flat_example 40000 3) 30000).
  - cbn [flat_example vx nVgt]. lia.
  - apply flat_example_typed; unfold in_ushort; lia.
  - unfold solve_no_wrap, in_int; cbn [flat_example vx vc nVgt n_dac].
    repeat split; vm_compute; first [reflexivity | discriminate].
Defined.

(** ** Integrator8580.solve: a DAC current of zero *)

(** X4: with [n_dac = 0] the integrator holds its state.  A call that
    returns leaves the charge as it was, and if the value read from the
    table lies below [nVgt], every further call returns the same output and
    the same state, whatever its input. *)
Theorem solve_holds_at_zero_dac (s : Integrator8580) (vi vo : Z)
    (s' : Integrator8580) :
  n_dac s = 0 -> in_int (vc s) ->
  solve s vi = Ok (vo, s') ->
  vc s' = vc s /\
  (vx s' < nVgt s -> forall vi', solve s' vi' = Ok (vo, s')).
Proof.
  intros Hd Hvc Hs.
  assert (Ec : forall t v, n_dac t = 0 -> in_int (vc t) -> solve_charge t v = vc t).
  { intros t v Ht Hct. unfold solve_charge. cbv zeta. rewrite Ht.
    rewrite Z.mul_0_l. change (wrap_int 0) with 0. rewrite Z.add_0_r.
    apply wrap_int_id, Hct. }
  destruct (solve_Ok_charge _ _ _ _ Hs) as (Hc & _ & Hvo & Hx & Es').
  rewrite (Ec s vi Hd Hvc) in Hc.
  split; [exact Hc|].
  intros Hlt vi'. rewrite solve_staged.
  assert (Hn' : nVgt s' = nVgt s) by (rewrite Es'; reflexivity).
  assert (Ht' : opamp_rev s' = opamp_rev s) by (rewrite Es'; reflexivity).
  assert (Hd' : n_dac s' = 0) by (rewrite Es'; exact Hd).
  rewrite Hn', (proj2 (Z.ltb_lt _ _) Hlt). cbn [negb]. cbv zeta.
  rewrite (Ec s' vi' Hd') by (rewrite Hc; exact Hvc).
  assert (Hc' : in_int (vc s')) by (rewrite Hc; exact Hvc).
  destruct (solve_index (vc s') Hc') as (Ei & _ & _).
  rewrite Ei. change (Z.shiftl 1 16) with (2 ^ 16).
  pose proof (solve_Ok_charge _ _ _ _ Hs) as (_ & Hr & _).
  destruct (shiftr_15_cases (vc s')) as [_ Hbig].
  destruct (Z.ltb_spec (Z.shiftr (vc s') 15 + 2 ^ 15) (2 ^ 16)); [|lia].
  cbn [negb]. rewrite Ht', Hx, <- Hvo.
  f_equal. f_equal. rewrite Es' at 3. rewrite Es'. reflexivity.
Qed.

Lemma solve_flat_zero_dac :
  solve (flat_example 40000 0) 50000
  = Ok (30000, with_state (flat_example 40000 0) 30000 0).
Proof. unfold solve. eval_on_flat_table. Qed.

Lemma solve_holds_at_zero_dac_witness :
  vc (with_state (flat_example 40000 0) 30000 0) = vc (flat_example 40000 0) /\
  (vx (with_state (flat_example 40000 0) 30000 0) < nVgt (flat_example 40000 0) ->
   forall vi', solve (with_state (flat_example 40000 0) 30000 0) vi'
               = Ok (30000, with_state (flat_example 40000 0) 30000 0)).
Proof.
  apply (solve_holds_at_zero_dac (flat_example 40000 0) 50000).
  - reflexivity.
  - cbn [flat_example vc]. unfold in_int. lia.
  - exact solve_flat_zero_dac.
Defined.

(** ** Integrator8580.solve: when no signed operation overflows *)

(** The DAC current before it is multiplied by [n_dac]: the difference of
    the squares, computed in [unsigned int], converted to [int] and shifted
    right by 15. *)
Definition solve_current (s : Integrator8580) (vi : Z) : Z :=
  let Vgst := wrap_uint (wrap_int (nVgt s - vx s)) in
  let Vgdt :=
    if vi <? nVgt s then wrap_uint (wrap_int (nVgt s - vi)) else 0 in
  Z.shiftr (wrap_int (wrap_uint (wrap_uint (Vgst * Vgst) - wrap_uint (Vgdt * Vgdt)))) 15.

(** X5: with [n_dac < 2^14], an input [vi >= -2^30] and the charge in
    [[-2^30, 2^30)], where every returning call leaves it, no signed
    operation of [solve] overflows: the two subtractions from [nVgt], the
    product [n_dac * (... >> 15)] and the sum [vc + n_I_dac] all lie within
    [int], so the charge after the call is [vc + n_dac * (... >> 15)]
    itself. *)
Theorem solve_no_signed_overflow (s : Integrator8580) (vi : Z) :
  well_typed s -> 0 <= vx s ->
  - 2 ^ 30 <= vc s < 2 ^ 30 -> n_dac s < 2 ^ 14 -> - 2 ^ 30 <= vi ->
  in_int (nVgt s - vx s) /\
  (vi < nVgt s -> in_int (nVgt s - vi)) /\
  - 2 ^ 16 <= solve_current s vi < 2 ^ 16 /\
  in_int (n_dac s * solve_current s vi) /\
  in_int (vc s + n_dac s * solve_current s vi) /\
  solve_charge s vi = vc s + n_dac s * solve_current s vi.
Proof.
  intros (Hvx & Hvc & HnV & Hnd & _ & _) H0 Hc Hd Hvi.
  unfold in_ushort, in_int in *.
  assert (Hq : - 2 ^ 16 <= solve_current s vi < 2 ^ 16).
  { unfold solve_current. cbv zeta. apply shiftr_bounds; [lia|].
    pose proof (wrap_int_range
                  (wrap_uint
                     (wrap_uint
                        (wrap_uint (wrap_int (nVgt s - vx s))
                         * wrap_uint (wrap_int (nVgt s - vx s)))
                      - wrap_uint
                          ((if vi <? nVgt s
                            then wrap_uint (wrap_int (nVgt s - vi)) else 0)
                           * (if vi <? nVgt s
                              then wrap_uint (wrap_int (nVgt s - vi)) else 0)))))
      as Hr.
    unfold in_int in Hr. lia. }
  assert (Hp : - 2 ^ 30 <= n_dac s * solve_current s vi < 2 ^ 30) by nia.
  split; [lia|]. split; [lia|]. split; [exact Hq|]. split; [lia|].
  split; [lia|].
  unfold solve_charge. cbv zeta. fold (solve_current s vi).
  rewrite (wrap_int_id (n_dac s * solve_current s vi)) by (unfold in_int; lia).
  apply wrap_int_id. unfold in_int. lia.
Qed.

Lemma solve_no_signed_overflow_witness :
  in_int (nVgt (flat_example 40000 3) - vx (flat_example 40000 3)) /\
  (50000 < nVgt (flat_example 40000 3) ->
   in_int (nVgt (flat_example 40000 3) - 50000)) /\
  - 2 ^ 16 <= solve_current (flat_example 40000 3) 50000 < 2 ^ 16 /\
  in_int (n_dac (flat_example 40000 3) * solve_current (flat_example 40000 3) 50000) /\
  in_int (vc (flat_example 40000 3)
          + n_dac (flat_example 40000 3) * solve_current (flat_example 40000 3) 50000) /\
  solve_charge (flat_example 40000 3) 50000
  = vc (flat_example 40000 3)
    + n_dac (flat_example 40000 3) * solve_current (flat_example 40000 3) 50000.
Proof.
  apply (solve_no_signed_overflow (flat_example 40000 3) 50000).
  - apply flat_example_typed; unfold in_ushort; lia.
  - cbn [flat_example vx]. lia.
  - cbn [flat_example vc]. lia.
  - cbn [flat_example n_dac]. lia.
  - lia.
Defined.

(** * Rounding in binary64: the value [binary_round] returns *)

(** ** Shifting right without losing a bit *)

Lemma pow2_split (m a b : Z) :
  0 <= a -> 0 <= b -> m mod 2 ^ (a + b) = 0 ->
  m mod 2 ^ a = 0 /\ (m / 2 ^ a) mod 2 ^ b = 0.
Proof.
  intros Ha Hb H.
  assert (Pa : 0 < 2 ^ a) by (apply Z.pow_pos_nonneg; lia).
  assert (Pb : 0 < 2 ^ b) by (apply Z.pow_pos_nonneg; lia).
  apply Z.mod_divide in H; [|rewrite Z.pow_add_r by lia; lia].
  destruct H as [k Hk]. rewrite Z.pow_add_r in Hk by lia.
  assert (E : m = k * 2 ^ b * 2 ^ a) by lia.
  split.
  - rewrite E. apply Z.mod_mul. lia.
  - rewrite E, Z.div_mul by lia. apply Z.mod_mul. lia.
Qed.

Definition shr_exact (r : shr_record) : Prop :=
  shr_r r = false /\ shr_s r = false /\ 0 <= shr_m r.

Lemma shr_1_exact (r : shr_record) :
  shr_exact r -> shr_m r mod 2 = 0 -> shr_exact (shr_1 r).
Proof.
  destruct r as [m b s]. unfold shr_exact. cbn [shr_m shr_r shr_s].
  intros (-> & -> & Hm) Hmod.
  destruct m as [|p|p]; [cbn; auto with zarith| |lia].
  destruct p as [p|p|]; cbn [shr_1 shr_m shr_r shr_s orb].
  - exfalso. rewrite Zmod_odd in Hmod. cbn in Hmod. discriminate.
  - repeat split. lia.
  - exfalso. rewrite Zmod_odd in Hmod. cbn in Hmod. discriminate.
Qed.

Lemma iter_shr_1_exact (p : positive) (r : shr_record) :
  shr_exact r -> shr_m r mod 2 ^ Zpos p = 0 ->
  shr_exact (SpecFloat.iter_pos shr_1 p r).
Proof.
  revert r. induction p as [p IH|p IH|]; intros r Hr Hmod;
    cbn [SpecFloat.iter_pos].
  - assert (Hm : 0 <= shr_m r) by apply Hr.
    change (Zpos p~1) with (2 * Zpos p + 1) in Hmod.
    replace (2 * Zpos p + 1) with (1 + (Zpos p + Zpos p)) in Hmod by lia.
    apply pow2_split in Hmod as [H1 H2]; [|lia|lia].
    apply pow2_split in H2 as [H2 H3]; [|lia|lia].
    change (2 ^ 1) with 2 in *.
    pose proof (shr_1_exact r Hr H1) as E1.
    assert (M1 : shr_m (shr_1 r) = shr_m r / 2) by (apply shr_1_m; exact Hm).
    assert (E2 : shr_exact (SpecFloat.iter_pos shr_1 p (shr_1 r)))
      by (apply IH; [exact E1|rewrite M1; exact H2]).
    apply IH; [exact E2|].
    rewrite iter_shr_1_m by apply E1. rewrite M1. exact H3.
  - assert (Hm : 0 <= shr_m r) by apply Hr.
    change (Zpos p~0) with (2 * Zpos p) in Hmod.
    replace (2 * Zpos p) with (Zpos p + Zpos p) in Hmod by lia.
    apply pow2_split in Hmod as [H1 H2]; [|lia|lia].
    assert (E1 : shr_exact (SpecFloat.iter_pos shr_1 p r)) by (apply IH; assumption).
    apply IH; [exact E1|].
    rewrite iter_shr_1_m by exact Hm. exact H2.
  - apply shr_1_exact; [exact Hr|]. exact Hmod.
Qed.

(** The first shift of [binary_round_aux] on an exact positive mantissa:
    [s] bits are shifted out, the excess of its length over 53. *)
Lemma shr_fexp_value (p : positive) (ex : Z) :
  -1074 <= ex ->
  let s := Z.max 0 (Zpos (digits2_pos p) - 53) in
  exists mrs,
    shr_fexp prec emax (Zpos p) ex loc_Exact = (mrs, ex + s) /\
    shr_m mrs = Zpos p / 2 ^ s /\ 0 < shr_m mrs < 2 ^ 53 /\
    (0 < s -> 2 ^ 52 <= shr_m mrs) /\
    (Zpos p mod 2 ^ s = 0 -> loc_of_shr_record mrs = loc_Exact).
Proof.
  intros Hex s. unfold shr_fexp, shr. cbn [Zdigits2].
  set (d := Zpos (digits2_pos p)) in *.
  change (SpecFloat.fexp prec emax (d + ex)) with (Z.max (d + ex - 53) (-1074)).
  destruct (digits2_pos_bounds p) as [Hlo Hhi]. fold d in Hlo, Hhi.
  assert (Hd : 0 < d) by (subst d; lia).
  destruct (Z.max (d + ex - 53) (-1074) - ex) as [|n|n] eqn:En.
  - assert (Es : s = 0) by (subst s; lia). rewrite Es.
    eexists. split; [rewrite Z.add_0_r; reflexivity|].
    cbn [shr_record_of_loc shr_m loc_of_shr_record].
    change (2 ^ 0) with 1. rewrite Z.div_1_r.
    split; [reflexivity|]. split; [|split; [lia|reflexivity]].
    assert (2 ^ d <= 2 ^ 53) by (apply Z.pow_le_mono_r; lia). lia.
  - assert (Es : s = Zpos n) by (subst s; lia). rewrite Es.
    eexists. split; [reflexivity|].
    assert (Hx : shr_exact (shr_record_of_loc (Zpos p) loc_Exact))
      by (unfold shr_exact; cbn; repeat split; lia).
    rewrite iter_shr_1_m by apply Hx.
    cbn [shr_record_of_loc shr_m].
    split; [reflexivity|].
    assert (Hn : Zpos n = d - 53) by lia.
    assert (E : 2 ^ d = 2 ^ 53 * 2 ^ Zpos n).
    { rewrite <- Z.pow_add_r by lia. f_equal. lia. }
    assert (E' : 2 ^ (d - 1) = 2 ^ 52 * 2 ^ Zpos n).
    { rewrite <- Z.pow_add_r by lia. f_equal. lia. }
    assert (0 < 2 ^ Zpos n) by (apply Z.pow_pos_nonneg; lia).
    assert (Hq52 : 2 ^ 52 <= Zpos p / 2 ^ Zpos n)
      by (apply Z.div_le_lower_bound; lia).
    split; [|split].
    + split; [lia|]. apply Z.div_lt_upper_bound; lia.
    + intros _. exact Hq52.
    + intros Hmod.
      pose proof (iter_shr_1_exact n _ Hx Hmod) as (Hr & Hs & _).
      destruct (SpecFloat.iter_pos shr_1 n _) as [m' r' s'].
      cbn [shr_r shr_s] in Hr, Hs. subst r' s'. reflexivity.
  - assert (Es : s = 0) by (subst s; lia). rewrite Es.
    eexists. split; [rewrite Z.add_0_r; reflexivity|].
    cbn [shr_record_of_loc shr_m loc_of_shr_record].
    change (2 ^ 0) with 1. rewrite Z.div_1_r.
    split; [reflexivity|]. split; [|split; [lia|reflexivity]].
    assert (2 ^ d <= 2 ^ 53) by (apply Z.pow_le_mono_r; lia). lia.
Qed.

(** [binary_round_aux] on an exact positive mantissa: in units of [2^ex]
    the result is the mantissa with its last [s] bits rounded away, upwards
    by less than [2^s] at most, and it is the mantissa itself when those
    bits are zero. *)
Lemma binary_round_aux_value (sx : bool) (p : positive) (ex : Z) :
  -1074 <= ex ->
  let s := Z.max 0 (Zpos (digits2_pos p) - 53) in
  exists (m : positive) (e : Z),
    binary_round_aux prec emax sx (Zpos p) ex loc_Exact
      = (if e <=? 971 then S754_finite sx m e else S754_infinity sx) /\
    ex <= e /\
    Zpos p / 2 ^ s * 2 ^ s <= Zpos m * 2 ^ (e - ex) <= Zpos p + 2 ^ s /\
    (0 < s -> 2 ^ 52 * 2 ^ s <= Zpos m * 2 ^ (e - ex)) /\
    (Zpos p mod 2 ^ s = 0 -> Zpos m * 2 ^ (e - ex) = Zpos p).
Proof.
  intros Hex s. unfold binary_round_aux.
  destruct (shr_fexp_value p ex Hex) as (mrs & -> & Hq & Hm & Hn52 & Hexact).
  fold s in Hq, Hn52, Hexact |- *.
  assert (Hs : 0 <= s) by (subst s; lia).
  assert (Ps : 0 < 2 ^ s) by (apply Z.pow_pos_nonneg; lia).
  set (q := shr_m mrs) in *.
  set (m1 := round_nearest_even q (loc_of_shr_record mrs)).
  assert (Hm1 : (m1 = q \/ m1 = q + 1) /\ (Zpos p mod 2 ^ s = 0 -> m1 = q)).
  { split.
    - apply round_nearest_even_cases.
    - intros Hmod. subst m1. rewrite (Hexact Hmod). reflexivity. }
  clearbody m1. destruct Hm1 as [Hm1 Hm1x].
  pose proof (Z.div_mod (Zpos p) (2 ^ s) ltac:(lia)) as Hdm.
  pose proof (Z.mod_pos_bound (Zpos p) (2 ^ s) Ps) as Hmb.
  rewrite <- Hq in Hdm.
  assert (He1 : -1074 <= ex + s) by lia.
  assert (Hval : q * 2 ^ s <= m1 * 2 ^ s <= Zpos p + 2 ^ s) by nia.
  assert (Hval52 : 0 < s -> 2 ^ 52 * 2 ^ s <= m1 * 2 ^ s).
  { intros H0. specialize (Hn52 H0). nia. }
  rewrite <- Hq.
  assert (Hvalx : Zpos p mod 2 ^ s = 0 -> m1 * 2 ^ s = Zpos p).
  { intros Hmod. rewrite (Hm1x Hmod). lia. }
  destruct (Z.eq_dec m1 (2 ^ 53)) as [Etop|Ntop].
  - exists (2 ^ 52)%positive, (ex + s + 1).
    assert (Es : shr_fexp prec emax m1 (ex + s) loc_Exact
            = (Build_shr_record (2 ^ 52) false false, ex + s + 1)).
    { rewrite Etop. unfold shr_fexp.
      change (Zdigits2 (2 ^ 53)) with 54.
      change (SpecFloat.fexp prec emax (54 + (ex + s)))
        with (Z.max (54 + (ex + s) - 53) (-1074)).
      replace (Z.max (54 + (ex + s) - 53) (-1074) - (ex + s)) with 1 by lia.
      reflexivity. }
    rewrite Es. cbn [shr_m].
    change (2 ^ 52) with (Zpos (2 ^ 52)). cbv iota.
    change (emax - prec) with 971.
    split; [reflexivity|]. split; [lia|].
    replace (ex + s + 1 - ex) with (s + 1) by lia.
    rewrite Z.pow_add_r by lia.
    change (Zpos (2 ^ 52) * (2 ^ s * 2 ^ 1)) with (2 ^ 52 * (2 ^ s * 2)).
    rewrite Etop in Hval, Hvalx, Hval52. split; [lia|].
    split; [intros H0; specialize (Hval52 H0); lia|].
    intros Hmod. specialize (Hvalx Hmod). lia.
  - assert (Hlt : 0 < m1 < 2 ^ 53) by lia.
    destruct m1 as [|m1|m1]; [lia| |lia].
    exists m1, (ex + s).
    assert (Es : shr_fexp prec emax (Zpos m1) (ex + s) loc_Exact
            = (Build_shr_record (Zpos m1) false false, ex + s)).
    { pose proof (digits2_pos_le m1 53 (proj2 Hlt)) as Hdq.
      unfold shr_fexp, shr. cbn [Zdigits2].
      change (SpecFloat.fexp prec emax (Zpos (digits2_pos m1) + (ex + s)))
        with (Z.max (Zpos (digits2_pos m1) + (ex + s) - 53) (-1074)).
      destruct (Z.max (Zpos (digits2_pos m1) + (ex + s) - 53) (-1074) - (ex + s))
        eqn:En; [reflexivity|lia|reflexivity]. }
    rewrite Es. cbn [shr_m]. cbv iota.
    change (emax - prec) with 971.
    split; [reflexivity|]. split; [lia|].
    replace (ex + s - ex) with s by lia.
    split; [exact Hval|]. split; [exact Hval52|exact Hvalx].
Qed.

Lemma digits2_pos_shift (m : positive) (k : Z) (mz : positive) :
  0 <= k -> Zpos mz = Zpos m * 2 ^ k ->
  Zpos (digits2_pos mz) = Zpos (digits2_pos m) + k.
Proof.
  intros Hk E.
  destruct (digits2_pos_bounds m) as [Hlo Hhi].
  assert (Pk : 0 < 2 ^ k) by (apply Z.pow_pos_nonneg; lia).
  assert (Hd : 0 < Zpos (digits2_pos m)) by lia.
  assert (L : 2 ^ (Zpos (digits2_pos m) + k - 1) <= Zpos mz).
  { replace (Zpos (digits2_pos m) + k - 1) with (Zpos (digits2_pos m) - 1 + k) by lia.
    rewrite Z.pow_add_r by lia. nia. }
  assert (U : Zpos mz < 2 ^ (Zpos (digits2_pos m) + k)).
  { rewrite Z.pow_add_r by lia. nia. }
  pose proof (digits2_pos_ge mz _ L). pose proof (digits2_pos_le mz _ U). lia.
Qed.

(** [binary_round]: the same, after the mantissa was first given its full
    length if it was shorter.  In units of [2^-1074] the result [V] differs
    from the value [W] rounded by less than [2^s] units of [2^ex]. *)
Lemma binary_round_value (sx : bool) (p : positive) (ex : Z) :
  -1074 <= ex ->
  let s := Z.max 0 (Zpos (digits2_pos p) - 53) in
  exists (m : positive) (e : Z),
    binary_round prec emax sx p ex
      = (if e <=? 971 then S754_finite sx m e else S754_infinity sx) /\
    -1074 <= e /\
    Zpos p / 2 ^ s * 2 ^ s * 2 ^ (ex + 1074) <= Zpos m * 2 ^ (e + 1074)
      <= (Zpos p + 2 ^ s) * 2 ^ (ex + 1074) /\
    (0 < s -> 2 ^ 52 * 2 ^ s * 2 ^ (ex + 1074) <= Zpos m * 2 ^ (e + 1074)) /\
    (Zpos p mod 2 ^ s = 0 ->
     Zpos m * 2 ^ (e + 1074) = Zpos p * 2 ^ (ex + 1074)).
Proof.
  intros Hex s. unfold binary_round.
  set (d := Zpos (digits2_pos p)) in *.
  change (SpecFloat.fexp prec emax (d + ex)) with (Z.max (d + ex - 53) (-1074)).
  set (f := Z.max (d + ex - 53) (-1074)).
  assert (PU : 0 < 2 ^ (ex + 1074)) by (apply Z.pow_pos_nonneg; lia).
  destruct (Z.lt_ge_cases f ex) as [Hlt|Hge].
  - (* the mantissa is shorter than 53 bits: it is shifted left, nothing is lost *)
    assert (Hs : s = 0) by (subst s f; lia).
    destruct (shl_align p ex f) as [mz ez] eqn:Ea.
    pose proof (shl_align_value p ex f ltac:(lia)) as Hv. rewrite Ea in Hv.
    cbn [fst] in Hv.
    assert (Eez : ez = f).
    { unfold shl_align in Ea. destruct (f - ex) eqn:E; try lia.
      injection Ea as _ <-. reflexivity. }
    subst ez.
    pose proof (digits2_pos_shift p (ex - f) mz ltac:(lia) Hv) as Hdz.
    fold d in Hdz.
    destruct (binary_round_aux_value sx mz f ltac:(subst f; lia))
      as (m & e & -> & He & _ & _ & Hx).
    assert (Hsz : Z.max 0 (Zpos (digits2_pos mz) - 53) = 0) by (subst f; lia).
    rewrite Hsz in Hx. change (2 ^ 0) with 1 in Hx.
    specialize (Hx (Z.mod_1_r _)).
    exists m, e. split; [reflexivity|]. split; [subst f; lia|].
    assert (EV : Zpos m * 2 ^ (e + 1074) = Zpos p * 2 ^ (ex + 1074)).
    { replace (e + 1074) with ((e - f) + (f + 1074)) by lia.
      rewrite Z.pow_add_r by (subst f; lia).
      rewrite Z.mul_assoc, Hx, Hv.
      replace (ex + 1074) with ((ex - f) + (f + 1074)) by lia.
      rewrite (Z.pow_add_r 2 (ex - f)) by (subst f; lia). lia. }
    rewrite Hs. change (2 ^ 0) with 1. rewrite Z.div_1_r.
    split; [lia|]. split; [lia|]. intros _. exact EV.
  - rewrite shl_align_id by lia.
    destruct (binary_round_aux_value sx p ex Hex)
      as (m & e & -> & He & Hv & Hv52 & Hx).
    fold d in Hv, Hv52, Hx. fold s in Hv, Hv52, Hx.
    exists m, e. split; [reflexivity|]. split; [lia|].
    assert (EV : Zpos m * 2 ^ (e + 1074)
                 = Zpos m * 2 ^ (e - ex) * 2 ^ (ex + 1074)).
    { replace (e + 1074) with ((e - ex) + (ex + 1074)) by lia.
      rewrite Z.pow_add_r by lia. lia. }
    rewrite EV. split; [nia|].
    split; [intros H0; specialize (Hv52 H0); nia|].
    intros Hmod. rewrite (Hx Hmod). reflexivity.
Qed.

(** ** Integrator8580.setFc and setV: the conversion to [unsigned short] *)

(** The integer part of a finite double, from its value in units of
    [2^-1074]. *)
Lemma trunc_scaled (r : float) (s : bool) (m : positive) (e : Z) :
  Prim2SF r = S754_finite s m e -> -1074 <= e ->
  trunc r = Some (cond_Zopp s (Zpos m * 2 ^ (e + 1074) / 2 ^ 1074)).
Proof.
  intros E He. unfold trunc. rewrite E. cbv zeta. f_equal.
  assert (Es : Z.shiftl (Zpos m) e = Zpos m * 2 ^ (e + 1074) / 2 ^ 1074).
  { destruct (Z.le_gt_cases 0 e) as [Hpos|Hneg].
    - rewrite Z.shiftl_mul_pow2 by lia.
      rewrite (Z.pow_add_r 2 e 1074) by lia.
      rewrite Z.mul_assoc, Z.div_mul by lia. reflexivity.
    - rewrite Z.shiftl_div_pow2 by lia.
      replace 1074 with ((e + 1074) + (- e)) at 2 by lia.
      rewrite (Z.pow_add_r 2 (e + 1074) (- e)) by lia.
      assert (0 < 2 ^ (e + 1074)) by (apply Z.pow_pos_nonneg; lia).
      assert (0 < 2 ^ (- e)) by (apply Z.pow_pos_nonneg; lia).
      rewrite <- Z.div_div by lia.
      rewrite Z.div_mul by lia. reflexivity. }
  rewrite Es. destruct s; reflexivity.
Qed.

Lemma finite_range (x : float) (s : bool) (m : positive) (e : Z) :
  Prim2SF x = S754_finite s m e ->
  -1074 <= e <= 971 /\ Zpos m < 2 ^ 53 /\ (-1074 < e -> 2 ^ 52 <= Zpos m).
Proof.
  intros E. destruct (finite_valid _ _ _ _ E) as [Hv He].
  destruct (digits2_pos_bounds m) as [Hlo Hhi].
  split; [lia|]. split.
  - assert (2 ^ Zpos (digits2_pos m) <= 2 ^ 53) by (apply Z.pow_le_mono_r; lia).
    lia.
  - intros Hn. assert (Hd : Zpos (digits2_pos m) = 53) by lia.
    rewrite Hd in Hlo. exact Hlo.
Qed.

(** The bits rounded away weigh no more than the mantissa. *)
Lemma round_bits_le (p : positive) :
  2 ^ Z.max 0 (Zpos (digits2_pos p) - 53) <= Zpos p.
Proof.
  destruct (digits2_pos_bounds p) as [Hlo _].
  destruct (Z.le_gt_cases (Zpos (digits2_pos p)) 53).
  - rewrite Z.max_l by lia. change (2 ^ 0) with 1. lia.
  - rewrite Z.max_r by lia.
    assert (2 ^ (Zpos (digits2_pos p) - 53) <= 2 ^ (Zpos (digits2_pos p) - 1))
      by (apply Z.pow_le_mono_r; lia).
    lia.
Qed.

(** What the assertion of the setters is for: a double strictly between
    -0.5 and 65535.5, with a half added in binary64, has an integer part
    from 0 to 65535. *)
Lemma round_half_in_range (t : float) :
  fits_ushort t = true ->
  exists z, trunc (t + 0.5)%float = Some z /\ 0 <= z < 65536.
Proof.
  unfold fits_ushort. intros H. apply andb_true_iff in H as [Hlo Hhi].
  rewrite ltb_spec in Hlo, Hhi.
  change (Prim2SF (-0.5)) with (S754_finite true (2 ^ 52) (-53)) in Hlo.
  change (Prim2SF 65535.5) with (S754_finite false 9007130535264256 (-37)) in Hhi.
  assert (Eadd : Prim2SF (t + 0.5)%float
                 = SFadd prec emax (Prim2SF t) (S754_finite false (2 ^ 52) (-53)))
    by (rewrite add_spec; reflexivity).
  destruct (Prim2SF t) as [s|s| |s m e] eqn:ET.
  - (* a zero *)
    exists 0. split; [|lia].
    unfold trunc. rewrite Eadd. reflexivity.
  - destruct s; discriminate.
  - discriminate.
  - destruct (finite_range t s m e ET) as (He & Hm & Hnorm).
    assert (PK : 0 < 2 ^ 1074) by (apply Z.pow_pos_nonneg; lia).
    destruct s.
    + (* a negative number above -1/2 *)
      assert (Hel : e < -53).
      { unfold SFltb, SFcompare in Hlo.
        destruct (Z.compare_spec (-53) e) as [E|L|G]; [|discriminate|lia].
        subst e. rewrite Pos.compare_cont_spec in Hlo.
        destruct (Pos.compare_spec (2 ^ 52) m) as [E|L|G]; try discriminate.
        specialize (Hnorm ltac:(lia)). lia. }
      clear Hlo Hhi.
      unfold SFadd in Eadd. rewrite Z.min_l in Eadd by lia.
      rewrite shl_align_id in Eadd by lia. cbn [fst cond_Zopp] in Eadd.
      pose proof (shl_align_value (2 ^ 52) (-53) e ltac:(lia)) as Ha.
      set (a := fst (shl_align (2 ^ 52) (-53) e)) in *.
      set (P := 2 ^ (-53 - e)) in *.
      assert (HP : 2 <= P).
      { subst P. change 2 with (2 ^ 1) at 1. apply Z.pow_le_mono_r; lia. }
      change (Zpos (2 ^ 52)) with (2 ^ 52) in Ha.
      destruct (- Zpos m + Zpos a) as [|M|M] eqn:EM; [lia| |lia].
      cbn [binary_normalize] in Eadd.
      destruct (binary_round_value false M e ltac:(lia))
        as (m' & e' & Er & He' & (_ & HV) & _).
      pose proof (round_bits_le M) as Hbits.
      set (A := 2 ^ (e + 1074)) in *.
      assert (PA : 0 < A) by (subst A; apply Z.pow_pos_nonneg; lia).
      assert (EAP : A * P = 2 ^ 1021).
      { subst A P. rewrite <- Z.pow_add_r by lia. f_equal. lia. }
      assert (HVK : Zpos m' * 2 ^ (e' + 1074) < 2 ^ 1074).
      { change (2 ^ 1074) with (2 ^ 53 * 2 ^ 1021). rewrite <- EAP.
        assert (Zpos M < 2 ^ 52 * P) by lia. nia. }
      assert (He'' : e' < 0).
      { destruct (Z.lt_ge_cases e' 0); [assumption|].
        assert (2 ^ 1074 <= 2 ^ (e' + 1074)) by (apply Z.pow_le_mono_r; lia).
        nia. }
      rewrite Er in Eadd. rewrite (proj2 (Z.leb_le e' 971)) in Eadd by lia.
      rewrite (trunc_scaled _ _ _ _ Eadd He'). cbn [cond_Zopp].
      exists 0. split; [|lia]. f_equal.
      apply Z.div_small. lia.
    + (* a positive number below 65535.5 *)
      assert (Heh : e < -37 \/ e = -37 /\ Zpos m < 9007130535264256).
      { unfold SFltb, SFcompare in Hhi.
        destruct (Z.compare_spec e (-37)) as [E|L|G]; [|lia|discriminate].
        right. split; [exact E|].
        rewrite Pos.compare_cont_spec in Hhi.
        destruct (Pos.compare_spec m 9007130535264256) as [E'|L|G];
          try discriminate.
        exact (Pos2Z.pos_lt_pos _ _ L). }
      clear Hlo Hhi.
      unfold SFadd in Eadd. cbn [cond_Zopp] in Eadd.
      set (ez := Z.min e (-53)) in *.
      pose proof (shl_align_value m e ez ltac:(subst ez; lia)) as Ha.
      pose proof (shl_align_value (2 ^ 52) (-53) ez ltac:(subst ez; lia)) as Hb.
      set (a := fst (shl_align m e ez)) in *.
      set (b := fst (shl_align (2 ^ 52) (-53) ez)) in *.
      change (Zpos (2 ^ 52)) with (2 ^ 52) in Hb.
      change (Zpos a + Zpos b) with (Zpos (a + b)) in Eadd.
      cbn [binary_normalize] in Eadd.
      destruct (binary_round_value false (a + b) ez ltac:(subst ez; lia))
        as (m' & e' & Er & He' & (_ & HV) & _ & HX).
      pose proof (round_bits_le (a + b)) as Hbits.
      set (sb := Z.max 0 (Zpos (digits2_pos (a + b)) - 53)) in *.
      rewrite Pos2Z.inj_add in HV, HX, Hbits.
      assert (HVK : Zpos m' * 2 ^ (e' + 1074) < 65536 * 2 ^ 1074).
      { destruct (Z.le_gt_cases e (-53)) as [Hsmall|Hbig].
        - (* below one: the coarse bound *)
          assert (Eez : ez = e) by (subst ez; lia). rewrite Eez in *.
          replace (e - e) with 0 in Ha by lia. change (2 ^ 0) with 1 in Ha.
          set (P := 2 ^ (-53 - e)) in *.
          assert (HP : 1 <= P).
          { subst P. change 1 with (2 ^ 0) at 1. apply Z.pow_le_mono_r; lia. }
          set (A := 2 ^ (e + 1074)) in *.
          assert (PA : 0 < A) by (subst A; apply Z.pow_pos_nonneg; lia).
          assert (EAP : A * P = 2 ^ 1021).
          { subst A P. rewrite <- Z.pow_add_r by lia. f_equal. lia. }
          change (2 ^ 1074) with (2 ^ 53 * 2 ^ 1021). rewrite <- EAP.
          nia.
        - (* from one half on: the result is a multiple of 2^-53 *)
          assert (Eez : ez = -53) by (subst ez; lia). rewrite Eez in *.
          replace (-53 - -53) with 0 in Hb by lia. change (2 ^ 0) with 1 in Hb.
          change (2 ^ (-53 + 1074)) with (2 ^ 1021) in *.
          change (2 ^ 1074) with (2 ^ 53 * 2 ^ 1021).
          set (Q := 2 ^ (e - -53)) in *.
          assert (PQ : 0 < Q) by (subst Q; apply Z.pow_pos_nonneg; lia).
          assert (HM69 : Zpos a + Zpos b < 2 ^ 69).
          { destruct Heh as [Hl|[-> Hl]].
            - assert (Q <= 2 ^ 15) by (subst Q; apply Z.pow_le_mono_r; lia). nia.
            - subst Q. change (2 ^ (-37 - -53)) with (2 ^ 16) in *. lia. }
          assert (Hsb : 0 <= sb <= 16).
          { subst sb.
            assert (Zpos (digits2_pos (a + b)) <= 69)
              by (apply digits2_pos_le; rewrite Pos2Z.inj_add; exact HM69).
            lia. }
          assert (H2s : 0 < 2 ^ sb <= 2 ^ 16)
            by (split; [apply Z.pow_pos_nonneg; lia|apply Z.pow_le_mono_r; lia]).
          destruct Heh as [Hl|[-> Hl]].
          + assert (Q <= 2 ^ 15) by (subst Q; apply Z.pow_le_mono_r; lia).
            assert (Zpos a + Zpos b + 2 ^ sb < 2 ^ 69) by nia.
            nia.
          + subst Q. change (2 ^ (-37 - -53)) with (2 ^ 16) in *.
            assert (Hdiv : (Zpos a + Zpos b) mod 2 ^ sb = 0).
            { rewrite Ha, Hb.
              replace (Zpos m * 2 ^ 16 + 2 ^ 52 * 1)
                with ((Zpos m + 2 ^ 36) * 2 ^ (16 - sb) * 2 ^ sb).
              - apply Z.mod_mul. lia.
              - rewrite <- Z.mul_assoc, <- Z.pow_add_r by lia.
                replace (16 - sb + sb) with 16 by lia. lia. }
            rewrite (HX Hdiv). nia. }
      assert (He'' : e' < 16).
      { destruct (Z.lt_ge_cases e' 16); [assumption|].
        assert (2 ^ (16 + 1074) <= 2 ^ (e' + 1074)) by (apply Z.pow_le_mono_r; lia).
        rewrite Z.pow_add_r in H0 by lia. change (2 ^ 16) with 65536 in H0. nia. }
      rewrite Er in Eadd. rewrite (proj2 (Z.leb_le e' 971)) in Eadd by lia.
      rewrite (trunc_scaled _ _ _ _ Eadd He'). cbn [cond_Zopp].
      eexists. split; [reflexivity|].
      assert (0 < 2 ^ (e' + 1074)) by (apply Z.pow_pos_nonneg; lia).
      split.
      * apply Z.div_pos; lia.
      * apply Z.div_lt_upper_bound; lia.
Qed.

Lemma to_ushort_trunc (d : float) (z : Z) :
  trunc d = Some z -> 0 <= z < 65536 -> to_ushort d = z.
Proof.
  intros E Hz. unfold to_ushort, to_int, wrap_ushort. rewrite E.
  destruct (Z.leb_spec (- 2 ^ 31) z); [|lia].
  destruct (Z.ltb_spec z (2 ^ 31)); [|lia].
  cbn [andb]. apply Z.mod_small. lia.
Qed.

(** X6: the assertion of the setters makes the conversion to
    [unsigned short] defined.  When [setFc] or [setV] succeeds, the value
    [tmp + 0.5] it converts is finite and its integer part lies between 0
    and 65535: the field holds that integer part, neither wrapped around
    nor the result of an out-of-range conversion. *)
Theorem setters_store_integer_part (s : Integrator8580) (x : float)
    (s' : Integrator8580) :
  (setFc s x = Ok s' ->
   exists z, trunc (setFc_tmp s x + 0.5)%float = Some z /\
             0 <= z <= 65535 /\ n_dac s' = z) /\
  (setV s x = Ok s' ->
   exists z, trunc (setV_tmp s x + 0.5)%float = Some z /\
             0 <= z <= 65535 /\ nVgt s' = z).
Proof.
  split.
  - unfold setFc. cbv zeta.
    destruct (fits_ushort (setFc_tmp s x)) eqn:E; [|discriminate].
    intros [= <-]. destruct (round_half_in_range _ E) as (z & Hz & Hr).
    exists z. split; [exact Hz|]. split; [lia|].
    cbn [n_dac with_n_dac]. apply to_ushort_trunc; assumption.
  - unfold setV.
    destruct (negb _); [discriminate|]. cbv zeta.
    destruct (fits_ushort (setV_tmp s x)) eqn:E; [|discriminate].
    intros [= <-]. destruct (round_half_in_range _ E) as (z & Hz & Hr).
    exists z. split; [exact Hz|]. split; [lia|].
    cbn [nVgt with_nVgt]. apply to_ushort_trunc; assumption.
Qed.

Lemma setters_store_integer_part_witness :
  (exists z, trunc (setFc_tmp (flat_example 40000 3) 0.01 + 0.5)%float = Some z /\
             0 <= z <= 65535 /\
             n_dac (with_n_dac (flat_example 40000 3) 82) = z) /\
  (exists z, trunc (setV_tmp (flat_example 40000 3) 1.5 + 0.5)%float = Some z /\
             0 <= z <= 65535 /\
             nVgt (with_nVgt (flat_example 40000 3) 5) = z).
Proof.
  split.
  - exact (proj1 (setters_store_integer_part (flat_example 40000 3) 0.01 _)
             setFc_flat_example).
  - exact (proj2 (setters_store_integer_part (flat_example 40000 3) 1.5 _)
             setV_flat_example).
Defined.

(** ** Integrator8580: the setters together, and the constructor *)

Lemma setFc_Ok_inv (s : Integrator8580) (wl : float) (s' : Integrator8580) :
  setFc s wl = Ok s' ->
  fits_ushort (setFc_tmp s wl) = true /\
  s' = with_n_dac s (to_ushort (setFc_tmp s wl + 0.5)%float).
Proof.
  unfold setFc. cbv zeta.
  destruct (fits_ushort _); [|discriminate]. intros [= <-]. auto.
Qed.

Lemma setV_Ok_inv (s : Integrator8580) (v : float) (s' : Integrator8580) :
  setV s v = Ok s' ->
  (1.0 <? v)%float && (v <? 2.0)%float = true /\
  fits_ushort (setV_tmp s v) = true /\
  s' = with_nVgt s (to_ushort (setV_tmp s v + 0.5)%float).
Proof.
  unfold setV.
  destruct ((1.0 <? v)%float && (v <? 2.0)%float); [|discriminate].
  cbn [negb]. cbv zeta.
  destruct (fits_ushort _); [|discriminate]. intros [= <-]. auto.
Qed.

(** X7: the two setters do not interfere.  [setFc] followed by [setV]
    leaves the object [setV] followed by [setFc] leaves, with the same
    arguments, and either order succeeds when the other does. *)
Theorem setters_commute (s : Integrator8580) (wl v : float) :
  (s1 ← setFc s wl; setV s1 v) = (s2 ← setV s v; setFc s2 wl) \/
  (exists f1 f2, (s1 ← setFc s wl; setV s1 v) = Fail f1 /\
                 (s2 ← setV s v; setFc s2 wl) = Fail f2).
Proof.
  unfold setFc, setV. cbv zeta.
  change (setFc_tmp (with_nVgt s ?x) wl) with (setFc_tmp s wl).
  destruct (fits_ushort (setFc_tmp s wl)) eqn:EF; cbn [mbind result_bind].
  - change (setV_tmp (with_n_dac s ?x) v) with (setV_tmp s v).
    destruct (negb _); cbn [mbind result_bind]; [left; reflexivity|].
    destruct (fits_ushort (setV_tmp s v)); cbn [mbind result_bind];
      [|left; reflexivity].
    change (setFc_tmp (with_nVgt s ?x) wl) with (setFc_tmp s wl).
    rewrite EF. left. reflexivity.
  - destruct (negb _); cbn [mbind result_bind]; [right; eauto|].
    destruct (fits_ushort (setV_tmp s v)); cbn [mbind result_bind];
      [|right; eauto].
    change (setFc_tmp (with_nVgt s ?x) wl) with (setFc_tmp s wl).
    rewrite EF. right. eauto.
Qed.

(** X8: the constructor.  Its call [setV(1.5)] never fails the assertion
    [1 < v < 2]; the constructor fails exactly when
    [N16 * (vdv * 1.5 - Vth - vmin)] lies outside (-0.5, 65535.5).  The new
    object has [vx = vc = 0] and the table it was given, [nVgt] holds the
    integer part of that value plus one half, between 0 and 65535, and
    [n_dac], which no initialiser and no statement of the constructor
    assigns, holds what the storage held. *)
Theorem constructor_postcondition (n_dac0 nVgt0 : Z) (rev : list Z)
    (vdv vth nkp vmn n16 : float) :
  match Integrator8580_new n_dac0 nVgt0 rev vdv vth nkp vmn n16 with
  | Ok s =>
      fits_ushort (n16 * (vdv * 1.5 - vth - vmn))%float = true /\
      vx s = 0 /\ vc s = 0 /\ opamp_rev s = rev /\ n_dac s = n_dac0 /\
      exists z, trunc (n16 * (vdv * 1.5 - vth - vmn) + 0.5)%float = Some z /\
                0 <= z <= 65535 /\ nVgt s = z
  | Fail f =>
      f = Assert_setV_range /\
      fits_ushort (n16 * (vdv * 1.5 - vth - vmn))%float = false
  end.
Proof.
  unfold Integrator8580_new, setV.
  change ((1.0 <? 1.5)%float && (1.5 <? 2.0)%float) with true. cbn [negb].
  cbv zeta. unfold setV_tmp. cbn [voice_DC_voltage Vth vmin N16].
  destruct (fits_ushort _) eqn:E.
  - cbn [with_nVgt vx vc opamp_rev nVgt n_dac].
    split; [reflexivity|]. repeat (split; [reflexivity|]).
    destruct (round_half_in_range _ E) as (z & Hz & Hr).
    exists z. split; [exact Hz|]. split; [lia|].
    apply to_ushort_trunc; assumption.
  - split; reflexivity.
Qed.

(** * Further properties of the Bessel function *)

(** ** I0 is even *)

Lemma binary_round_aux_opp (s : bool) (m e : Z) (l : location) :
  SFopp (binary_round_aux prec emax s m e l)
  = binary_round_aux prec emax (negb s) m e l.
Proof.
  unfold binary_round_aux.
  destruct (shr_fexp prec emax m e l) as [mrs e'].
  destruct (shr_fexp prec emax _ e' loc_Exact) as [mrs' e''].
  destruct (shr_m mrs'); try reflexivity.
  destruct (e'' <=? emax - prec); reflexivity.
Qed.

Lemma SFdiv_opp_l (x y : spec_float) :
  SFdiv prec emax (SFopp x) y = SFopp (SFdiv prec emax x y).
Proof.
  destruct x as [sx|sx| |sx mx ex], y as [sy|sy| |sy my ey];
    try reflexivity; try (destruct sx, sy; reflexivity).
  unfold SFdiv, SFopp at 1.
  destruct (SFdiv_core_binary prec emax (Zpos mx) ex (Zpos my) ey) as [[mz ez] lz].
  rewrite binary_round_aux_opp. destruct sx, sy; reflexivity.
Qed.

Lemma SFmul_opp_opp (x : spec_float) :
  SFmul prec emax (SFopp x) (SFopp x) = SFmul prec emax x x.
Proof. destruct x as [[|]|[|]| |[|] m e]; reflexivity. Qed.

(** The square of [halfx / n] does not see the sign of [halfx]. *)
Lemma square_opp (h n : float) :
  ((- h / n) * (- h / n))%float = ((h / n) * (h / n))%float.
Proof.
  apply Prim2SF_inj.
  rewrite !mul_spec, !div_spec, opp_spec.
  unfold SF64mul, SF64div. rewrite SFdiv_opp_l. apply SFmul_opp_opp.
Qed.

Lemma I0_loop_opp (fuel : nat) (h sum u n : float) :
  I0_loop fuel (- h)%float sum u n = I0_loop fuel h sum u n.
Proof.
  revert sum u n. induction fuel as [|fuel IH]; intros sum u n; [reflexivity|].
  cbn [I0_loop]. cbv zeta. rewrite square_opp.
  destruct (_ <=? _)%float; [apply IH|reflexivity].
Qed.

(** X9: [I0] is an even function, bit for bit: [I0(-x)] returns what
    [I0(x)] returns, after the same number of iterations, and runs forever
    when [I0(x)] does. *)
Theorem I0_even (fuel : nat) (x : float) :
  I0 fuel (- x)%float = I0 fuel x.
Proof.
  unfold I0.
  assert (E : (- x / 2)%float = (- (x / 2))%float).
  { apply Prim2SF_inj. rewrite div_spec, !opp_spec, div_spec.
    apply SFdiv_opp_l. }
  rewrite E. apply I0_loop_opp.
Qed.

(** ** I0 is never below one *)

(** A positive double of value at least 1, or +infinity. *)
Definition ge_one (x : spec_float) : Prop :=
  match x with
  | S754_finite false m e => -1074 <= e /\ 2 ^ 1074 <= Zpos m * 2 ^ (e + 1074)
  | S754_infinity false => True
  | _ => False
  end.

(** +0, a positive number or +infinity. *)
Definition nonneg (x : spec_float) : Prop :=
  match x with
  | S754_zero false | S754_finite false _ _ | S754_infinity false => True
  | _ => False
  end.

Definition nonneg_or_nan (x : spec_float) : Prop :=
  match x with
  | S754_nan => True
  | _ => nonneg x
  end.

Lemma binary_round_aux_nonneg (m e : Z) (l : location) :
  nonneg_or_nan (binary_round_aux prec emax false m e l).
Proof.
  unfold binary_round_aux.
  destruct (shr_fexp prec emax m e l) as [mrs e'].
  destruct (shr_fexp prec emax _ e' loc_Exact) as [mrs' e''].
  destruct (shr_m mrs'); try exact I.
  destruct (e'' <=? emax - prec); exact I.
Qed.

Lemma square_nonneg (t : spec_float) : nonneg_or_nan (SFmul prec emax t t).
Proof.
  destruct t as [[|]|[|]| |[|] m e]; try exact I;
    apply binary_round_aux_nonneg.
Qed.

Lemma mul_nonneg (u q : spec_float) :
  nonneg u -> nonneg_or_nan q -> nonneg_or_nan (SFmul prec emax u q).
Proof.
  destruct u as [[|]|[|]| |[|] mu eu]; try contradiction;
    destruct q as [[|]|[|]| |[|] mq eq]; try contradiction; intros _ _;
    try exact I; apply binary_round_aux_nonneg.
Qed.

Lemma add_ge_one (s u : spec_float) :
  ge_one s -> nonneg u ->
  (forall m e, u = S754_finite false m e -> -1074 <= e) ->
  ge_one (SFadd prec emax s u).
Proof.
  destruct s as [ | [|] | |[|] ms es]; try contradiction;
    destruct u as [[|]|[|]| |[|] mu eu]; try contradiction;
    intros Hs _ Hu; try exact I; try exact Hs.
  destruct Hs as [Hes HK]. specialize (Hu mu eu eq_refl).
  unfold SFadd. cbn [cond_Zopp].
  set (ez := Z.min es eu).
  pose proof (shl_align_value ms es ez ltac:(subst ez; lia)) as Ha.
  pose proof (shl_align_value mu eu ez ltac:(subst ez; lia)) as Hb.
  set (a := fst (shl_align ms es ez)) in *.
  set (b := fst (shl_align mu eu ez)) in *.
  change (Zpos a + Zpos b) with (Zpos (a + b)). cbn [binary_normalize].
  destruct (binary_round_value false (a + b) ez ltac:(subst ez; lia))
    as (m' & e' & -> & He' & (HV & _) & HV52 & _).
  set (sb := Z.max 0 (Zpos (digits2_pos (a + b)) - 53)) in *.
  set (U := 2 ^ (ez + 1074)) in *.
  assert (PU : 0 < U) by (subst U; apply Z.pow_pos_nonneg; subst ez; lia).
  assert (HW : 2 ^ 1074 <= Zpos (a + b) * U).
  { rewrite Pos2Z.inj_add, Ha.
    assert (E : Zpos ms * 2 ^ (es - ez) * U = Zpos ms * 2 ^ (es + 1074)).
    { subst U. rewrite <- Z.mul_assoc, <- Z.pow_add_r by (subst ez; lia).
      f_equal. f_equal. lia. }
    nia. }
  assert (HVK : 2 ^ 1074 <= Zpos m' * 2 ^ (e' + 1074)).
  { destruct (Z.le_gt_cases (Zpos (digits2_pos (a + b))) 53) as [Hshort|Hlong].
    - assert (Es : sb = 0) by (subst sb; lia).
      rewrite Es in HV. change (2 ^ 0) with 1 in HV.
      rewrite Z.div_1_r, Z.mul_1_r in HV. lia.
    - assert (Es : sb = Zpos (digits2_pos (a + b)) - 53) by (subst sb; lia).
      specialize (HV52 ltac:(lia)).
      destruct (digits2_pos_bounds (a + b)) as [_ Hhi].
      set (d := Zpos (digits2_pos (a + b))) in *.
      assert (Hlt : 2 ^ 1074 < 2 ^ (d + (ez + 1074))).
      { rewrite Z.pow_add_r by (subst ez; lia). fold U. nia. }
      apply Z.pow_lt_mono_r_iff in Hlt; [|lia|subst ez; lia].
      assert (E : 2 ^ 52 * 2 ^ sb * U = 2 ^ (d - 1 + (ez + 1074))).
      { subst U. rewrite <- !Z.pow_add_r by (subst ez; lia). f_equal. lia. }
      rewrite E in HV52.
      assert (2 ^ 1074 <= 2 ^ (d - 1 + (ez + 1074)))
        by (apply Z.pow_le_mono_r; lia).
      lia. }
  destruct (e' <=? 971); [split; assumption|exact I].
Qed.

Lemma I0_loop_ge_one (fuel : nat) (h sum u n v : float) :
  ge_one (Prim2SF sum) -> nonneg (Prim2SF u) ->
  I0_loop fuel h sum u n = Ok v ->
  Prim2SF v = S754_nan \/ ge_one (Prim2SF v).
Proof.
  revert sum u n. induction fuel as [|fuel IH]; intros sum u n Hs Hu;
    [discriminate|].
  cbn [I0_loop]. cbv zeta.
  set (u' := (u * (h / n * (h / n)))%float).
  set (sum' := (sum + u')%float).
  assert (Hu' : nonneg_or_nan (Prim2SF u')).
  { subst u'. rewrite mul_spec, mul_spec.
    apply mul_nonneg; [exact Hu|apply square_nonneg]. }
  assert (Es : Prim2SF sum' = SFadd prec emax (Prim2SF sum) (Prim2SF u'))
    by (subst sum'; apply add_spec).
  destruct (Prim2SF u') as [su|su| |su mu eu] eqn:Eu.
  - (* the term is a zero *)
    assert (Hs' : ge_one (Prim2SF sum')).
    { rewrite Es. apply add_ge_one; [exact Hs|exact Hu'|discriminate]. }
    destruct (_ <=? _)%float.
    + apply IH; [exact Hs'|rewrite Eu; exact Hu'].
    + intros [= <-]. right. exact Hs'.
  - assert (Hs' : ge_one (Prim2SF sum')).
    { rewrite Es. apply add_ge_one; [exact Hs|exact Hu'|discriminate]. }
    destruct (_ <=? _)%float.
    + apply IH; [exact Hs'|rewrite Eu; exact Hu'].
    + intros [= <-]. right. exact Hs'.
  - (* the term is a NaN: the test fails and the sum, a NaN, is returned *)
    assert (Et : (I0E * sum' <=? u')%float = false).
    { rewrite leb_spec, Eu.
      destruct (Prim2SF (I0E * sum')%float) as [[|]|[|]| |[|] ? ?]; reflexivity. }
    rewrite Et. intros [= <-]. left. rewrite Es.
    destruct (Prim2SF sum) as [[|]|[|]| |[|] ? ?]; reflexivity.
  - assert (Hs' : ge_one (Prim2SF sum')).
    { rewrite Es. apply add_ge_one; [exact Hs|exact Hu'|].
      intros m e [= _ <- <-].
      destruct (finite_range u' su mu eu); [exact Eu|lia]. }
    destruct (_ <=? _)%float.
    + apply IH; [exact Hs'|rewrite Eu; exact Hu'].
    + intros [= <-]. right. exact Hs'.
Qed.

Lemma ge_one_leb (v : float) : ge_one (Prim2SF v) -> (1 <=? v)%float = true.
Proof.
  intros H. rewrite leb_spec.
  change (Prim2SF 1) with (S754_finite false (2 ^ 52) (-52)).
  destruct (Prim2SF v) as [s|[|]| |[|] m e] eqn:E; try contradiction;
    [reflexivity|].
  destruct H as [He HK].
  destruct (finite_range v false m e E) as (_ & Hm & _).
  unfold SFleb, SFcompare.
  destruct (Z.compare_spec (-52) e) as [<-|Hlt|Hgt]; [|reflexivity|].
  - rewrite Pos.compare_cont_spec. unfold Pos.switch_Eq.
    destruct (Pos.compare_spec (2 ^ 52) m) as [_|_|G]; try reflexivity.
    apply Pos2Z.pos_lt_pos in G.
    change (Zpos (2 ^ 52)) with (2 ^ 52) in G.
    change (2 ^ (-52 + 1074)) with (2 ^ 1022) in HK.
    change (2 ^ 1074) with (2 ^ 52 * 2 ^ 1022) in HK.
    assert (0 < 2 ^ 1022) by (apply Z.pow_pos_nonneg; lia). nia.
  - exfalso.
    assert (2 ^ (e + 1074) <= 2 ^ 1021) by (apply Z.pow_le_mono_r; lia).
    change (2 ^ 1074) with (2 ^ 53 * 2 ^ 1021) in HK.
    assert (0 < 2 ^ (e + 1074)) by (apply Z.pow_pos_nonneg; lia). nia.
Qed.

(** X10: [I0] never returns a value below 1.  Whatever its argument,
    a value it returns is a NaN or at least 1.0: the sum starts at 1 and
    every term added to it is a product of squares. *)
Theorem I0_at_least_one (fuel : nat) (x v : float) :
  I0 fuel x = Ok v ->
  Prim2SF v = S754_nan \/ (1 <=? v)%float = true.
Proof.
  unfold I0. intros H.
  destruct (I0_loop_ge_one fuel (x / 2)%float 1 1 1 v) as [Hn|Hg];
    [| |exact H|left; exact Hn|right; apply ge_one_leb; exact Hg].
  - change (Prim2SF 1) with (S754_finite false (2 ^ 52) (-52)).
    split; [lia|]. change (2 ^ (-52 + 1074)) with (2 ^ 1022).
    change (2 ^ 1074) with (2 ^ 52 * 2 ^ 1022).
    change (Zpos (2 ^ 52)) with (2 ^ 52). lia.
  - exact I.
Qed.

Lemma I0_at_least_one_witness :
  Prim2SF 1 = S754_nan \/ (1 <=? 1)%float = true.
Proof. exact (I0_at_least_one 1 0 1 eq_refl). Defined.

(** * Further properties of the resampler *)

(** ** convolve: what it reads *)

Lemma convolve_loop_defined (a b : list f32) (n : nat) (out : f32) :
  is_Ok (convolve_loop a b n out) <-> (n <= length a)%nat /\ (n <= length b)%nat.
Proof.
  revert a b out. induction n as [|n IH]; intros a b out; cbn [convolve_loop].
  - cbn. split; [lia|auto].
  - destruct a as [|x a]; [cbn; split; [tauto|lia]|].
    destruct b as [|y b]; [cbn; split; [tauto|lia]|].
    rewrite IH. cbn [length]. lia.
Qed.

(** X11: [convolve] returns exactly when neither array ends before
    [bLength] elements, and reads outside one of them otherwise; with
    [bLength <= 0] the loop body is never entered and the result is +0.0
    whatever the arrays are. *)
Theorem convolve_defined_iff (a b : list f32) (bLength : Z) :
  (is_Ok (convolve a b bLength) <->
     bLength <= Z.of_nat (length a) /\ bLength <= Z.of_nat (length b)) /\
  (~ is_Ok (convolve a b bLength) ->
     convolve a b bLength = Fail Undefined_behaviour) /\
  (bLength <= 0 -> convolve a b bLength = Ok f32_zero).
Proof.
  unfold convolve. split; [|split].
  - rewrite convolve_loop_defined. lia.
  - generalize f32_zero. generalize (Z.to_nat bLength). intros n. revert a b.
    induction n as [|n IH]; intros a b out; cbn [convolve_loop].
    + cbn. tauto.
    + destruct a as [|x a]; [reflexivity|].
      destruct b as [|y b]; [reflexivity|]. apply IH.
  - intros H. replace (Z.to_nat bLength) with 0%nat by lia. reflexivity.
Qed.

Lemma f32_add_nan (out : f32) : f32_add out S754_nan = S754_nan.
Proof. destruct out as [[|]|[|]| |[|] m e]; reflexivity. Qed.

Lemma f32_mul_nan_l (y : f32) : f32_mul S754_nan y = S754_nan.
Proof. destruct y as [[|]|[|]| |[|] m e]; reflexivity. Qed.

Lemma f32_mul_nan_r (x : f32) : f32_mul x S754_nan = S754_nan.
Proof. destruct x as [[|]|[|]| |[|] m e]; reflexivity. Qed.

Lemma convolve_loop_nan_at (a b : list f32) (n j : nat) (out : f32) :
  (n <= length a)%nat -> (n <= length b)%nat -> (j < n)%nat ->
  a !! j = Some S754_nan \/ b !! j = Some S754_nan ->
  convolve_loop a b n out = Ok S754_nan.
Proof.
  revert a b j out. induction n as [|n IH]; intros a b j out Ha Hb Hj Hnan;
    [lia|].
  destruct a as [|x a]; [cbn in Ha; lia|].
  destruct b as [|y b]; [cbn in Hb; lia|].
  cbn [convolve_loop]. cbn [length] in Ha, Hb.
  destruct j as [|j].
  - assert (E : f32_mul x y = S754_nan).
    { destruct Hnan as [H|H]; injection H as ->;
        [apply f32_mul_nan_l|apply f32_mul_nan_r]. }
    rewrite E, f32_add_nan. apply convolve_loop_nan; lia.
  - apply (IH a b j); [lia|lia|lia|exact Hnan].
Qed.

(** X12: one NaN among the [bLength] samples or the [bLength] coefficients
    read makes the result of [convolve] a NaN. *)
Theorem convolve_nan (a b : list f32) (bLength : Z) (j : nat) :
  bLength <= Z.of_nat (length a) -> bLength <= Z.of_nat (length b) ->
  Z.of_nat j < bLength ->
  a !! j = Some S754_nan \/ b !! j = Some S754_nan ->
  convolve a b bLength = Ok S754_nan.
Proof.
  intros Ha Hb Hj Hnan. unfold convolve.
  apply (convolve_loop_nan_at a b _ j); [lia|lia|lia|exact Hnan].
Qed.

Lemma convolve_nan_witness :
  convolve [f32_of_int 1; S754_nan; f32_of_int 3]
           [f32_of_int 1; f32_of_int 2; f32_of_int 1] 3 = Ok S754_nan.
Proof.
  apply (convolve_nan _ _ 3 1%nat); cbn [length]; try lia.
  left. reflexivity.
Defined.

Section ResamplerCalls.

Variable RINGSIZE : Z.


(** ** fir: the phases it is defined at *)

Lemma at_index_Fail {A} (l : list A) (i : Z) :
  i < 0 \/ Z.of_nat (length l) <= i -> at_index l i = Fail Undefined_behaviour.
Proof.
  intros H. unfold at_index, lookupZ.
  destruct (Z.ltb_spec i 0); [reflexivity|].
  rewrite lookup_ge_None_2 by lia. reflexivity.
Qed.

(** A phase outside [[0, 1024)] selects a row outside the table. *)
Lemma fir_row_outside (cache : fir_cache_t) (r : SincResampler) (subcycle : Z) :
  resampler_wf RINGSIZE cache r -> - 2 ^ 11 <= subcycle <= 2 ^ 11 ->
  ~ 0 <= subcycle < 1024 ->
  fir RINGSIZE cache r subcycle = Fail Undefined_behaviour.
Proof.
  intros (T & HT & Hrows & Hcols & Hres & HN & (k & Hk & HR) & Hlen & Hi) Hs Hout.
  pose proof (pow2_le_29 k Hk) as HR29. rewrite <- HR in HR29.
  unfold fir. rewrite HT.
  set (start := sampleIndex r - firN r + RINGSIZE - 1).
  assert (Hstart : 0 <= start /\ start + 1 <= 2 * RINGSIZE) by (subst start; lia).
  clearbody start.
  rewrite (wrap_int_id start) by (unfold in_int; lia).
  rewrite (offset_Ok _ start) by lia. cbn [mbind result_bind].
  assert (Hp : - 2 ^ 31 < subcycle * firRES r < 2 ^ 31) by nia.
  rewrite (wrap_int_id (subcycle * firRES r)) by (unfold in_int; lia).
  rewrite Z.shiftr_div_pow2 by lia. change (2 ^ 10) with 1024.
  rewrite (at_index_Fail T (subcycle * firRES r / 1024)); [reflexivity|].
  rewrite Hrows.
  destruct (Z.lt_ge_cases subcycle 0) as [Hneg|Hpos].
  - left. apply Z.div_lt_upper_bound; nia.
  - right. apply Z.div_le_lower_bound; nia.
Qed.

(** X13: [fir(subcycle)] reads inside the ring buffer and inside the table
    exactly for the phases [0 <= subcycle < 1024]; a negative phase or one
    from 1024 on selects a row outside the table.  (Phases from -2048 to
    2048 are considered: for them [subcycle * firRES] fits an [int].) *)
Theorem fir_defined_iff (cache : fir_cache_t) (r : SincResampler) (subcycle : Z) :
  resampler_wf RINGSIZE cache r -> - 2 ^ 11 <= subcycle <= 2 ^ 11 ->
  (is_Ok (fir RINGSIZE cache r subcycle) <-> 0 <= subcycle < 1024) /\
  (~ 0 <= subcycle < 1024 ->
   fir RINGSIZE cache r subcycle = Fail Undefined_behaviour).
Proof.
  intros Hwf Hs.
  assert (Hin : 0 <= subcycle < 1024 -> is_Ok (fir RINGSIZE cache r subcycle)).
  { destruct Hwf as (T & HT & Hrows & Hcols & Hres & HN & (k & Hk & HR) & Hlen & Hi).
    pose proof (pow2_le_29 k Hk) as HR29. rewrite <- HR in HR29.
    intros Hin.
    rewrite (fir_resolved RINGSIZE cache r T subcycle) by (assumption || lia).
    destruct (fir_rows_Ok T (sample r) (sampleIndex r - firN r + RINGSIZE - 1)
                (firN r) (firRES r) subcycle) as [v ->];
      try assumption; try lia.
    exact I. }
  split; [split; [|exact Hin]|apply fir_row_outside; assumption].
  intros Hok. destruct (decide (0 <= subcycle < 1024)) as [|Hout]; [assumption|].
  rewrite (fir_row_outside cache r subcycle Hwf Hs Hout) in Hok. destruct Hok.
Qed.

(** ** input: one call *)

(** One call of [input] in a well-formed state, if it returns: the two
    writes and the advance of the cursor are those of [written]. *)
Lemma input_Ok_written (cache : fir_cache_t) (r : SincResampler) (x : f32)
    (b : bool) (r' : SincResampler) :
  resampler_wf RINGSIZE cache r -> input RINGSIZE cache r x = Ok (b, r') ->
  b = (sampleOffset r <? 1024) /\
  exists v, r' = with_offset (with_output (written RINGSIZE r x) v) (sampleOffset r') /\
            (b = false -> v = outputValue r) /\
            (b = true -> fir RINGSIZE cache (written RINGSIZE r x) (sampleOffset r) = Ok v) /\
            sampleOffset r'
            = wrap_int (sampleOffset r
                        + (if b then cyclesPerSample r else 0) - 1024).
Proof.
  intros (T & HT & Hrows & Hcols & Hres & HN & (k & Hk & HR) & Hlen & Hi).
  pose proof (pow2_le_29 k Hk) as HR29. rewrite <- HR in HR29.
  unfold input.
  destruct (Z.leb_spec 0 (sampleIndex r)); [|lia].
  destruct (Z.ltb_spec (sampleIndex r + RINGSIZE) (Z.of_nat (length (sample r))));
    [|lia].
  cbn [andb negb]. cbv zeta.
  rewrite (wrap_int_id (sampleIndex r + 1)) by (unfold in_int; lia).
  assert (Eland : Z.land (sampleIndex r + 1) (RINGSIZE - 1)
                  = (sampleIndex r + 1) mod RINGSIZE)
    by (rewrite HR; apply land_ring; lia).
  rewrite Eland. fold (written RINGSIZE r x).
  change (sampleOffset (written RINGSIZE r x)) with (sampleOffset r).
  change (cyclesPerSample (written RINGSIZE r x)) with (cyclesPerSample r).
  destruct (sampleOffset r <? 1024).
  - destruct (fir RINGSIZE cache (written RINGSIZE r x) (sampleOffset r)) as [v|f] eqn:Ef;
      cbn [mbind result_bind]; [|discriminate].
    intros [= <- <-]. split; [reflexivity|].
    exists v. cbn [sampleOffset with_offset].
    split; [reflexivity|]. split; [discriminate|]. split; [auto|reflexivity].
  - intros [= <- <-]. split; [reflexivity|].
    exists (outputValue r). cbn [sampleOffset with_offset].
    split; [reflexivity|]. split; [auto|]. split; [discriminate|].
    rewrite Z.add_0_r. reflexivity.
Qed.

Lemma input_Ok_wf (cache : fir_cache_t) (r : SincResampler) (x : f32)
    (b : bool) (r' : SincResampler) :
  resampler_wf RINGSIZE cache r -> input RINGSIZE cache r x = Ok (b, r') ->
  resampler_wf RINGSIZE cache r' /\ same_config r r'.
Proof.
  intros Hwf H.
  destruct (input_Ok_written cache r x b r' Hwf H) as (_ & v & -> & _).
  split.
  - exact (written_wf RINGSIZE cache r x Hwf).
  - repeat split.
Qed.

(** One call of [input] with the phase accumulator in range: it returns. *)
Lemma input_total (cache : fir_cache_t) (r : SincResampler) (x : f32) :
  resampler_wf RINGSIZE cache r -> phase_in_range r ->
  exists r', input RINGSIZE cache r x = Ok (sampleOffset r <? 1024, r') /\
    sampleOffset r'
    = sampleOffset r
      + (if sampleOffset r <? 1024 then cyclesPerSample r else 0) - 1024 /\
    sampleIndex r' = (sampleIndex r + 1) mod RINGSIZE.
Proof.
  intros Hwf Hph.
  pose proof (written_wf RINGSIZE cache r x Hwf) as Hw.
  destruct Hwf as (T & HT & Hwf).
  rewrite (input_resolved RINGSIZE cache r x T) by (try exists T; tauto).
  destruct Hw as (T' & HT' & Hrows & Hcols & Hres & HN & (k & Hk & HR) & Hlen & Hi).
  change (firTable (written RINGSIZE r x)) with (firTable r) in HT'.
  assert (T' = T) as -> by congruence.
  destruct Hph as (Ho & Hc & Hoc).
  destruct (Z.ltb_spec (sampleOffset r) 1024) as [Hlt|Hge].
  - destruct (fir_rows_Ok T (sample (written RINGSIZE r x))
                (sampleIndex (written RINGSIZE r x) - firN r + RINGSIZE - 1)
                (firN r) (firRES r) (sampleOffset r)) as [v ->];
      try assumption; try lia.
    cbn [mbind result_bind]. eexists. split; [reflexivity|].
    cbn [sampleOffset sampleIndex with_offset with_output written with_sample].
    split; reflexivity.
  - eexists. split; [reflexivity|].
    cbn [sampleOffset sampleIndex with_offset with_output written with_sample].
    split; [lia|reflexivity].
Qed.

(** ** input: a stream of samples *)

(** X14: with [1024 <= cyclesPerSample] and the phase accumulator in
    [[0, cyclesPerSample)], every call of [input] returns, whatever the
    samples are, and the accumulator stays in that range.  After [n] calls
    of which [k] returned [ready], it holds
    [sampleOffset + k * cyclesPerSample - 1024 * n], and the write cursor
    has advanced by [n] modulo [RINGSIZE]. *)
Theorem input_stream_rate (cache : fir_cache_t) (xs : list f32)
    (r : SincResampler) :
  resampler_wf RINGSIZE cache r ->
  1024 <= cyclesPerSample r < 2 ^ 30 ->
  0 <= sampleOffset r < cyclesPerSample r ->
  exists outs r',
    input_all RINGSIZE cache r xs = Ok (outs, r') /\
    length outs = length xs /\
    sampleOffset r'
    = sampleOffset r + readies outs * cyclesPerSample r
      - 1024 * Z.of_nat (length xs) /\
    0 <= sampleOffset r' < cyclesPerSample r /\
    sampleIndex r' = (sampleIndex r + Z.of_nat (length xs)) mod RINGSIZE /\
    resampler_wf RINGSIZE cache r'.
Proof.
  revert r. induction xs as [|x xs IH]; intros r Hwf Hc Ho.
  - exists [], r. cbn [input_all length readies].
    split; [reflexivity|]. split; [reflexivity|]. split; [lia|].
    split; [lia|]. split; [|exact Hwf].
    destruct Hwf as (_ & _ & _ & _ & _ & _ & _ & _ & Hi).
    rewrite Z.add_0_r, Z.mod_small by lia. reflexivity.
  - assert (Hph : phase_in_range r) by (unfold phase_in_range; lia).
    destruct (input_total cache r x Hwf Hph) as (r1 & E1 & Ho1 & Hi1).
    destruct (input_Ok_wf cache r x _ r1 Hwf E1) as (Hwf1 & (_ & _ & _ & Ec)).
    assert (Hr1 : 0 <= sampleOffset r1 < cyclesPerSample r1).
    { rewrite <- Ec, Ho1. destruct (Z.ltb_spec (sampleOffset r) 1024); lia. }
    destruct (IH r1 Hwf1 ltac:(rewrite <- Ec; exact Hc) Hr1)
      as (outs & r' & E & Hlen & Hoff & Hrange & Hidx & Hwf').
    exists ((sampleOffset r <? 1024, outputValue r1) :: outs), r'.
    cbn [input_all]. rewrite E1. cbn [mbind result_bind fst snd].
    rewrite E. cbn [mbind result_bind fst snd].
    split; [reflexivity|]. split; [cbn [length]; lia|].
    rewrite <- Ec in Hoff, Hrange.
    split; [|split; [exact Hrange|split; [|exact Hwf']]].
    + rewrite Hoff, Ho1. cbn [readies length].
      destruct (sampleOffset r <? 1024); lia.
    + rewrite Hidx, Hi1. cbn [length].
      rewrite Zplus_mod_idemp_l. f_equal. lia.
Qed.

(** X15: the resampler cannot run with fewer than 1024 phase steps per
    output.  When [sampleOffset + cyclesPerSample < 1024] at a call of
    [input], the call returns [ready] and leaves a negative
    [sampleOffset]; the next call passes it to [fir], where the test
    [sampleOffset < 1024] lets it through, and a row before the start of
    the table is read. *)
Theorem input_faults_below_1024 (cache : fir_cache_t) (r : SincResampler)
    (x y : f32) :
  resampler_wf RINGSIZE cache r ->
  0 <= sampleOffset r -> 0 <= cyclesPerSample r ->
  sampleOffset r + cyclesPerSample r < 1024 ->
  exists r1,
    input RINGSIZE cache r x = Ok (true, r1) /\
    sampleOffset r1 = sampleOffset r + cyclesPerSample r - 1024 /\
    input RINGSIZE cache r1 y = Fail Undefined_behaviour.
Proof.
  intros Hwf Ho Hc Hlow.
  assert (Hph : phase_in_range r) by (unfold phase_in_range; lia).
  destruct (input_total cache r x Hwf Hph) as (r1 & E1 & Ho1 & _).
  destruct (Z.ltb_spec (sampleOffset r) 1024) as [_|]; [|lia].
  exists r1. split; [exact E1|]. split; [exact Ho1|].
  destruct (input_Ok_wf cache r x _ r1 Hwf E1) as (Hwf1 & _).
  pose proof (written_wf RINGSIZE cache r1 y Hwf1) as Hw.
  assert (Hf : fir RINGSIZE cache (written RINGSIZE r1 y) (sampleOffset r1)
               = Fail Undefined_behaviour)
    by (apply fir_row_outside; [exact Hw|lia|lia]).
  destruct Hwf1 as (T & HT & Hrows & Hcols & Hres & HN & (k & Hk & HR) & Hlen & Hi).
  pose proof (pow2_le_29 k Hk) as HR29. rewrite <- HR in HR29.
  unfold input.
  destruct (Z.leb_spec 0 (sampleIndex r1)); [|lia].
  destruct (Z.ltb_spec (sampleIndex r1 + RINGSIZE) (Z.of_nat (length (sample r1))));
    [|lia].
  cbn [andb negb]. cbv zeta.
  rewrite (wrap_int_id (sampleIndex r1 + 1)) by (unfold in_int; lia).
  assert (Eland : Z.land (sampleIndex r1 + 1) (RINGSIZE - 1)
                  = (sampleIndex r1 + 1) mod RINGSIZE)
    by (rewrite HR; apply land_ring; lia).
  rewrite Eland. fold (written RINGSIZE r1 y).
  change (sampleOffset (written RINGSIZE r1 y)) with (sampleOffset r1).
  destruct (Z.ltb_spec (sampleOffset r1) 1024); [|lia].
  rewrite Hf. reflexivity.
Qed.

End ResamplerCalls.

Section ResamplerHistory.

Variable RINGSIZE : Z.

(** ** input: what it writes *)

(** X16: one call of [input] stores the sample at the write cursor in both
    halves of the array and changes no other element; if the two halves
    held the same samples before the call, they do after it. *)
Theorem input_writes_both_halves (cache : fir_cache_t) (r : SincResampler)
    (x : f32) (b : bool) (r' : SincResampler) :
  resampler_wf RINGSIZE cache r ->
  input RINGSIZE cache r x = Ok (b, r') ->
  rd (sample r') (sampleIndex r) = Some x /\
  rd (sample r') (sampleIndex r + RINGSIZE) = Some x /\
  (forall p, 0 <= p -> p <> sampleIndex r -> p <> sampleIndex r + RINGSIZE ->
             rd (sample r') p = rd (sample r) p) /\
  length (sample r') = length (sample r) /\
  (mirrored RINGSIZE (sample r) -> mirrored RINGSIZE (sample r')).
Proof.
  intros Hwf H.
  destruct (input_Ok_written RINGSIZE cache r x b r' Hwf H) as (_ & v & -> & _).
  destruct Hwf as (_ & _ & _ & _ & _ & _ & _ & Hlen & Hi).
  cbn [sample with_offset with_output].
  split; [|split; [|split; [|split]]].
  - rewrite (rd_written RINGSIZE) by lia. apply decide_True. left. reflexivity.
  - rewrite (rd_written RINGSIZE) by lia. apply decide_True. right. reflexivity.
  - intros p Hp H1 H2. rewrite (rd_written RINGSIZE) by lia.
    apply decide_False. intros [?|?]; contradiction.
  - cbn [written with_sample sample]. rewrite !length_insert. reflexivity.
  - apply written_mirrored; assumption.
Qed.

(** ** reset after any calls *)

Lemma input_all_Ok_wf (cache : fir_cache_t) (xs : list f32) (r : SincResampler)
    (outs : list (bool * f32)) (r' : SincResampler) :
  resampler_wf RINGSIZE cache r ->
  input_all RINGSIZE cache r xs = Ok (outs, r') ->
  resampler_wf RINGSIZE cache r' /\ same_config r r'.
Proof.
  revert r outs. induction xs as [|x xs IH]; intros r outs Hwf.
  - cbn [input_all]. intros [= <- <-]. split; [exact Hwf|]. repeat split.
  - cbn [input_all].
    destruct (input RINGSIZE cache r x) as [[b r1]|f] eqn:E1;
      cbn [mbind result_bind]; [|discriminate].
    cbn [fst snd].
    destruct (input_all RINGSIZE cache r1 xs) as [[outs1 r2]|f] eqn:E2;
      cbn [mbind result_bind]; [|discriminate].
    cbn [fst snd]. intros [= <- <-].
    destruct (input_Ok_wf RINGSIZE cache r x b r1 Hwf E1) as (Hwf1 & Hc1).
    destruct (IH r1 outs1 Hwf1 E2) as (Hwf2 & Hc2).
    split; [exact Hwf2|].
    destruct Hc1 as (? & ? & ? & ?), Hc2 as (? & ? & ? & ?).
    repeat split; congruence.
Qed.

(** X17: [reset] undoes every call of [input] made before it.  Whatever
    samples an object was fed, after [reset] it answers a stream of samples
    as the object would have, had it been reset before it was fed
    anything. *)
Theorem reset_undoes_inputs (cache : fir_cache_t) (r : SincResampler)
    (ws xs : list f32) (outs : list (bool * f32)) (r1 : SincResampler) :
  resampler_wf RINGSIZE cache r ->
  input_all RINGSIZE cache r ws = Ok (outs, r1) ->
  outputs (input_all RINGSIZE cache (reset r1) xs)
  = outputs (input_all RINGSIZE cache (reset r) xs).
Proof.
  intros Hwf H.
  destruct (input_all_Ok_wf cache ws r outs r1 Hwf H) as (Hwf1 & Hc).
  apply reset_forgets; [exact Hwf1|exact Hwf|].
  destruct Hc as (? & ? & ? & ?). repeat split; congruence.
Qed.

(** ** What the array holds after [RINGSIZE] calls *)

(** The [j] samples written last are the first [j] elements of [l], the
    latest first, and each is held in both halves of the array. *)
Definition recent (j : Z) (r : SincResampler) (l : list f32) : Prop :=
  forall d, 1 <= d <= j ->
    rd (sample r) ((sampleIndex r - d) mod RINGSIZE) = l !! Z.to_nat (d - 1) /\
    rd (sample r) ((sampleIndex r - d) mod RINGSIZE + RINGSIZE)
    = l !! Z.to_nat (d - 1).

Lemma recent_written (j : Z) (r : SincResampler) (l : list f32) (x : f32) :
  0 <= sampleIndex r < RINGSIZE ->
  Z.of_nat (length (sample r)) = 2 * RINGSIZE ->
  0 <= j -> recent j r l ->
  recent (Z.min (j + 1) RINGSIZE) (written RINGSIZE r x) (x :: l).
Proof.
  intros Hi Hlen Hj Hrec d Hd.
  assert (HR : 0 < RINGSIZE) by lia.
  assert (E : (sampleIndex (written RINGSIZE r x) - d) mod RINGSIZE
              = (sampleIndex r - (d - 1)) mod RINGSIZE).
  { cbn [written with_sample sampleIndex].
    rewrite Zminus_mod_idemp_l. f_equal. lia. }
  rewrite E.
  pose proof (Z.mod_pos_bound (sampleIndex r - (d - 1)) RINGSIZE HR) as Hp.
  pose proof (mod_pred_cases RINGSIZE (sampleIndex r) (d - 1) Hi ltac:(lia)) as M.
  rewrite !(rd_written RINGSIZE) by lia.
  destruct (Z.eq_dec d 1) as [->|Hd1].
  - change (1 - 1) with 0 in *. rewrite Z.sub_0_r in *.
    rewrite Z.mod_small by lia.
    rewrite !decide_True by (first [left; reflexivity | right; reflexivity]).
    split; reflexivity.
  - assert (Hne : (sampleIndex r - (d - 1)) mod RINGSIZE <> sampleIndex r).
    { rewrite M. repeat case_decide; lia. }
    rewrite !decide_False by lia.
    replace (Z.to_nat (d - 1)) with (S (Z.to_nat (d - 1 - 1))) by lia.
    cbn [lookup list_lookup].
    apply (Hrec (d - 1)). lia.
Qed.

Lemma recent_input_all (cache : fir_cache_t) (ws : list f32) :
  forall (r : SincResampler) (j : Z) (l : list f32) (outs : list (bool * f32))
         (r' : SincResampler),
  resampler_wf RINGSIZE cache r -> 0 <= j -> recent j r l ->
  input_all RINGSIZE cache r ws = Ok (outs, r') ->
  recent (Z.min (j + Z.of_nat (length ws)) RINGSIZE) r' (rev ws ++ l).
Proof.
  induction ws as [|x ws IH]; intros r j l outs r' Hwf Hj Hrec.
  - cbn [input_all]. intros [= <- <-]. cbn [rev app length].
    intros d Hd. apply Hrec. lia.
  - cbn [input_all].
    destruct (input RINGSIZE cache r x) as [[b r1]|f] eqn:E1;
      cbn [mbind result_bind]; [|discriminate].
    cbn [fst snd].
    destruct (input_all RINGSIZE cache r1 ws) as [[outs1 r2]|f] eqn:E2;
      cbn [mbind result_bind]; [|discriminate].
    cbn [fst snd]. intros [= <- <-].
    destruct (input_Ok_wf RINGSIZE cache r x b r1 Hwf E1) as (Hwf1 & _).
    destruct (input_Ok_written RINGSIZE cache r x b r1 Hwf E1) as (_ & v & Er1 & _).
    assert (Hi : 0 <= sampleIndex r < RINGSIZE /\
                 Z.of_nat (length (sample r)) = 2 * RINGSIZE).
    { destruct Hwf as (? & ? & ? & ? & ? & ? & ? & ? & ?). auto. }
    assert (Hrec1 : recent (Z.min (j + 1) RINGSIZE) r1 (x :: l)).
    { pose proof (recent_written j r l x (proj1 Hi) (proj2 Hi) Hj Hrec) as H.
      rewrite Er1. exact H. }
    assert (Hj1 : 0 <= Z.min (j + 1) RINGSIZE) by lia.
    pose proof (IH r1 _ _ _ _ Hwf1 Hj1 Hrec1 E2) as H.
    cbn [rev length]. rewrite <- app_assoc. cbn [app].
    intros d Hd. apply H. lia.
Qed.

(** After [RINGSIZE] calls or more the two halves of the array agree. *)
Lemma recent_full (r : SincResampler) (l : list f32) :
  0 <= sampleIndex r < RINGSIZE -> recent RINGSIZE r l -> mirrored RINGSIZE (sample r).
Proof.
  intros Hi Hrec i Hir.
  assert (HR : 0 < RINGSIZE) by lia.
  set (d := if decide (i < sampleIndex r) then sampleIndex r - i
            else sampleIndex r - i + RINGSIZE).
  assert (Hd : 1 <= d <= RINGSIZE) by (subst d; case_decide; lia).
  assert (E : (sampleIndex r - d) mod RINGSIZE = i).
  { subst d. case_decide.
    - replace (sampleIndex r - (sampleIndex r - i)) with i by lia.
      apply Z.mod_small. lia.
    - symmetry. apply Z.mod_unique with (q := -1); lia. }
  destruct (Hrec d Hd) as [H1 H2]. rewrite E in H1, H2. congruence.
Qed.

(** The outputs of a run by call: [Some v] for a call that returned
    [ready] with the output [v], [None] for one that did not. *)
Definition ready_outputs (o : result (list (bool * f32) * SincResampler))
    : result (list (option f32)) :=
  match o with
  | Ok (l, _) => Ok ((fun o : bool * f32 => if fst o then Some (snd o) else None) <$> l)
  | Fail f => Fail f
  end.

(** [input] does not read [outputValue]. *)
Lemma input_with_output (cache : fir_cache_t) (r : SincResampler) (v x : f32) :
  input RINGSIZE cache (with_output r v) x
  = match input RINGSIZE cache r x with
    | Ok (true, r') => Ok (true, r')
    | Ok (false, r') => Ok (false, with_output r' v)
    | Fail f => Fail f
    end.
Proof.
  unfold input. cbn [sampleIndex sample with_output].
  destruct (negb _); [reflexivity|]. cbv zeta.
  cbn [sampleOffset with_sample with_output].
  destruct (sampleOffset r <? 1024).
  - change (fir RINGSIZE cache (with_sample (with_output r v) ?b ?i) ?s)
      with (fir RINGSIZE cache (with_sample r b i) s).
    destruct (fir RINGSIZE cache _ _); reflexivity.
  - reflexivity.
Qed.

Lemma ready_outputs_with_output (cache : fir_cache_t) (xs : list f32)
    (r : SincResampler) (v : f32) :
  ready_outputs (input_all RINGSIZE cache (with_output r v) xs)
  = ready_outputs (input_all RINGSIZE cache r xs).
Proof.
  revert r. induction xs as [|x xs IH]; intros r; [reflexivity|].
  cbn [input_all]. rewrite input_with_output.
  destruct (input RINGSIZE cache r x) as [[[|] r1]|f]; cbn [mbind result_bind fst snd].
  - reflexivity.
  - specialize (IH r1).
    destruct (input_all RINGSIZE cache (with_output r1 v) xs) as [[l1 ?]|g1],
             (input_all RINGSIZE cache r1 xs) as [[l2 ?]|g2];
      cbn in IH |- *; congruence.
  - reflexivity.
Qed.

Lemma outputs_ready_outputs (o1 o2 : result (list (bool * f32) * SincResampler)) :
  outputs o1 = outputs o2 -> ready_outputs o1 = ready_outputs o2.
Proof.
  destruct o1 as [[l1 ?]|f1], o2 as [[l2 ?]|f2]; cbn; congruence.
Qed.

Lemma input_all_offsets (cache : fir_cache_t) (ws : list f32) :
  forall (r1 r2 : SincResampler) (outs1 outs2 : list (bool * f32))
         (r1' r2' : SincResampler),
  resampler_wf RINGSIZE cache r1 -> resampler_wf RINGSIZE cache r2 ->
  cyclesPerSample r1 = cyclesPerSample r2 -> sampleOffset r1 = sampleOffset r2 ->
  input_all RINGSIZE cache r1 ws = Ok (outs1, r1') ->
  input_all RINGSIZE cache r2 ws = Ok (outs2, r2') ->
  sampleOffset r1' = sampleOffset r2'.
Proof.
  induction ws as [|x ws IH]; intros r1 r2 outs1 outs2 r1' r2' Hwf1 Hwf2 Hc Ho.
  - cbn [input_all]. intros [= <- <-] [= <- <-]. exact Ho.
  - cbn [input_all].
    destruct (input RINGSIZE cache r1 x) as [[b1 s1]|f] eqn:E1;
      cbn [mbind result_bind]; [|discriminate].
    destruct (input RINGSIZE cache r2 x) as [[b2 s2]|f] eqn:E2;
      cbn [mbind result_bind]; [|intros _; discriminate].
    cbn [fst snd].
    destruct (input_all RINGSIZE cache s1 ws) as [[o1 t1]|f] eqn:F1;
      cbn [mbind result_bind]; [|discriminate].
    destruct (input_all RINGSIZE cache s2 ws) as [[o2 t2]|f] eqn:F2;
      cbn [mbind result_bind]; [|intros _; discriminate].
    cbn [fst snd]. intros [= <- <-] [= <- <-].
    destruct (input_Ok_wf RINGSIZE cache r1 x b1 s1 Hwf1 E1) as (Hw1 & (_ & _ & _ & Hc1)).
    destruct (input_Ok_wf RINGSIZE cache r2 x b2 s2 Hwf2 E2) as (Hw2 & (_ & _ & _ & Hc2)).
    destruct (input_Ok_written RINGSIZE cache r1 x b1 s1 Hwf1 E1) as (Hb1 & _ & _ & _ & _ & Ho1).
    destruct (input_Ok_written RINGSIZE cache r2 x b2 s2 Hwf2 E2) as (Hb2 & _ & _ & _ & _ & Ho2).
    apply (IH s1 s2 o1 o2 t1 t2 Hw1 Hw2); try assumption.
    + congruence.
    + rewrite Ho1, Ho2, Hb1, Hb2, Ho, Hc. reflexivity.
Qed.

(** X18: what the array held when the object was constructed is gone
    after [RINGSIZE] calls of [input].  Two objects of the same design and
    the same phase that are fed the same [RINGSIZE] samples or more return
    [ready] at the same calls of every further stream, with the same output
    values, whatever their arrays held before and wherever their write
    cursors stood. *)
Theorem storage_flushed (cache : fir_cache_t) (ws xs : list f32)
    (r1 r2 : SincResampler) (outs1 outs2 : list (bool * f32))
    (r1' r2' : SincResampler) :
  resampler_wf RINGSIZE cache r1 -> resampler_wf RINGSIZE cache r2 ->
  same_config r1 r2 -> sampleOffset r1 = sampleOffset r2 ->
  RINGSIZE <= Z.of_nat (length ws) ->
  input_all RINGSIZE cache r1 ws = Ok (outs1, r1') ->
  input_all RINGSIZE cache r2 ws = Ok (outs2, r2') ->
  ready_outputs (input_all RINGSIZE cache r1' xs)
  = ready_outputs (input_all RINGSIZE cache r2' xs).
Proof.
  intros Hwf1 Hwf2 Hcfg Ho Hlen E1 E2.
  destruct (input_all_Ok_wf cache ws r1 outs1 r1' Hwf1 E1) as (Hw1 & Hc1).
  destruct (input_all_Ok_wf cache ws r2 outs2 r2' Hwf2 E2) as (Hw2 & Hc2).
  assert (Hcfg' : same_config r1' r2').
  { destruct Hcfg as (? & ? & ? & ?), Hc1 as (? & ? & ? & ?), Hc2 as (? & ? & ? & ?).
    repeat split; congruence. }
  assert (Ho' : sampleOffset r1' = sampleOffset r2').
  { apply (input_all_offsets cache ws r1 r2 outs1 outs2); try assumption.
    destruct Hcfg as (_ & _ & _ & Hc). exact Hc. }
  assert (Hrec0 : forall r, recent 0 r []) by (intros r d Hd; lia).
  pose proof (recent_input_all cache ws r1 0 [] outs1 r1' Hwf1 ltac:(lia) (Hrec0 r1) E1)
    as Hrec1.
  pose proof (recent_input_all cache ws r2 0 [] outs2 r2' Hwf2 ltac:(lia) (Hrec0 r2) E2)
    as Hrec2.
  assert (HR : 0 < RINGSIZE).
  { destruct Hwf1 as (_ & _ & _ & _ & _ & _ & _ & _ & ?). lia. }
  rewrite Z.min_r in Hrec1, Hrec2 by lia.
  assert (Hi1 : 0 <= sampleIndex r1' < RINGSIZE)
    by (destruct Hw1 as (? & ? & ? & ? & ? & ? & ? & ? & ?); assumption).
  assert (Hi2 : 0 <= sampleIndex r2' < RINGSIZE)
    by (destruct Hw2 as (? & ? & ? & ? & ? & ? & ? & ? & ?); assumption).
  rewrite <- (ready_outputs_with_output cache xs r2' (outputValue r1')).
  apply outputs_ready_outputs.
  apply input_all_alike; [exact Hw1| |].
  - destruct Hw2 as (T & HT & Hrest). exists T. exact (conj HT Hrest).
  - split; [exact Hcfg'|]. split; [exact Ho'|].
    split; [right; reflexivity|].
    split; [exact (recent_full r1' _ Hi1 Hrec1)|].
    split; [exact (recent_full r2' _ Hi2 Hrec2)|].
    intros d Hd. cbn [sample sampleIndex with_output].
    destruct (Hrec1 d Hd) as [H1 _], (Hrec2 d Hd) as [H2 _]. congruence.
Qed.

End ResamplerHistory.

(** ** The small resampler again *)

Lemma small_state_numbers : numbers small_cache small_state.
Proof.
  intros T HT. cbn [small_state firTable] in HT. unfold small_cache in HT.
  rewrite lookup_singleton_eq in HT. injection HT as <-.
  unfold small_table.
  repeat (apply Forall_cons; split); try apply Forall_nil; vm_compute; exact I.
Qed.

(** The small resampler with 512 phase steps per output. *)
Definition slow_state : SincResampler :=
  {| firTable := "3,1,2"; sampleIndex := 3; firRES := 1; firN := 3;
     cyclesPerSample := 512; sampleOffset := 0; outputValue := f32_zero;
     sample := replicate 8 (f32_of_int 5) |}.

Lemma slow_state_wf : resampler_wf 4 small_cache slow_state.
Proof. exact small_state_wf. Qed.

Lemma fir_defined_iff_witness :
  (is_Ok (fir 4 small_cache small_state 1024) <-> 0 <= 1024 < 1024) /\
  (~ 0 <= 1024 < 1024 ->
   fir 4 small_cache small_state 1024 = Fail Undefined_behaviour).
Proof.
  apply (fir_defined_iff 4 small_cache small_state 1024).
  - exact small_state_wf.
  - lia.
Defined.

Lemma input_stream_rate_witness :
  exists outs r',
    input_all 4 small_cache small_state
      [f32_of_int 1; f32_of_int 2; f32_of_int 3] = Ok (outs, r') /\
    length outs = 3%nat /\
    sampleOffset r'
    = sampleOffset small_state + readies outs * cyclesPerSample small_state
      - 1024 * Z.of_nat 3 /\
    0 <= sampleOffset r' < cyclesPerSample small_state /\
    sampleIndex r' = (sampleIndex small_state + Z.of_nat 3) mod 4 /\
    resampler_wf 4 small_cache r'.
Proof.
  apply (input_stream_rate 4 small_cache
           [f32_of_int 1; f32_of_int 2; f32_of_int 3] small_state).
  - exact small_state_wf.
  - cbn [small_state cyclesPerSample]. lia.
  - cbn [small_state cyclesPerSample sampleOffset]. lia.
Defined.

Lemma input_faults_below_1024_witness :
  exists r1,
    input 4 small_cache slow_state f32_zero = Ok (true, r1) /\
    sampleOffset r1 = sampleOffset slow_state + cyclesPerSample slow_state - 1024 /\
    input 4 small_cache r1 f32_zero = Fail Undefined_behaviour.
Proof.
  apply (input_faults_below_1024 4 small_cache slow_state f32_zero f32_zero).
  - exact slow_state_wf.
  - cbn [slow_state sampleOffset]. lia.
  - cbn [slow_state cyclesPerSample]. lia.
  - cbn [slow_state cyclesPerSample sampleOffset]. lia.
Defined.

(** The small resampler after four calls, from an array of fives and from
    a zeroed array. *)
Definition small_fed : list (bool * f32) * SincResampler :=
  match input_all 4 small_cache small_state
          [f32_of_int 1; f32_of_int 2; f32_of_int 3; f32_of_int 4] with
  | Ok p => p
  | Fail _ => ([], small_state)
  end.

Definition small_fed_zeroed : list (bool * f32) * SincResampler :=
  match input_all 4 small_cache (reset small_state)
          [f32_of_int 1; f32_of_int 2; f32_of_int 3; f32_of_int 4] with
  | Ok p => p
  | Fail _ => ([], small_state)
  end.

Lemma small_fed_eq :
  input_all 4 small_cache small_state
    [f32_of_int 1; f32_of_int 2; f32_of_int 3; f32_of_int 4]
  = Ok (fst small_fed, snd small_fed).
Proof. vm_compute. reflexivity. Qed.

Lemma small_fed_zeroed_eq :
  input_all 4 small_cache (reset small_state)
    [f32_of_int 1; f32_of_int 2; f32_of_int 3; f32_of_int 4]
  = Ok (fst small_fed_zeroed, snd small_fed_zeroed).
Proof. vm_compute. reflexivity. Qed.

Lemma reset_undoes_inputs_witness :
  outputs (input_all 4 small_cache (reset (snd small_fed))
             [f32_of_int 7; f32_of_int 8])
  = outputs (input_all 4 small_cache (reset small_state)
               [f32_of_int 7; f32_of_int 8]).
Proof.
  exact (reset_undoes_inputs 4 small_cache small_state
           [f32_of_int 1; f32_of_int 2; f32_of_int 3; f32_of_int 4]
           [f32_of_int 7; f32_of_int 8] (fst small_fed) (snd small_fed)
           small_state_wf small_fed_eq).
Defined.

Lemma storage_flushed_witness :
  ready_outputs (input_all 4 small_cache (snd small_fed)
                   [f32_of_int 7; f32_of_int 8])
  = ready_outputs (input_all 4 small_cache (snd small_fed_zeroed)
                     [f32_of_int 7; f32_of_int 8]).
Proof.
  apply (storage_flushed 4 small_cache
           [f32_of_int 1; f32_of_int 2; f32_of_int 3; f32_of_int 4]
           [f32_of_int 7; f32_of_int 8] small_state (reset small_state)
           (fst small_fed) (fst small_fed_zeroed)).
  - exact small_state_wf.
  - apply reset_wf, small_state_wf.
  - repeat split.
  - reflexivity.
  - cbn [length]. lia.
  - exact small_fed_eq.
  - exact small_fed_zeroed_eq.
Defined.

Lemma reset_matches_zeroed_new_witness :
  outputs (input_all 4 small_cache (reset (snd small_fed))
             [f32_of_int 7; f32_of_int 8])
  = outputs (input_all 4 small_cache (reset small_state)
               [f32_of_int 7; f32_of_int 8]).
Proof.
  apply (reset_matches_zeroed_new 4 small_cache (snd small_fed)
           (reset small_state) [f32_of_int 7; f32_of_int 8]).
  - exact (proj1 (input_all_Ok_wf 4 small_cache _ _ _ _ small_state_wf small_fed_eq)).
  - apply reset_wf, small_state_wf.
  - unfold same_config. repeat split; vm_compute; reflexivity.
  - reflexivity.
  - reflexivity.
Defined.

Lemma reset_zero_stream_witness :
  exists outs r',
    input_all 4 small_cache (reset small_state) (replicate 5 f32_zero)
    = Ok (outs, r') /\
    Forall (fun o : bool * f32 => fst o = true -> snd o = f32_zero) outs /\
    1024 * Z.of_nat 5 <= readies outs * cyclesPerSample small_state
      < 1024 * Z.of_nat 5 + cyclesPerSample small_state.
Proof.
  apply (reset_zero_stream 4 small_cache small_state 5).
  - exact small_state_wf.
  - exact small_state_numbers.
  - cbn [small_state cyclesPerSample]. lia.
Defined.

(** The small resampler after one call. *)
Definition small_step : bool * SincResampler :=
  match input 4 small_cache small_state (f32_of_int 1) with
  | Ok p => p
  | Fail _ => (false, small_state)
  end.

Lemma small_step_eq :
  input 4 small_cache small_state (f32_of_int 1)
  = Ok (fst small_step, snd small_step).
Proof. vm_compute. reflexivity. Qed.

Lemma input_writes_both_halves_witness :
  rd (sample (snd small_step)) (sampleIndex small_state) = Some (f32_of_int 1) /\
  rd (sample (snd small_step)) (sampleIndex small_state + 4)
  = Some (f32_of_int 1) /\
  (forall p, 0 <= p -> p <> sampleIndex small_state ->
             p <> sampleIndex small_state + 4 ->
             rd (sample (snd small_step)) p = rd (sample small_state) p) /\
  length (sample (snd small_step)) = length (sample small_state) /\
  (mirrored 4 (sample small_state) -> mirrored 4 (sample (snd small_step))).
Proof.
  exact (input_writes_both_halves 4 small_cache small_state (f32_of_int 1)
           (fst small_step) (snd small_step) small_state_wf small_step_eq).
Defined.

(** * Further properties of the constructor and the cache *)

(** ** The key of the cache *)









Section Cache.

Variable RINGSIZE : Z.
Variable log10 : float -> float.
Variable sin : float -> float.
Variable show_double : float -> string.
Variable fuel : nat.








End Cache.

(** ** The scenario again: a second construction *)








